(** * OpenImageIO [simd.h]: a shallow embedding of the 4-wide vector layer

    The header gives every operation up to three bodies, selected by the
    preprocessor symbol [OIIO_SIMD_SSE]: a scalar fallback, an SSE2/SSSE3
    body and an SSE4.1 body.  The embedding keeps that selection as an
    explicit [backend] argument, so that each definition below can be read
    against the [#if] ladder of the function it embeds.

    Data model.  A [__m128]/[__m128i] register, and equally the scalar
    [m_val[4]] array that shares a union with it, is four 32-bit lanes.
    A lane is kept as its bit pattern, a [Z] in [0, 2^32); [sint] reads it
    as the C [int] of [int4::operator[]] and [b2f] reads it as the IEEE-754
    binary32 value of [float4::operator[]].  Bit casts between [mask4],
    [int4] and [float4] are therefore the identity, as in the source.
    Float arithmetic is the Standard Library's [SpecFloat] at precision 24
    and maximal exponent 128; [SpecFloat] has a single NaN, so every NaN
    result is written back as the default quiet NaN. *)

From Stdlib Require Import ZArith Bool Lia List.
From Stdlib Require Import Floats.SpecFloat.
Import ListNotations.
Local Open Scope Z_scope.

(* ================================================================== *)
(** * Part I: definitions                                              *)
(* ================================================================== *)

(** ** Build configuration *)

(** [Scalar] is the build without [OIIO_SIMD_SSE]; [SSE2], [SSE3], [SSE4]
    are the builds with [OIIO_SIMD_SSE] equal to 2, 3 and 4. *)
Inductive backend := Scalar | SSE2 | SSE3 | SSE4.

Definition OIIO_SIMD_SSE (bk : backend) : Z :=
  match bk with Scalar => 0 | SSE2 => 2 | SSE3 => 3 | SSE4 => 4 end.

(** [OIIO_SIMD] is 1 exactly when an SSE level is selected. *)
Definition OIIO_SIMD (bk : backend) : bool :=
  match bk with Scalar => false | _ => true end.

Definition backend_eq_dec (a b : backend) : {a = b} + {a <> b}.
Proof. decide equality. Defined.

(** ** 32-bit lanes *)

Definition wrap (z : Z) : Z := z mod 2 ^ 32.

(** The lane read as a two's-complement [int]. *)
Definition sint (w : Z) : Z := if w <? 2 ^ 31 then w else w - 2 ^ 32.

(** All 32 bits set: the [int] value -1. *)
Definition ones : Z := 2 ^ 32 - 1.

Definition is_word (w : Z) : Prop := 0 <= w < 2 ^ 32.

Definition wnot (w : Z) : Z := Z.lxor w ones.

(** Compile-time lane indices (the template arguments of [shuffle],
    [extract], [insert]) and the run-time index of [operator[]], which the
    source asserts to be below 4. *)
Inductive lane := L0 | L1 | L2 | L3.

Record vec4 := mk4 { x_ : Z; y_ : Z; z_ : Z; w_ : Z }.

Definition get (v : vec4) (k : lane) : Z :=
  match k with L0 => x_ v | L1 => y_ v | L2 => z_ v | L3 => w_ v end.

Definition put (v : vec4) (k : lane) (a : Z) : vec4 :=
  match k with
  | L0 => mk4 a (y_ v) (z_ v) (w_ v)
  | L1 => mk4 (x_ v) a (z_ v) (w_ v)
  | L2 => mk4 (x_ v) (y_ v) a (w_ v)
  | L3 => mk4 (x_ v) (y_ v) (z_ v) a
  end.

Definition build4 (f : lane -> Z) : vec4 := mk4 (f L0) (f L1) (f L2) (f L3).

Definition map4 (f : Z -> Z) (a : vec4) : vec4 :=
  build4 (fun i => f (get a i)).

Definition zip4 (f : Z -> Z -> Z) (a b : vec4) : vec4 :=
  build4 (fun i => f (get a i) (get b i)).

Definition splat (a : Z) : vec4 := mk4 a a a a.

Definition wf4 (v : vec4) : Prop := forall k, is_word (get v k).

Definition mask4 := vec4.
Definition int4 := vec4.
Definition float4 := vec4.
Definition float3 := vec4.

(** ** IEEE-754 binary32 *)

Definition prec : Z := 24.
Definition emax : Z := 128.

(** Decoding of a bit pattern: sign bit 31, biased exponent in bits
    30..23, fraction in bits 22..0. *)
Definition b2f (w : Z) : spec_float :=
  let s := Z.testbit w 31 in
  let e := (w / 2 ^ 23) mod 2 ^ 8 in
  let m := w mod 2 ^ 23 in
  if e =? 0 then
    if m =? 0 then S754_zero s else S754_finite s (Z.to_pos m) (-149)
  else if e =? 255 then
    if m =? 0 then S754_infinity s else S754_nan
  else S754_finite s (Z.to_pos (m + 2 ^ 23)) (e - 150).

Definition join_bits (s : bool) (e m : Z) : Z :=
  (if s then 2 ^ 31 else 0) + (e mod 2 ^ 8) * 2 ^ 23 + m mod 2 ^ 23.

(** The default quiet NaN the SSE unit produces. *)
Definition default_nan : Z := 0xFFC00000.

Definition f2b (x : spec_float) : Z :=
  match x with
  | S754_zero s => join_bits s 0 0
  | S754_infinity s => join_bits s 255 0
  | S754_nan => default_nan
  | S754_finite s m e =>
      if Z.pos m <? 2 ^ 23 then join_bits s 0 (Z.pos m)
      else join_bits s (e + 150) (Z.pos m - 2 ^ 23)
  end.

Definition fzero : Z := 0.             (* 0.0f  *)
Definition fone : Z := 0x3F800000.     (* 1.0f  *)
Definition fhalf : Z := 0x3F000000.    (* 0.5f  *)
Definition fneg_half : Z := 0xBF000000. (* -0.5f *)
Definition fneg_one : Z := 0xBF800000. (* -1.0f *)
Definition finf : Z := 0x7F800000.     (* +Inf  *)
Definition f1_5 : Z := 0x3FC00000.   (* 1.5f *)
Definition f2_0 : Z := 0x40000000.   (* 2.0f *)
Definition f2_5 : Z := 0x40200000.   (* 2.5f *)
Definition f3_0 : Z := 0x40400000.   (* 3.0f *)
Definition fneg_zero : Z := 0x80000000. (* -0.0f *)

Definition fadd (a b : Z) : Z := f2b (SFadd prec emax (b2f a) (b2f b)).
Definition fsub (a b : Z) : Z := f2b (SFsub prec emax (b2f a) (b2f b)).
Definition fmul (a b : Z) : Z := f2b (SFmul prec emax (b2f a) (b2f b)).
Definition fdiv (a b : Z) : Z := f2b (SFdiv prec emax (b2f a) (b2f b)).
Definition fsqrt (a : Z) : Z := f2b (SFsqrt prec emax (b2f a)).

(** The C comparisons on [float]; every one is false on a NaN operand
    except [!=], which is true. *)
Definition feq (a b : Z) : bool := SFeqb (b2f a) (b2f b).
Definition fne (a b : Z) : bool := negb (SFeqb (b2f a) (b2f b)).
Definition flt (a b : Z) : bool := SFltb (b2f a) (b2f b).
Definition fle (a b : Z) : bool := SFleb (b2f a) (b2f b).
Definition fgt (a b : Z) : bool := SFltb (b2f b) (b2f a).
Definition fge (a b : Z) : bool := SFleb (b2f b) (b2f a).

(** The two bit patterns of zero. *)
Definition zero_bits (w : Z) : Prop := w = fzero \/ w = fneg_zero.

(** [near a x]: [a] is [x] bit for bit, or both are zeros. *)
Definition near (a x : Z) : Prop := a = x \/ (zero_bits a /\ zero_bits x).

Definition is_nan (w : Z) : bool :=
  match b2f w with S754_nan => true | _ => false end.
Definition is_inf (w : Z) : bool :=
  match b2f w with S754_infinity _ => true | _ => false end.
Definition is_finite (w : Z) : bool :=
  match b2f w with S754_zero _ | S754_finite _ _ _ => true | _ => false end.

(** ** Rounding a float to an integer

    A finite float is [(-1)^s * m * 2^e].  [round_mag] gives the magnitude
    of the integer it rounds to under each of the four roundings the
    header uses. *)
Inductive rmode :=
  | RTrunc          (* toward zero: the (int) cast, cvttps2dq *)
  | RFloor          (* toward minus infinity: floorf, _mm_floor_ps *)
  | RNearestEven    (* ties to even: _MM_FROUND_TO_NEAREST_INT *)
  | RNearestAway.   (* ties away from zero: roundf *)

Definition round_mag (md : rmode) (s : bool) (m : positive) (e : Z) : Z :=
  if 0 <=? e then Z.pos m * 2 ^ e
  else
    let d := 2 ^ (- e) in
    let q := Z.pos m / d in
    let r := Z.pos m mod d in
    match md with
    | RTrunc => q
    | RFloor => if s && negb (r =? 0) then q + 1 else q
    | RNearestEven =>
        match 2 * r ?= d with
        | Lt => q
        | Gt => q + 1
        | Eq => if Z.even q then q else q + 1
        end
    | RNearestAway => if d <=? 2 * r then q + 1 else q
    end.

(** The rounded value as a float again: what [floorf], [roundf],
    [_mm_floor_ps] and [_mm_round_ps] return.  Zeros, infinities and NaN
    pass through; a result of magnitude zero keeps the operand's sign. *)
Definition SFround_int (md : rmode) (x : spec_float) : spec_float :=
  match x with
  | S754_finite s m e =>
      if 0 <=? e then x
      else binary_normalize prec emax (cond_Zopp s (round_mag md s m e)) 0 s
  | _ => x
  end.

Definition fround_int (md : rmode) (a : Z) : Z := f2b (SFround_int md (b2f a)).

(** The "integer indefinite" value that [cvttps2dq] writes for NaN,
    infinities and values outside the [int] range.  The scalar [(int)]
    cast is undefined there in C; on the x86 targets of this header it is
    compiled to the same conversion instruction. *)
Definition int_indefinite : Z := 0x80000000.

Definition f2i_trunc (a : Z) : Z :=
  match b2f a with
  | S754_zero _ => 0
  | S754_finite s m e =>
      let v := cond_Zopp s (round_mag RTrunc s m e) in
      if (- 2 ^ 31 <=? v) && (v <? 2 ^ 31) then wrap v else int_indefinite
  | _ => int_indefinite
  end.

(** The largest integer not exceeding a finite float, and whether the
    float is a whole number: the reference against which [floori] is
    read. *)
Definition floorZ (x : spec_float) : option Z :=
  match x with
  | S754_zero _ => Some 0
  | S754_finite s m e =>
      Some (if 0 <=? e then cond_Zopp s (Z.pos m * 2 ^ e)
            else cond_Zopp s (Z.pos m) / 2 ^ (- e))
  | _ => None
  end.

Definition is_whole (x : spec_float) : bool :=
  match x with
  | S754_zero _ => true
  | S754_finite s m e => (0 <=? e) || (Z.pos m mod 2 ^ (- e) =? 0)
  | _ => false
  end.

(** ** The SSE intrinsics the header calls

    Each intrinsic is given lane by lane from its documented operation.
    [__m128], [__m128i] and [__m128d] are the same 128 bits, so the cast
    intrinsics ([_mm_castps_si128] and the like) are the identity and are
    not written. *)

Definition mm_setzero : vec4 := splat 0.
Definition mm_set1_epi32 (a : Z) : vec4 := splat (wrap a).
Definition mm_set_epi32 (d c b a : Z) : vec4 :=
  mk4 (wrap a) (wrap b) (wrap c) (wrap d).
Definition mm_set1_ps (a : Z) : vec4 := splat a.
Definition mm_set_ps (d c b a : Z) : vec4 := mk4 a b c d.
Definition mm_set_ss (a : Z) : vec4 := mk4 a 0 0 0.
Definition mm_cvtss_f32 (v : vec4) : Z := x_ v.
Definition mm_move_ss (a b : vec4) : vec4 := mk4 (x_ b) (y_ a) (z_ a) (w_ a).

(** [_mm_cmpeq_epi8 (v, v)]: every byte equals itself, so all bits set. *)
Definition mm_cmpeq_epi8_self (v : vec4) : vec4 := splat ones.

Definition mm_and (a b : vec4) : vec4 := zip4 Z.land a b.
Definition mm_or (a b : vec4) : vec4 := zip4 Z.lor a b.
Definition mm_xor (a b : vec4) : vec4 := zip4 Z.lxor a b.
(** [_mm_andnot_ps (a, b)] is [(~a) & b]. *)
Definition mm_andnot (a b : vec4) : vec4 :=
  zip4 (fun p q => Z.land (wnot p) q) a b.

Definition bool_mask (b : bool) : Z := if b then ones else 0.

Definition mm_movemask_ps (v : vec4) : Z :=
  Z.b2z (Z.testbit (x_ v) 31) + 2 * Z.b2z (Z.testbit (y_ v) 31)
  + 4 * Z.b2z (Z.testbit (z_ v) 31) + 8 * Z.b2z (Z.testbit (w_ v) 31).

Definition mm_cmpeq_epi32 (a b : vec4) : vec4 :=
  zip4 (fun p q => bool_mask (p =? q)) a b.
Definition mm_cmplt_epi32 (a b : vec4) : vec4 :=
  zip4 (fun p q => bool_mask (sint p <? sint q)) a b.
Definition mm_cmpgt_epi32 (a b : vec4) : vec4 :=
  zip4 (fun p q => bool_mask (sint q <? sint p)) a b.

Definition mm_add_epi32 (a b : vec4) : vec4 := zip4 (fun p q => wrap (p + q)) a b.
Definition mm_sub_epi32 (a b : vec4) : vec4 := zip4 (fun p q => wrap (p - q)) a b.
Definition mm_mullo_epi32 (a b : vec4) : vec4 := zip4 (fun p q => wrap (p * q)) a b.

(** Shifts by an immediate count; a count above 31 clears the lane
    (or fills it with the sign, for the arithmetic shift). *)
Definition mm_slli_epi32 (a : vec4) (bits : Z) : vec4 :=
  map4 (fun p => if 31 <? bits then 0 else wrap (Z.shiftl p bits)) a.
Definition mm_srli_epi32 (a : vec4) (bits : Z) : vec4 :=
  map4 (fun p => if 31 <? bits then 0 else Z.shiftr p bits) a.
Definition mm_srai_epi32 (a : vec4) (bits : Z) : vec4 :=
  map4 (fun p => wrap (Z.shiftr (sint p) (Z.min bits 31))) a.

(** [_mm_shuffle_epi32 (v, _MM_SHUFFLE(i3,i2,i1,i0))].  The SSE3
    specialisations of [shuffle_sse] for <0,0,2,2>, <1,1,3,3> and
    <0,1,0,1> ([_mm_moveldup_ps], [_mm_movehdup_ps], [_mm_movedup_pd])
    deliver these same lanes. *)
Definition shuffle_sse (i0 i1 i2 i3 : lane) (v : vec4) : vec4 :=
  mk4 (get v i0) (get v i1) (get v i2) (get v i3).

Definition mm_extract_epi32 (v : vec4) (i : lane) : Z := get v i.
Definition mm_insert_epi32 (v : vec4) (a : Z) (i : lane) : vec4 := put v i (wrap a).
(** [_mm_insert_ps (a, b, i<<4)]: lane 0 of [b] into lane [i] of [a], no
    lane zeroed. *)
Definition mm_insert_ps (a b : vec4) (i : lane) : vec4 := put a i (x_ b).

(** Bytes and half-words of a lane, little endian. *)
Definition byte_of (w : Z) (j : Z) : Z := (w / 2 ^ (8 * j)) mod 2 ^ 8.
Definition lo16 (w : Z) : Z := w mod 2 ^ 16.
Definition hi16 (w : Z) : Z := (w / 2 ^ 16) mod 2 ^ 16.
Definition join16 (lo hi : Z) : Z := lo + hi * 2 ^ 16.

(** [_mm_blendv_epi8]: byte by byte, the top bit of the mask byte picks
    the byte of [b]. *)
Definition blendv_byte (a b m : Z) (j : Z) : Z :=
  (if Z.testbit m (8 * j + 7) then byte_of b j else byte_of a j) * 2 ^ (8 * j).
Definition mm_blendv_epi8 (a b m : vec4) : vec4 :=
  build4 (fun i =>
    blendv_byte (get a i) (get b i) (get m i) 0
    + blendv_byte (get a i) (get b i) (get m i) 1
    + blendv_byte (get a i) (get b i) (get m i) 2
    + blendv_byte (get a i) (get b i) (get m i) 3).
(** [_mm_blendv_ps]: lane by lane, on the sign bit of the mask lane. *)
Definition mm_blendv_ps (a b m : vec4) : vec4 :=
  build4 (fun i => if Z.testbit (get m i) 31 then get b i else get a i).

(** The eight half-words of a register, and the two 16-bit shuffles with
    their immediates given as the four 2-bit selectors, low first. *)
Definition half (v : vec4) (j : Z) : Z :=
  match j with
  | 0 => lo16 (x_ v) | 1 => hi16 (x_ v)
  | 2 => lo16 (y_ v) | 3 => hi16 (y_ v)
  | 4 => lo16 (z_ v) | 5 => hi16 (z_ v)
  | 6 => lo16 (w_ v) | _ => hi16 (w_ v)
  end.
Definition mm_shufflelo_epi16 (v : vec4) (s0 s1 s2 s3 : Z) : vec4 :=
  mk4 (join16 (half v s0) (half v s1)) (join16 (half v s2) (half v s3))
      (z_ v) (w_ v).
Definition mm_shufflehi_epi16 (v : vec4) (s0 s1 s2 s3 : Z) : vec4 :=
  mk4 (x_ v) (y_ v)
      (join16 (half v (4 + s0)) (half v (4 + s1)))
      (join16 (half v (4 + s2)) (half v (4 + s3))).

Definition mm_cvttps_epi32 (v : vec4) : vec4 := map4 f2i_trunc v.

Definition mm_add_ps := zip4 fadd.
Definition mm_sub_ps := zip4 fsub.
Definition mm_mul_ps := zip4 fmul.
Definition mm_div_ps := zip4 fdiv.
Definition mm_sqrt_ps := map4 fsqrt.

Definition mm_cmp_ps (c : Z -> Z -> bool) (a b : vec4) : vec4 :=
  zip4 (fun p q => bool_mask (c p q)) a b.

(** [_mm_hadd_ps (a, b)] = (a0+a1, a2+a3, b0+b1, b2+b3). *)
Definition mm_hadd_ps (a b : vec4) : vec4 :=
  mk4 (fadd (x_ a) (y_ a)) (fadd (z_ a) (w_ a))
      (fadd (x_ b) (y_ b)) (fadd (z_ b) (w_ b)).

(** [_mm_dp_ps (a, b, imm8)], the immediate given as its two nibbles:
    [hi] chooses the lanes that are multiplied, [lo] the lanes that
    receive the sum (the others receive 0.0). *)
Definition mm_dp_ps (a b : vec4) (hi lo : Z) : vec4 :=
  let t (j : Z) (i : lane) :=
    if Z.testbit hi j then fmul (get a i) (get b i) else fzero in
  let sum := fadd (fadd (t 3 L3) (t 2 L2)) (fadd (t 1 L1) (t 0 L0)) in
  mk4 (if Z.testbit lo 0 then sum else fzero)
      (if Z.testbit lo 1 then sum else fzero)
      (if Z.testbit lo 2 then sum else fzero)
      (if Z.testbit lo 3 then sum else fzero).

Definition mm_floor_ps := map4 (fround_int RFloor).
(** [_mm_round_ps (a, _MM_FROUND_TO_NEAREST_INT | _MM_FROUND_NO_EXC)]:
    the immediate selects round-to-nearest with ties to even. *)
Definition mm_round_ps_nearest := map4 (fround_int RNearestEven).

(** ** The per-element macros of the scalar bodies

    [SIMD_CONSTRUCT(x)] and [SIMD_RETURN(T,x)] assign the [int] (or
    [float]) expression [x] to every element in turn; an [int] expression
    is stored as its 32-bit pattern. *)
Definition SIMD_int (f : lane -> Z) : vec4 := build4 (fun i => wrap (f i)).
Definition SIMD_float (f : lane -> Z) : vec4 := build4 f.

(** The C expression [c ? -1 : 0]. *)
Definition neg1_or_0 (c : bool) : Z := if c then -1 else 0.

(** ** mask4 *)

(** [mask4::load (bool a)] *)
Definition mask4_load1 (bk : backend) (a : bool) : mask4 :=
  match bk with
  | Scalar => let val := neg1_or_0 a in SIMD_int (fun _ => val)
  | _ => mm_set1_epi32 (neg1_or_0 a)
  end.

(** [mask4::load (bool a, bool b, bool c, bool d)] *)
Definition mask4_load4 (bk : backend) (a b c d : bool) : mask4 :=
  match bk with
  | Scalar => mk4 (wrap (neg1_or_0 a)) (wrap (neg1_or_0 b))
                  (wrap (neg1_or_0 c)) (wrap (neg1_or_0 d))
  | _ => mm_set_epi32 (neg1_or_0 d) (neg1_or_0 c) (neg1_or_0 b) (neg1_or_0 a)
  end.

(** The constructors [mask4 (bool)] and [mask4 (bool,bool,bool,bool)]. *)
Definition mask4_of_bool (bk : backend) (a : bool) : mask4 := mask4_load1 bk a.
Definition mask4_of_bools (bk : backend) (a b c d : bool) : mask4 :=
  mask4_load4 bk a b c d.

(** [mask4 (const simd_t& m)]: the raw register, taken as it is. *)
Definition mask4_of_simd (m : vec4) : mask4 := m.

Definition mask4_False (bk : backend) : mask4 :=
  match bk with Scalar => mask4_of_bool bk false | _ => mm_setzero end.

Definition mask4_True (bk : backend) : mask4 :=
  match bk with
  | Scalar => mask4_of_bool bk true
  | _ => mm_cmpeq_epi8_self mm_setzero
  end.

(** [mask4::operator= (bool)] and [mask4::clear ()], as the new value of
    the object. *)
Definition mask4_assign_bool (bk : backend) (a : bool) : mask4 := mask4_load1 bk a.
Definition mask4_clear (bk : backend) : mask4 :=
  match bk with Scalar => mask4_assign_bool bk false | _ => mm_setzero end.

Definition lane_index (i : lane) : Z :=
  match i with L0 => 0 | L1 => 1 | L2 => 2 | L3 => 3 end.

(** [bool mask4::operator[] (int i) const] *)
Definition mask4_get (bk : backend) (m : mask4) (i : lane) : bool :=
  match bk with
  | Scalar => negb (get m i =? 0)
  | _ => Z.testbit (mm_movemask_ps m) (lane_index i)
  end.

(** [int& mask4::operator[] (int i)] used as an assignment target:
    [m[i] = v] stores the [int] [v] in the element, whatever its bits. *)
Definition mask4_set (m : mask4) (i : lane) (v : Z) : mask4 := put m i (wrap v).

(** [operator! (const mask4&)] *)
Definition mask4_not (bk : backend) (a : mask4) : mask4 :=
  match bk with
  | Scalar => SIMD_int (fun i => Z.lxor (sint (get a i)) (-1))
  | _ => mm_xor a (mask4_True bk)
  end.

(** [operator& (const mask4&, const mask4&)] *)
Definition mask4_and (bk : backend) (a b : mask4) : mask4 :=
  match bk with
  | Scalar => SIMD_int (fun i => Z.land (sint (get a i)) (sint (get b i)))
  | _ => mm_and a b
  end.

(** [operator| (const mask4&, const mask4&)] *)
Definition mask4_or (bk : backend) (a b : mask4) : mask4 :=
  match bk with
  | Scalar => SIMD_int (fun i => Z.lor (sint (get a i)) (sint (get b i)))
  | _ => mm_or a b
  end.

(** [operator^ (const mask4&, const mask4&)] *)
Definition mask4_xor (bk : backend) (a b : mask4) : mask4 :=
  match bk with
  | Scalar => SIMD_int (fun i => Z.lxor (sint (get a i)) (sint (get b i)))
  | _ => mm_xor a b
  end.

(** [mask4::operator~ ()] *)
Definition mask4_compl (bk : backend) (a : mask4) : mask4 :=
  match bk with
  | Scalar => SIMD_int (fun i => Z.lnot (sint (get a i)))
  | _ => let all_one_bits := mm_cmpeq_epi8_self a in mm_xor a all_one_bits
  end.

(** [operator== (const mask4&, const mask4&)] *)
Definition mask4_eq (bk : backend) (a b : mask4) : mask4 :=
  match bk with
  | Scalar => SIMD_int (fun i => neg1_or_0 (sint (get a i) =? sint (get b i)))
  | _ => mm_cmpeq_epi32 a b
  end.

(** [operator!= (const mask4&, const mask4&)] *)
Definition mask4_ne (bk : backend) (a b : mask4) : mask4 :=
  match bk with
  | Scalar => SIMD_int (fun i => neg1_or_0 (negb (sint (get a i) =? sint (get b i))))
  | _ => mm_xor a b
  end.

(** [shuffle<i0,i1,i2,i3> (const mask4&)] *)
Definition mask4_shuffle (bk : backend) (i0 i1 i2 i3 : lane) (a : mask4) : mask4 :=
  match bk with
  | Scalar => mask4_of_bools bk (mask4_get bk a i0) (mask4_get bk a i1)
                             (mask4_get bk a i2) (mask4_get bk a i3)
  | _ => shuffle_sse i0 i1 i2 i3 a
  end.

(** [shuffle<i> (const mask4&)] *)
Definition mask4_shuffle1 (bk : backend) (i : lane) (a : mask4) : mask4 :=
  mask4_shuffle bk i i i i a.

(** [extract<i> (const mask4&)]: the [int] of the lane converted to
    [bool] under SSE4.1, [a[i]] otherwise. *)
Definition mask4_extract (bk : backend) (i : lane) (a : mask4) : bool :=
  match bk with
  | SSE4 => negb (mm_extract_epi32 a i =? 0)
  | _ => mask4_get bk a i
  end.

(** [insert<i> (const mask4&, bool val)] *)
Definition mask4_insert (bk : backend) (i : lane) (a : mask4) (val : bool) : mask4 :=
  match bk with
  | SSE4 => let ival := neg1_or_0 val in mm_insert_epi32 a ival i
  | _ => let tmp := a in mask4_set tmp i (neg1_or_0 val)
  end.

(** [reduce_and], [reduce_or] and [all], [any], [none]. *)
Definition mask4_reduce_and (bk : backend) (v : mask4) : bool :=
  match bk with
  | Scalar => mask4_get bk v L0 && mask4_get bk v L1
              && mask4_get bk v L2 && mask4_get bk v L3
  | _ => mm_movemask_ps v =? 0xf
  end.

Definition mask4_reduce_or (bk : backend) (v : mask4) : bool :=
  match bk with
  | Scalar => mask4_get bk v L0 || mask4_get bk v L1
              || mask4_get bk v L2 || mask4_get bk v L3
  | _ => negb (mm_movemask_ps v =? 0)
  end.

Definition all (bk : backend) (v : mask4) : bool := Bool.eqb (mask4_reduce_and bk v) true.
Definition any (bk : backend) (v : mask4) : bool := Bool.eqb (mask4_reduce_or bk v) true.
Definition none (bk : backend) (v : mask4) : bool := Bool.eqb (mask4_reduce_or bk v) false.

(** A lane is canonical when it is all zeros or all ones. *)
Definition canonical_lane (w : Z) : Prop := w = 0 \/ w = ones.
Definition canonical (m : mask4) : Prop := forall k, canonical_lane (get m k).

Definition canonical_laneb (w : Z) : bool := (w =? 0) || (w =? ones).
Definition canonicalb (m : mask4) : bool :=
  canonical_laneb (x_ m) && canonical_laneb (y_ m)
  && canonical_laneb (z_ m) && canonical_laneb (w_ m).

(** ** int4 *)

(** [int4::load (int a)] and the constructor [int4 (int a)]. *)
Definition int4_load1 (bk : backend) (a : Z) : int4 :=
  match bk with
  | Scalar => SIMD_int (fun _ => a)
  | _ => mm_set1_epi32 a
  end.
Definition int4_of_int (bk : backend) (a : Z) : int4 := int4_load1 bk a.

(** [int4::load (int a, int b, int c, int d)] and its constructor. *)
Definition int4_load4 (bk : backend) (a b c d : Z) : int4 :=
  match bk with
  | Scalar => mk4 (wrap a) (wrap b) (wrap c) (wrap d)
  | _ => mm_set_epi32 d c b a
  end.
Definition int4_of_ints (bk : backend) (a b c d : Z) : int4 := int4_load4 bk a b c d.

(** [int4 (const int *vals)]: four [int]s read from memory. *)
Definition int4_of_array (bk : backend) (vals : vec4) : int4 :=
  match bk with
  | Scalar => SIMD_int (fun i => sint (get vals i))
  | _ => vals
  end.

Definition int4_Zero (bk : backend) : int4 :=
  match bk with Scalar => int4_of_int bk 0 | _ => mm_setzero end.
Definition int4_One (bk : backend) : int4 := int4_of_int bk 1.
Definition int4_NegOne (bk : backend) : int4 :=
  match bk with
  | Scalar => int4_of_int bk (-1)
  | _ => mm_cmpeq_epi8_self mm_setzero
  end.

(** [int int4::operator[] (int i) const] *)
Definition int4_get (v : int4) (i : lane) : Z := sint (get v i).

Definition int4_add (bk : backend) (a b : int4) : int4 :=
  match bk with
  | Scalar => SIMD_int (fun i => int4_get a i + int4_get b i)
  | _ => mm_add_epi32 a b
  end.

Definition int4_sub (bk : backend) (a b : int4) : int4 :=
  match bk with
  | Scalar => SIMD_int (fun i => int4_get a i - int4_get b i)
  | _ => mm_sub_epi32 a b
  end.

Definition int4_and (bk : backend) (a b : int4) : int4 :=
  match bk with
  | Scalar => SIMD_int (fun i => Z.land (int4_get a i) (int4_get b i))
  | _ => mm_and a b
  end.

Definition int4_or (bk : backend) (a b : int4) : int4 :=
  match bk with
  | Scalar => SIMD_int (fun i => Z.lor (int4_get a i) (int4_get b i))
  | _ => mm_or a b
  end.

Definition int4_xor (bk : backend) (a b : int4) : int4 :=
  match bk with
  | Scalar => SIMD_int (fun i => Z.lxor (int4_get a i) (int4_get b i))
  | _ => mm_xor a b
  end.

(** [int4::operator<< (unsigned bits)] *)
Definition int4_shl (bk : backend) (a : int4) (bits : Z) : int4 :=
  match bk with
  | Scalar => SIMD_int (fun i => Z.shiftl (int4_get a i) bits)
  | _ => mm_slli_epi32 a bits
  end.

(** [int4::operator>> (unsigned bits)], the arithmetic shift. *)
Definition int4_shr (bk : backend) (a : int4) (bits : Z) : int4 :=
  match bk with
  | Scalar => SIMD_int (fun i => Z.shiftr (int4_get a i) bits)
  | _ => mm_srai_epi32 a bits
  end.

(** [srl (const int4&, unsigned bits)], the logical shift. *)
Definition int4_srl (bk : backend) (a : int4) (bits : Z) : int4 :=
  match bk with
  | Scalar => SIMD_int (fun i => Z.shiftr (get a i) bits)
  | _ => mm_srli_epi32 a bits
  end.

(** The comparisons of [int4], each yielding a [mask4]. *)
Definition int4_eq (bk : backend) (a b : int4) : mask4 :=
  match bk with
  | Scalar => SIMD_int (fun i => neg1_or_0 (int4_get a i =? int4_get b i))
  | _ => mm_cmpeq_epi32 a b
  end.
Definition int4_ne (bk : backend) (a b : int4) : mask4 :=
  mask4_not bk (int4_eq bk a b).
Definition int4_lt (bk : backend) (a b : int4) : mask4 :=
  match bk with
  | Scalar => SIMD_int (fun i => neg1_or_0 (int4_get a i <? int4_get b i))
  | _ => mm_cmplt_epi32 a b
  end.
Definition int4_gt (bk : backend) (a b : int4) : mask4 :=
  match bk with
  | Scalar => SIMD_int (fun i => neg1_or_0 (int4_get b i <? int4_get a i))
  | _ => mm_cmpgt_epi32 a b
  end.
Definition int4_ge (bk : backend) (a b : int4) : mask4 :=
  mask4_not bk (int4_lt bk a b).
Definition int4_le (bk : backend) (a b : int4) : mask4 :=
  mask4_not bk (int4_gt bk a b).

(** [mask4::mask4 (const int4& ival)] *)
Definition mask4_of_int4 (bk : backend) (ival : int4) : mask4 :=
  match bk with
  | Scalar => SIMD_int (fun i => neg1_or_0 (negb (int4_get ival i =? 0)))
  | _ => int4_ne bk ival (int4_Zero bk)
  end.

Definition int4_shuffle (bk : backend) (i0 i1 i2 i3 : lane) (a : int4) : int4 :=
  match bk with
  | Scalar => int4_of_ints bk (int4_get a i0) (int4_get a i1)
                           (int4_get a i2) (int4_get a i3)
  | _ => shuffle_sse i0 i1 i2 i3 a
  end.

Definition int4_extract (bk : backend) (i : lane) (v : int4) : Z :=
  match bk with
  | SSE4 => sint (mm_extract_epi32 v i)
  | _ => int4_get v i
  end.

Definition int4_insert (bk : backend) (i : lane) (a : int4) (val : Z) : int4 :=
  match bk with
  | SSE4 => mm_insert_epi32 a val i
  | _ => put a i (wrap val)
  end.

(** [blend (const int4& a, const int4& b, const mask4& mask)] *)
Definition int4_blend (bk : backend) (a b : int4) (mask : mask4) : int4 :=
  match bk with
  | SSE4 => mm_blendv_epi8 a b mask
  | SSE2 | SSE3 => mm_or (mm_and mask b) (mm_andnot mask a)
  | Scalar => SIMD_int (fun i => if mask4_get bk mask i
                                 then int4_get b i else int4_get a i)
  end.

(** [select (const mask4& mask, const int4& a, const int4& b)] *)
Definition int4_select (bk : backend) (mask : mask4) (a b : int4) : int4 :=
  int4_blend bk b a mask.

(** [bitcast_to_int4 (const mask4&)], [bitcast_to_int4 (const float4&)]
    and [bitcast_to_float4 (const int4&)]: the same bits. *)
Definition bitcast_to_int4 (x : vec4) : int4 := x.
Definition bitcast_to_float4 (x : int4) : float4 := x.

(** [int4::store (unsigned short *values)], as the four values written. *)
Definition int4_store_ushort (bk : backend) (v : int4) : vec4 :=
  match bk with
  | Scalar => build4 (fun i => int4_get v i mod 2 ^ 16)
  | _ =>
      let clamped := int4_and bk (int4_of_array bk v) (int4_of_int bk 0xffff) in
      let low := mm_shufflelo_epi16 clamped 0 2 1 1 in
      let high := mm_shufflehi_epi16 clamped 1 1 0 2 in
      let highswapped := shuffle_sse L2 L3 L0 L1 high in
      let result := int4_or bk low highswapped in
      (* _mm_storel_pd: the low 64 bits, four half-words *)
      mk4 (half result 0) (half result 1) (half result 2) (half result 3)
  end.

(** [int4::store (unsigned char *values)], as the four values written. *)
Definition int4_store_uchar (bk : backend) (v : int4) : vec4 :=
  match bk with
  | Scalar => build4 (fun i => int4_get v i mod 2 ^ 8)
  | _ =>
      let clamped := int4_and bk (int4_of_array bk v) (int4_of_int bk 0xff) in
      let swapped := shuffle_sse L1 L0 L3 L2 clamped in
      let shifted := int4_shl bk swapped 8 in
      let merged := int4_or bk clamped shifted in
      let merged2 := shuffle_sse L2 L2 L2 L2 merged in
      let shifted2 := int4_shl bk merged2 16 in
      let result := int4_or bk merged shifted2 in
      (* lane 0 of result written as one int: its four bytes *)
      build4 (fun j => byte_of (get result L0) (lane_index j))
  end.

(** ** float4 *)

(** [float4::load (float val)] and the constructor [float4 (float)]. *)
Definition float4_load1 (bk : backend) (val : Z) : float4 :=
  match bk with
  | Scalar => SIMD_float (fun _ => val)
  | _ => mm_set1_ps val
  end.
Definition float4_of_float (bk : backend) (a : Z) : float4 := float4_load1 bk a.

(** [float4::load (float a, float b, float c, float d = 0.0f)] *)
Definition float4_load4 (bk : backend) (a b c d : Z) : float4 :=
  match bk with
  | Scalar => mk4 a b c d
  | _ => mm_set_ps d c b a
  end.
Definition float4_of_floats (bk : backend) (a b c d : Z) : float4 :=
  float4_load4 bk a b c d.

Definition float4_Zero (bk : backend) : float4 :=
  match bk with Scalar => float4_of_float bk fzero | _ => mm_setzero end.
Definition float4_One (bk : backend) : float4 := float4_of_float bk fone.

(** [float float4::operator[] (int i) const] *)
Definition float4_get (v : float4) (i : lane) : Z := get v i.

Definition float4_add (bk : backend) (a b : float4) : float4 :=
  match bk with
  | Scalar => SIMD_float (fun i => fadd (float4_get a i) (float4_get b i))
  | _ => mm_add_ps a b
  end.
Definition float4_sub (bk : backend) (a b : float4) : float4 :=
  match bk with
  | Scalar => SIMD_float (fun i => fsub (float4_get a i) (float4_get b i))
  | _ => mm_sub_ps a b
  end.
Definition float4_mul (bk : backend) (a b : float4) : float4 :=
  match bk with
  | Scalar => SIMD_float (fun i => fmul (float4_get a i) (float4_get b i))
  | _ => mm_mul_ps a b
  end.
Definition float4_div (bk : backend) (a b : float4) : float4 :=
  match bk with
  | Scalar => SIMD_float (fun i => fdiv (float4_get a i) (float4_get b i))
  | _ => mm_div_ps a b
  end.

(** The comparisons of [float4], each yielding a [mask4]. *)
Definition float4_cmp (bk : backend) (c : Z -> Z -> bool) (a b : float4) : mask4 :=
  match bk with
  | Scalar => SIMD_int (fun i => neg1_or_0 (c (float4_get a i) (float4_get b i)))
  | _ => mm_cmp_ps c a b
  end.
Definition float4_eq (bk : backend) := float4_cmp bk feq.
Definition float4_ne (bk : backend) := float4_cmp bk fne.
Definition float4_lt (bk : backend) := float4_cmp bk flt.
Definition float4_gt (bk : backend) := float4_cmp bk fgt.
Definition float4_ge (bk : backend) := float4_cmp bk fge.
Definition float4_le (bk : backend) := float4_cmp bk fle.

(** [shuffle<i0,i1,i2,i3> (const float4&)] and [shuffle<i>]. *)
Definition float4_shuffle (bk : backend) (i0 i1 i2 i3 : lane) (a : float4) : float4 :=
  match bk with
  | Scalar => float4_of_floats bk (float4_get a i0) (float4_get a i1)
                               (float4_get a i2) (float4_get a i3)
  | _ => shuffle_sse i0 i1 i2 i3 a
  end.
Definition float4_shuffle1 (bk : backend) (i : lane) (a : float4) : float4 :=
  float4_shuffle bk i i i i a.

(** [extract<i> (const float4&)], with its SSE specialisation for lane 0. *)
Definition float4_extract (bk : backend) (i : lane) (a : float4) : Z :=
  match bk, i with
  | Scalar, _ => float4_get a i
  | _, L0 => mm_cvtss_f32 a
  | _, _ => mm_cvtss_f32 (shuffle_sse i i i i a)
  end.

(** [insert<i> (const float4&, float val)], with its SSE specialisation
    for lane 0. *)
Definition float4_insert (bk : backend) (i : lane) (a : float4) (val : Z) : float4 :=
  match bk, i with
  | Scalar, _ => put a i val
  | _, L0 => mm_move_ss a (mm_set_ss val)
  | SSE4, _ => mm_insert_ps a (mm_set_ss val) i
  | _, _ => put a i val
  end.

Definition xyz0 (bk : backend) (a : float4) : float4 := float4_insert bk L3 a fzero.
Definition xyz1 (bk : backend) (a : float4) : float4 := float4_insert bk L3 a fone.

(** ** float3: the constructors

    A [float3] is a [float4] whose fourth lane is padding. *)

(** [float3::float3 (const float4 &other)] *)
Definition float3_of_float4 (bk : backend) (other : float4) : float3 :=
  match bk with
  | Scalar =>
      (* SIMD_CONSTRUCT_PAD over 3 elements, then m_val[3] = 0.0f *)
      let padded := mk4 (float4_get other L0) (float4_get other L1)
                        (float4_get other L2) fzero in
      put padded L3 fzero
  | _ => other
  end.

(** [float3 (float a, float b, float c)], through [float4::load (a,b,c)]
    and its default [d = 0.0f]. *)
Definition float3_of_floats (bk : backend) (a b c : Z) : float3 :=
  float4_load4 bk a b c fzero.

(** [float3::load (float val)] and the constructor [float3 (float a)]. *)
Definition float3_load1 (bk : backend) (val : Z) : float3 :=
  float4_load4 bk val val val fzero.
Definition float3_of_float (bk : backend) (a : Z) : float3 := float3_load1 bk a.

Definition float3_Zero (bk : backend) : float3 := float3_of_float4 bk (float4_Zero bk).

(** ** float4: reductions, selection, division, rounding *)

(** [vreduce_add (const float4&)] *)
Definition float4_vreduce_add (bk : backend) (v : float4) : float4 :=
  match bk with
  | SSE3 | SSE4 =>
      let ab_cd := mm_hadd_ps v v in
      let abcd := mm_hadd_ps ab_cd ab_cd in
      abcd
  | SSE2 =>
      let ab_ab_cd_cd := float4_add bk (float4_shuffle bk L1 L0 L3 L2 v) v in
      let cd_cd_ab_ab := float4_shuffle bk L2 L3 L0 L1 ab_ab_cd_cd in
      float4_add bk ab_ab_cd_cd cd_cd_ab_ab
  | Scalar =>
      float4_of_float bk
        (fadd (fadd (fadd (float4_get v L0) (float4_get v L1))
                    (float4_get v L2)) (float4_get v L3))
  end.

(** [reduce_add (const float4&)] *)
Definition float4_reduce_add (bk : backend) (v : float4) : Z :=
  match bk with
  | Scalar => fadd (fadd (fadd (float4_get v L0) (float4_get v L1))
                         (float4_get v L2)) (float4_get v L3)
  | _ => mm_cvtss_f32 (float4_vreduce_add bk v)
  end.

(** [vdot3 (const float4&, const float4&)] *)
Definition float4_vdot3 (bk : backend) (a b : float4) : float4 :=
  match bk with
  | SSE4 => mm_dp_ps a b 0x7 0xf
  | _ => float4_vreduce_add bk (xyz0 bk (float4_mul bk a b))
  end.

(** [blend (const float4& a, const float4& b, const mask4& mask)] *)
Definition float4_blend (bk : backend) (a b : float4) (mask : mask4) : float4 :=
  match bk with
  | SSE4 => mm_blendv_ps a b mask
  | SSE2 | SSE3 => mm_or (mm_and mask b) (mm_andnot mask a)
  | Scalar =>
      float4_of_floats bk
        (if mask4_get bk mask L0 then float4_get b L0 else float4_get a L0)
        (if mask4_get bk mask L1 then float4_get b L1 else float4_get a L1)
        (if mask4_get bk mask L2 then float4_get b L2 else float4_get a L2)
        (if mask4_get bk mask L3 then float4_get b L3 else float4_get a L3)
  end.

(** [blend0 (const float4& a, const mask4& mask)] *)
Definition float4_blend0 (bk : backend) (a : float4) (mask : mask4) : float4 :=
  match bk with
  | Scalar =>
      float4_of_floats bk
        (if mask4_get bk mask L0 then float4_get a L0 else fzero)
        (if mask4_get bk mask L1 then float4_get a L1 else fzero)
        (if mask4_get bk mask L2 then float4_get a L2 else fzero)
        (if mask4_get bk mask L3 then float4_get a L3 else fzero)
  | _ => mm_and mask a
  end.

(** [blend0not (const float4& a, const mask4& mask)] *)
Definition float4_blend0not (bk : backend) (a : float4) (mask : mask4) : float4 :=
  match bk with
  | Scalar =>
      float4_of_floats bk
        (if mask4_get bk mask L0 then fzero else float4_get a L0)
        (if mask4_get bk mask L1 then fzero else float4_get a L1)
        (if mask4_get bk mask L2 then fzero else float4_get a L2)
        (if mask4_get bk mask L3 then fzero else float4_get a L3)
  | _ => mm_andnot mask a
  end.

(** [safe_div (const float4 &a, const float4 &b)] *)
Definition safe_div (bk : backend) (a b : float4) : float4 :=
  match bk with
  | Scalar =>
      float4_of_floats bk
        (if feq (float4_get b L0) fzero then fzero
         else fdiv (float4_get a L0) (float4_get b L0))
        (if feq (float4_get b L1) fzero then fzero
         else fdiv (float4_get a L1) (float4_get b L1))
        (if feq (float4_get b L2) fzero then fzero
         else fdiv (float4_get a L2) (float4_get b L2))
        (if feq (float4_get b L3) fzero then fzero
         else fdiv (float4_get a L3) (float4_get b L3))
  | _ => float4_blend0not bk (float4_div bk a b) (float4_eq bk b (float4_Zero bk))
  end.

(** [hdiv (const float4 &a)] *)
Definition hdiv (bk : backend) (a : float4) : float3 :=
  match bk with
  | Scalar =>
      let d := float4_get a L3 in
      if feq d fzero then float3_of_float bk fzero
      else float3_of_floats bk (fdiv (float4_get a L0) d)
                               (fdiv (float4_get a L1) d)
                               (fdiv (float4_get a L2) d)
  | _ => float3_of_float4 bk (xyz0 bk (safe_div bk a (float4_shuffle1 bk L3 a)))
  end.

(** [select (const mask4& mask, const float4& a, const float4& b)] *)
Definition float4_select (bk : backend) (mask : mask4) (a b : float4) : float4 :=
  float4_blend bk b a mask.

(** [floor (const float4&)] *)
Definition float4_floor (bk : backend) (a : float4) : float4 :=
  match bk with
  | SSE4 => mm_floor_ps a
  | _ => float4_of_floats bk
           (fround_int RFloor (float4_get a L0)) (fround_int RFloor (float4_get a L1))
           (fround_int RFloor (float4_get a L2)) (fround_int RFloor (float4_get a L3))
  end.

(** [round (const float4&)] *)
Definition float4_round (bk : backend) (a : float4) : float4 :=
  match bk with
  | SSE4 => mm_round_ps_nearest a
  | _ => float4_of_floats bk
           (fround_int RNearestAway (float4_get a L0))
           (fround_int RNearestAway (float4_get a L1))
           (fround_int RNearestAway (float4_get a L2))
           (fround_int RNearestAway (float4_get a L3))
  end.

(** [int4::int4 (const float4& f)], the truncating conversion. *)
Definition int4_of_float4 (bk : backend) (f : float4) : int4 :=
  match bk with
  | Scalar => build4 (fun i => f2i_trunc (float4_get f i))
  | _ => mm_cvttps_epi32 f
  end.

(** [floori (const float4&)] *)
Definition floori (bk : backend) (a : float4) : int4 :=
  match bk with
  | SSE4 => int4_of_float4 bk (float4_floor bk a)
  | SSE2 | SSE3 =>
      let i := int4_of_float4 bk a in
      let isneg := bitcast_to_int4 (float4_lt bk a (float4_Zero bk)) in
      int4_add bk i isneg
  | Scalar =>
      int4_of_ints bk
        (sint (f2i_trunc (fround_int RFloor (float4_get a L0))))
        (sint (f2i_trunc (fround_int RFloor (float4_get a L1))))
        (sint (f2i_trunc (fround_int RFloor (float4_get a L2))))
        (sint (f2i_trunc (fround_int RFloor (float4_get a L3))))
  end.

(** [rint (const float4&)] *)
Definition rint (bk : backend) (a : float4) : int4 :=
  int4_of_float4 bk (float4_round bk a).

(** [sqrt (const float4&)] *)
Definition float4_sqrt (bk : backend) (a : float4) : float4 :=
  match bk with
  | Scalar => float4_of_floats bk (fsqrt (float4_get a L0)) (fsqrt (float4_get a L1))
                               (fsqrt (float4_get a L2)) (fsqrt (float4_get a L3))
  | _ => mm_sqrt_ps a
  end.

(** [rsqrt_fast (const float4&)].  [_mm_rsqrt_ps] is a hardware
    approximation whose bits differ between processors; it is taken as
    the parameter [rsqrt_ps], a function on one lane. *)
Definition rsqrt_fast (rsqrt_ps : Z -> Z) (bk : backend) (a : float4) : float4 :=
  match bk with
  | Scalar =>
      float4_of_floats bk
        (fdiv fone (fsqrt (float4_get a L0))) (fdiv fone (fsqrt (float4_get a L1)))
        (fdiv fone (fsqrt (float4_get a L2))) (fdiv fone (fsqrt (float4_get a L3)))
  | _ => map4 rsqrt_ps a
  end.

(** ** float3: arithmetic and normalization *)

(** [operator* (const float3&, const float3&)] *)
Definition float3_mul (bk : backend) (a b : float3) : float3 :=
  float3_of_float4 bk (float4_mul bk a b).

(** [operator/ (const float3&, const float3&)] *)
Definition float3_div (bk : backend) (a b : float3) : float3 :=
  float3_of_float4 bk (float4_div bk a (xyz1 bk b)).

(** [vdot3 (const float3&, const float3&)] *)
Definition float3_vdot3 (bk : backend) (a b : float3) : float3 :=
  match bk with
  | SSE4 => mm_dp_ps a b 0x7 0x7
  | _ => float3_of_float4 bk
           (xyz0 bk (float4_vreduce_add bk (xyz0 bk (float3_mul bk a b))))
  end.

(** [dot (const float3&, const float3&)] *)
Definition float3_dot (bk : backend) (a b : float3) : Z :=
  match bk with
  | SSE4 => mm_cvtss_f32 (mm_dp_ps a b 0x7 0x7)
  | _ => float4_reduce_add bk (float3_mul bk a b)
  end.

(** [float3::normalized () const] *)
Definition normalized (bk : backend) (this : float3) : float3 :=
  if OIIO_SIMD bk then
    let len2 := float3_vdot3 bk this this in
    float3_of_float4 bk (safe_div bk this (float4_sqrt bk len2))
  else
    let len2 := float3_dot bk this this in
    if fgt len2 fzero
    then float3_div bk this (float3_of_float bk (fsqrt len2))
    else float3_Zero bk.

(** [float3::normalized_fast () const] *)
Definition normalized_fast (rsqrt_ps : Z -> Z) (bk : backend) (this : float3) : float3 :=
  if OIIO_SIMD bk then
    let len2 := float3_vdot3 bk this this in
    let invlen := float4_blend0not bk (rsqrt_fast rsqrt_ps bk len2)
                                   (float4_eq bk len2 (float4_Zero bk)) in
    float3_of_float4 bk (float4_mul bk this invlen)
  else
    let len2 := float3_dot bk this this in
    if fgt len2 fzero
    then float3_div bk this (float3_of_float bk (fsqrt len2))
    else float3_Zero bk.

(** [normalized_as_specified] follows the words of the specification, not
    the source: on every build, the squared length is the 3-component dot
    product and the vector is divided by its square root with [safe_div].
    It is compared with [normalized] below. *)
Definition normalized_as_specified (bk : backend) (this : float3) : float3 :=
  let len2 := float3_vdot3 bk this this in
  float3_of_float4 bk (safe_div bk this (float4_sqrt bk len2)).

(** ** matrix44 *)

(** Four rows: [float4 m_row[4]] under SSE, the row-major [Imath::M44f]
    otherwise. *)
Record matrix44 := mkM44 { row0 : float4; row1 : float4; row2 : float4; row3 : float4 }.

(** [matrix44 (const float4& a, const float4& b, const float4& c,
    const float4& d)] *)
Definition matrix44_of_rows (bk : backend) (a b c d : float4) : matrix44 :=
  mkM44 a b c d.

(** The rows of the identity matrix of the external matrix type. *)
Definition identity_rows (bk : backend) : matrix44 :=
  matrix44_of_rows bk
    (float4_of_floats bk fone fzero fzero fzero)
    (float4_of_floats bk fzero fone fzero fzero)
    (float4_of_floats bk fzero fzero fone fzero)
    (float4_of_floats bk fzero fzero fzero fone).

(** Modelled from the spec: [Imath::M44f::multVecMatrix], the routine of
    the external matrix library that the scalar body of [transformp]
    calls.  It applies the matrix to the homogeneous point (src, 1) and
    divides the first three results by the fourth. *)
Definition multVecMatrix (M : matrix44) (src : float3) : float3 :=
  let col (j : lane) :=
    fadd (fadd (fadd (fmul (get src L0) (get (row0 M) j))
                     (fmul (get src L1) (get (row1 M) j)))
               (fmul (get src L2) (get (row2 M) j)))
         (get (row3 M) j) in
  let w := col L3 in
  mk4 (fdiv (col L0) w) (fdiv (col L1) w) (fdiv (col L2) w) fzero.

(** [matrix44::transformp (const float3 &V) const] *)
Definition transformp (bk : backend) (M : matrix44) (V : float3) : float3 :=
  match bk with
  | Scalar =>
      let R := multVecMatrix M V in
      (* float3 (const Imath::V3f&): load (R[0], R[1], R[2]) *)
      float3_of_floats bk (get R L0) (get R L1) (get R L2)
  | _ =>
      let R := float4_add bk
                 (float4_add bk
                    (float4_add bk
                       (float4_mul bk (float4_shuffle1 bk L0 V) (row0 M))
                       (float4_mul bk (float4_shuffle1 bk L1 V) (row1 M)))
                    (float4_mul bk (float4_shuffle1 bk L2 V) (row2 M)))
                 (row3 M) in
      let R := float4_div bk R (float4_shuffle1 bk L3 R) in
      float3_of_float4 bk (xyz0 bk R)
  end.

(** One column of the product of the row vector (x, y, z, 1) with a
    matrix whose entries in that column are [r0..r3], summed left to
    right as [transformp] does. *)
Definition point_col (x y z r0 r1 r2 r3 : Z) : Z :=
  fadd (fadd (fadd (fmul x r0) (fmul y r1)) (fmul z r2)) r3.

(** ** Masks a client can obtain

    [produced bk m]: the mask [m] is the result of the constructors from
    [bool] and [int4], of [load], [True], [False], [clear], assignment of
    a [bool], of a comparison of [int4] or [float4] values, or of a
    logical operator, mask comparison, [shuffle] or [insert] applied to
    masks obtained the same way.  Writing an element through
    [int& operator[]] and the constructor from a raw register are left
    out on purpose. *)
Inductive produced (bk : backend) : mask4 -> Prop :=
  | P_of_bool a : produced bk (mask4_of_bool bk a)
  | P_of_bools a b c d : produced bk (mask4_of_bools bk a b c d)
  | P_of_int4 i : produced bk (mask4_of_int4 bk i)
  | P_load1 a : produced bk (mask4_load1 bk a)
  | P_load4 a b c d : produced bk (mask4_load4 bk a b c d)
  | P_False : produced bk (mask4_False bk)
  | P_True : produced bk (mask4_True bk)
  | P_clear : produced bk (mask4_clear bk)
  | P_assign_bool a : produced bk (mask4_assign_bool bk a)
  | P_not m : produced bk m -> produced bk (mask4_not bk m)
  | P_compl m : produced bk m -> produced bk (mask4_compl bk m)
  | P_and m n : produced bk m -> produced bk n -> produced bk (mask4_and bk m n)
  | P_or m n : produced bk m -> produced bk n -> produced bk (mask4_or bk m n)
  | P_xor m n : produced bk m -> produced bk n -> produced bk (mask4_xor bk m n)
  | P_eq m n : produced bk m -> produced bk n -> produced bk (mask4_eq bk m n)
  | P_ne m n : produced bk m -> produced bk n -> produced bk (mask4_ne bk m n)
  | P_int4_eq a b : produced bk (int4_eq bk a b)
  | P_int4_ne a b : produced bk (int4_ne bk a b)
  | P_int4_lt a b : produced bk (int4_lt bk a b)
  | P_int4_gt a b : produced bk (int4_gt bk a b)
  | P_int4_ge a b : produced bk (int4_ge bk a b)
  | P_int4_le a b : produced bk (int4_le bk a b)
  | P_float4_eq a b : produced bk (float4_eq bk a b)
  | P_float4_ne a b : produced bk (float4_ne bk a b)
  | P_float4_lt a b : produced bk (float4_lt bk a b)
  | P_float4_gt a b : produced bk (float4_gt bk a b)
  | P_float4_ge a b : produced bk (float4_ge bk a b)
  | P_float4_le a b : produced bk (float4_le bk a b)
  | P_shuffle i0 i1 i2 i3 m :
      produced bk m -> produced bk (mask4_shuffle bk i0 i1 i2 i3 m)
  | P_shuffle1 i m : produced bk m -> produced bk (mask4_shuffle1 bk i m)
  | P_insert i m val : produced bk m -> produced bk (mask4_insert bk i m val).

(** ** int4: multiplication, negation, reductions, rotation *)

(** [_mm_mul_epu32 (a, b)]: the unsigned 64-bit products of lanes 0 and
    2, each product filling two lanes, low half first. *)
Definition mm_mul_epu32 (a b : vec4) : vec4 :=
  let p0 := x_ a * x_ b in
  let p2 := z_ a * z_ b in
  mk4 (p0 mod 2 ^ 32) ((p0 / 2 ^ 32) mod 2 ^ 32)
      (p2 mod 2 ^ 32) ((p2 / 2 ^ 32) mod 2 ^ 32).

(** [_mm_unpacklo_epi32] and [_mm_unpackhi_epi32] (the same lanes as
    [_mm_unpacklo_ps] and [_mm_unpackhi_ps]). *)
Definition mm_unpacklo (a b : vec4) : vec4 := mk4 (x_ a) (x_ b) (y_ a) (y_ b).
Definition mm_unpackhi (a b : vec4) : vec4 := mk4 (z_ a) (z_ b) (w_ a) (w_ b).

(** The header's [mm_mul_epi32]: [_mm_mullo_epi32] under SSE4.1, and
    before it two [_mm_mul_epu32] with the shuffles 0xB1 and 0xD8. *)
Definition mm_mul_epi32 (bk : backend) (a b : vec4) : vec4 :=
  match bk with
  | SSE4 => mm_mullo_epi32 a b
  | _ =>
      let t0 := mm_mul_epu32 a b in
      let t1 := mm_mul_epu32 (shuffle_sse L1 L0 L3 L2 a)
                             (shuffle_sse L1 L0 L3 L2 b) in
      let t0 := shuffle_sse L0 L2 L1 L3 t0 in
      let t1 := shuffle_sse L0 L2 L1 L3 t1 in
      mm_unpacklo t0 t1
  end.

(** [operator* (const int4&, const int4&)] *)
Definition int4_mul (bk : backend) (a b : int4) : int4 :=
  match bk with
  | Scalar => SIMD_int (fun i => int4_get a i * int4_get b i)
  | _ => mm_mul_epi32 bk a b
  end.

(** [int4::operator- () const] *)
Definition int4_neg (bk : backend) (a : int4) : int4 :=
  match bk with
  | Scalar => SIMD_int (fun i => - int4_get a i)
  | _ => mm_sub_epi32 mm_setzero a
  end.

(** [_mm_hadd_epi32 (a, b)] = (a0+a1, a2+a3, b0+b1, b2+b3). *)
Definition mm_hadd_epi32 (a b : vec4) : vec4 :=
  mk4 (wrap (x_ a + y_ a)) (wrap (z_ a + w_ a))
      (wrap (x_ b + y_ b)) (wrap (z_ b + w_ b)).

(** [vreduce_add (const int4&)] *)
Definition int4_vreduce_add (bk : backend) (v : int4) : int4 :=
  match bk with
  | SSE3 | SSE4 =>
      let ab_cd := mm_hadd_epi32 v v in
      let abcd := mm_hadd_epi32 ab_cd ab_cd in
      abcd
  | SSE2 =>
      let ab_ab_cd_cd := int4_add bk (int4_shuffle bk L1 L0 L3 L2 v) v in
      let cd_cd_ab_ab := int4_shuffle bk L2 L3 L0 L1 ab_ab_cd_cd in
      int4_add bk ab_ab_cd_cd cd_cd_ab_ab
  | Scalar =>
      int4_of_int bk (int4_get v L0 + int4_get v L1 + int4_get v L2 + int4_get v L3)
  end.

(** [reduce_add (const int4&)], as the [int] returned. *)
Definition int4_reduce_add (bk : backend) (v : int4) : Z :=
  match bk with
  | Scalar =>
      sint (wrap (int4_get v L0 + int4_get v L1 + int4_get v L2 + int4_get v L3))
  | _ => sint (x_ (int4_vreduce_add bk v))
  end.

(** [reduce_and (const int4&)] and [reduce_or (const int4&)]. *)
Definition int4_reduce_and (bk : backend) (v : int4) : Z :=
  match bk with
  | Scalar => Z.land (Z.land (Z.land (int4_get v L0) (int4_get v L1))
                             (int4_get v L2)) (int4_get v L3)
  | _ =>
      let x := int4_and bk (int4_shuffle bk L1 L0 L3 L2 v) v in
      Z.land (int4_extract bk L0 x) (int4_extract bk L2 x)
  end.

Definition int4_reduce_or (bk : backend) (v : int4) : Z :=
  match bk with
  | Scalar => Z.lor (Z.lor (Z.lor (int4_get v L0) (int4_get v L1))
                           (int4_get v L2)) (int4_get v L3)
  | _ =>
      let x := int4_or bk (int4_shuffle bk L1 L0 L3 L2 v) v in
      Z.lor (int4_extract bk L0 x) (int4_extract bk L2 x)
  end.

(** [rotl32 (const int4& x, const unsigned int k)] *)
Definition rotl32 (bk : backend) (x : int4) (k : Z) : int4 :=
  int4_or bk (int4_shl bk x k) (int4_srl bk x (32 - k)).

(** [andnot (const int4& a, const int4& b)] *)
Definition int4_andnot (bk : backend) (a b : int4) : int4 :=
  match bk with
  | Scalar => SIMD_int (fun i => Z.land (Z.lnot (int4_get a i)) (int4_get b i))
  | _ => mm_andnot a b
  end.

(** ** int4: loads from 16-bit and 8-bit integers

    The four values in memory are given as their bit patterns: 16-bit
    patterns in [0, 2^16) for [unsigned short] and [short], 8-bit patterns
    in [0, 2^8) for [unsigned char] and [char]; [char] is signed, as on the
    x86 targets of the SSE code. *)

(** The value of an [n]-bit pattern read as a signed integer. *)
Definition sext (n : Z) (w : Z) : Z := if w <? 2 ^ (n - 1) then w else w - 2 ^ n.

(** [_mm_load_sd] on four 16-bit values: 64 bits into the low half of the
    register, the high half zero. *)
Definition mm_load_sd_16 (values : vec4) : vec4 :=
  mk4 (join16 (x_ values) (y_ values)) (join16 (z_ values) (w_ values)) 0 0.

(** [_mm_load_ss] on four 8-bit values: 32 bits into lane 0, the other
    lanes zero. *)
Definition mm_load_ss_8 (values : vec4) : vec4 :=
  mk4 (x_ values + y_ values * 2 ^ 8 + z_ values * 2 ^ 16 + w_ values * 2 ^ 24)
      0 0 0.

(** [_mm_cvtepu16_epi32], [_mm_cvtepi16_epi32], [_mm_cvtepu8_epi32] and
    [_mm_cvtepi8_epi32]: the four low half-words (bytes) of the register,
    zero- or sign-extended to 32 bits. *)
Definition mm_cvtepu16_epi32 (a : vec4) : vec4 :=
  mk4 (half a 0) (half a 1) (half a 2) (half a 3).
Definition mm_cvtepi16_epi32 (a : vec4) : vec4 :=
  mk4 (wrap (sext 16 (half a 0))) (wrap (sext 16 (half a 1)))
      (wrap (sext 16 (half a 2))) (wrap (sext 16 (half a 3))).
Definition mm_cvtepu8_epi32 (a : vec4) : vec4 :=
  build4 (fun j => byte_of (x_ a) (lane_index j)).
Definition mm_cvtepi8_epi32 (a : vec4) : vec4 :=
  build4 (fun j => wrap (sext 8 (byte_of (x_ a) (lane_index j)))).

(** [int4::load (const unsigned short *values)] *)
Definition int4_load_ushort (bk : backend) (values : vec4) : int4 :=
  match bk with
  | SSE4 => mm_cvtepu16_epi32 (mm_load_sd_16 values)
  | _ => SIMD_int (fun i => get values i)
  end.

(** [int4::load (const short *values)] *)
Definition int4_load_short (bk : backend) (values : vec4) : int4 :=
  match bk with
  | SSE4 => mm_cvtepi16_epi32 (mm_load_sd_16 values)
  | _ => SIMD_int (fun i => sext 16 (get values i))
  end.

(** [int4::load (const unsigned char *values)] *)
Definition int4_load_uchar (bk : backend) (values : vec4) : int4 :=
  match bk with
  | SSE4 => mm_cvtepu8_epi32 (mm_load_ss_8 values)
  | _ => SIMD_int (fun i => get values i)
  end.

(** [int4::load (const char *values)] *)
Definition int4_load_char (bk : backend) (values : vec4) : int4 :=
  match bk with
  | SSE4 => mm_cvtepi8_epi32 (mm_load_ss_8 values)
  | _ => SIMD_int (fun i => sext 8 (get values i))
  end.

(** Every element of the array is an [n]-bit pattern. *)
Definition narrow4 (n : Z) (values : vec4) : Prop :=
  forall k, 0 <= get values k < 2 ^ n.

(** ** Conversions between int4 and float4 *)

(** The C conversion [float (n)] of an [int] and the lanes of
    [_mm_cvtepi32_ps]: the nearest binary32 value, ties to even; zero
    becomes [+0.0f]. *)
Definition i2f (n : Z) : Z := f2b (binary_normalize prec emax n 0 false).

Definition mm_cvtepi32_ps (a : vec4) : vec4 := map4 (fun w => i2f (sint w)) a.

(** [float4::float4 (const int4& ival)] *)
Definition float4_of_int4 (bk : backend) (ival : int4) : float4 :=
  match bk with
  | Scalar => SIMD_float (fun i => i2f (int4_get ival i))
  | _ => mm_cvtepi32_ps ival
  end.

(** [float4::load (const unsigned short *values)], [load (const short* )],
    [load (const unsigned char* )] and [load (const char* )]: under SSE
    through the [int4] constructor from the same array. *)
Definition float4_load_ushort (bk : backend) (values : vec4) : float4 :=
  match bk with
  | Scalar => SIMD_float (fun i => i2f (get values i))
  | _ => mm_cvtepi32_ps (int4_load_ushort bk values)
  end.

Definition float4_load_short (bk : backend) (values : vec4) : float4 :=
  match bk with
  | Scalar => SIMD_float (fun i => i2f (sext 16 (get values i)))
  | _ => mm_cvtepi32_ps (int4_load_short bk values)
  end.

Definition float4_load_uchar (bk : backend) (values : vec4) : float4 :=
  match bk with
  | Scalar => SIMD_float (fun i => i2f (get values i))
  | _ => mm_cvtepi32_ps (int4_load_uchar bk values)
  end.

Definition float4_load_char (bk : backend) (values : vec4) : float4 :=
  match bk with
  | Scalar => SIMD_float (fun i => i2f (sext 8 (get values i)))
  | _ => mm_cvtepi32_ps (int4_load_char bk values)
  end.

(** [blend0 (const int4& a, const mask4& mask)].  The scalar body is
    [mask[i] ? a[i] : 0.0f]: the conditional has type [float], so [a[i]]
    is converted to [float] and the result back to [int]. *)
Definition int4_blend0 (bk : backend) (a : int4) (mask : mask4) : int4 :=
  match bk with
  | Scalar =>
      SIMD_int (fun i =>
        sint (f2i_trunc (if mask4_get bk mask i then i2f (int4_get a i) else fzero)))
  | _ => mm_and mask a
  end.

(** [blend0not (const int4& a, const mask4& mask)], with the same
    conversions in its scalar body [mask[i] ? 0.0f : a[i]]. *)
Definition int4_blend0not (bk : backend) (a : int4) (mask : mask4) : int4 :=
  match bk with
  | Scalar =>
      SIMD_int (fun i =>
        sint (f2i_trunc (if mask4_get bk mask i then fzero else i2f (int4_get a i))))
  | _ => mm_andnot mask a
  end.

(** ** Transposition *)

(** Four registers, as the four reference arguments of [transpose]. *)
Record vec4x4 := mk4x4 { r0_ : vec4; r1_ : vec4; r2_ : vec4; r3_ : vec4 }.

Definition row (q : vec4x4) (i : lane) : vec4 :=
  match i with L0 => r0_ q | L1 => r1_ q | L2 => r2_ q | L3 => r3_ q end.

(** [_mm_movelh_ps (a, b)] = (a0, a1, b0, b1) and
    [_mm_movehl_ps (a, b)] = (b2, b3, a2, a3). *)
Definition mm_movelh_ps (a b : vec4) : vec4 := mk4 (x_ a) (y_ a) (x_ b) (y_ b).
Definition mm_movehl_ps (a b : vec4) : vec4 := mk4 (z_ b) (w_ b) (z_ a) (w_ a).

(** The macro [_MM_TRANSPOSE4_PS] of the intrinsics header, as the
    sequence of unpacks and moves it is documented to expand to. *)
Definition MM_TRANSPOSE4_PS (q : vec4x4) : vec4x4 :=
  let tmp0 := mm_unpacklo (r0_ q) (r1_ q) in
  let tmp2 := mm_unpacklo (r2_ q) (r3_ q) in
  let tmp1 := mm_unpackhi (r0_ q) (r1_ q) in
  let tmp3 := mm_unpackhi (r2_ q) (r3_ q) in
  mk4x4 (mm_movelh_ps tmp0 tmp2) (mm_movehl_ps tmp2 tmp0)
        (mm_movelh_ps tmp1 tmp3) (mm_movehl_ps tmp3 tmp1).

(** [transpose (float4 &a, float4 &b, float4 &c, float4 &d)], as the new
    values of the four arguments. *)
Definition float4_transpose (bk : backend) (q : vec4x4) : vec4x4 :=
  match bk with
  | Scalar =>
      let a := r0_ q in let b := r1_ q in let c := r2_ q in let d := r3_ q in
      let A := float4_of_floats bk (float4_get a L0) (float4_get b L0)
                                (float4_get c L0) (float4_get d L0) in
      let B := float4_of_floats bk (float4_get a L1) (float4_get b L1)
                                (float4_get c L1) (float4_get d L1) in
      let C := float4_of_floats bk (float4_get a L2) (float4_get b L2)
                                (float4_get c L2) (float4_get d L2) in
      let D := float4_of_floats bk (float4_get a L3) (float4_get b L3)
                                (float4_get c L3) (float4_get d L3) in
      mk4x4 A B C D
  | _ => MM_TRANSPOSE4_PS q
  end.

(** [transpose (const float4& a, const float4& b, const float4& c,
    const float4& d, float4 &r0, float4 &r1, float4 &r2, float4 &r3)], as
    the values written to [r0] .. [r3]. *)
Definition float4_transpose_to (bk : backend) (a b c d : float4) : vec4x4 :=
  match bk with
  | Scalar =>
      mk4x4 (float4_load4 bk (float4_get a L0) (float4_get b L0)
                          (float4_get c L0) (float4_get d L0))
            (float4_load4 bk (float4_get a L1) (float4_get b L1)
                          (float4_get c L1) (float4_get d L1))
            (float4_load4 bk (float4_get a L2) (float4_get b L2)
                          (float4_get c L2) (float4_get d L2))
            (float4_load4 bk (float4_get a L3) (float4_get b L3)
                          (float4_get c L3) (float4_get d L3))
  | _ =>
      let l02 := mm_unpacklo a c in
      let h02 := mm_unpackhi a c in
      let l13 := mm_unpacklo b d in
      let h13 := mm_unpackhi b d in
      mk4x4 (mm_unpacklo l02 l13) (mm_unpackhi l02 l13)
            (mm_unpacklo h02 h13) (mm_unpackhi h02 h13)
  end.

(** [transpose (int4 &a, int4 &b, int4 &c, int4 &d)] *)
Definition int4_transpose (bk : backend) (q : vec4x4) : vec4x4 :=
  match bk with
  | Scalar =>
      let a := r0_ q in let b := r1_ q in let c := r2_ q in let d := r3_ q in
      let A := int4_of_ints bk (int4_get a L0) (int4_get b L0)
                            (int4_get c L0) (int4_get d L0) in
      let B := int4_of_ints bk (int4_get a L1) (int4_get b L1)
                            (int4_get c L1) (int4_get d L1) in
      let C := int4_of_ints bk (int4_get a L2) (int4_get b L2)
                            (int4_get c L2) (int4_get d L2) in
      let D := int4_of_ints bk (int4_get a L3) (int4_get b L3)
                            (int4_get c L3) (int4_get d L3) in
      mk4x4 A B C D
  | _ => MM_TRANSPOSE4_PS q
  end.

(** [transpose (const int4& a, const int4& b, const int4& c, const int4& d,
    int4 &r0, int4 &r1, int4 &r2, int4 &r3)] *)
Definition int4_transpose_to (bk : backend) (a b c d : int4) : vec4x4 :=
  match bk with
  | Scalar =>
      mk4x4 (int4_load4 bk (int4_get a L0) (int4_get b L0)
                        (int4_get c L0) (int4_get d L0))
            (int4_load4 bk (int4_get a L1) (int4_get b L1)
                        (int4_get c L1) (int4_get d L1))
            (int4_load4 bk (int4_get a L2) (int4_get b L2)
                        (int4_get c L2) (int4_get d L2))
            (int4_load4 bk (int4_get a L3) (int4_get b L3)
                        (int4_get c L3) (int4_get d L3))
  | _ => MM_TRANSPOSE4_PS (mk4x4 a b c d)
  end.

(** [AxBxCxDx] on [float4] and on [int4]. *)
Definition float4_AxBxCxDx (bk : backend) (a b c d : float4) : float4 :=
  match bk with
  | Scalar => float4_of_floats bk (float4_get a L0) (float4_get b L0)
                               (float4_get c L0) (float4_get d L0)
  | _ =>
      let l02 := mm_unpacklo a c in
      let l13 := mm_unpacklo b d in
      mm_unpacklo l02 l13
  end.

Definition int4_AxBxCxDx (bk : backend) (a b c d : int4) : int4 :=
  match bk with
  | Scalar => int4_of_ints bk (int4_get a L0) (int4_get b L0)
                           (int4_get c L0) (int4_get d L0)
  | _ =>
      let l02 := mm_unpacklo a c in
      let l13 := mm_unpacklo b d in
      mm_unpacklo l02 l13
  end.

(** Every lane of the four registers is a 32-bit word. *)
Definition wf4x4 (q : vec4x4) : Prop := forall i, wf4 (row q i).

(** ** Loads and stores of the first [n] elements

    An array of (up to) four elements in memory is a [vec4]; a store is
    given as the new contents of the array it writes to.  The bodies index
    [m_val] and [values] with [0 <= i < n], so they are modelled for
    [0 <= n <= 4]. *)

(** [_mm_load_ss] and [_mm_load_sd] on an array of 32-bit elements: one or
    two elements into the low lanes, the other lanes zero. *)
Definition mm_load_ss (values : vec4) : vec4 := mk4 (x_ values) 0 0 0.
Definition mm_load_sd (values : vec4) : vec4 := mk4 (x_ values) (y_ values) 0 0.
Definition mm_setr_ps (a b c d : Z) : vec4 := mk4 a b c d.

(** The two loops that close the scalar body of [float4::load (values, n)]
    and the body of [int4::load (values, n)] on every backend. *)
Definition put_loops (this : vec4) (conv : Z -> Z) (values : vec4) (n : Z) : vec4 :=
  build4 (fun i => if lane_index i <? n then conv (get values i)
                   else if n <=? lane_index i then 0 else get this i).

(** [float4::load (const float *values, int n)], as the new value of the
    object [this]. *)
Definition float4_load_n (bk : backend) (this : float4) (values : vec4) (n : Z)
  : float4 :=
  match bk with
  | Scalar => put_loops this (fun v => v) values n
  | _ =>
      match n with
      | 1 => mm_load_ss values
      | 2 => mm_load_sd values
      | 3 => mm_setr_ps (x_ values) (y_ values) (z_ values) fzero
      | 4 => values
      | _ => this
      end
  end.

(** [int4::load (const int *values, int n)]: the [switch] of the SSE
    body, and then, on every backend, the two loops. *)
Definition int4_load_n (bk : backend) (this : int4) (values : vec4) (n : Z) : int4 :=
  let this :=
    match bk with
    | Scalar => this
    | _ =>
        match n with
        | 1 => mm_load_ss values
        | 2 => mm_load_sd values
        | 3 => mm_movelh_ps (mm_load_sd values)
                            (mm_load_ss (mk4 (z_ values) (w_ values) 0 0))
        | 4 => values
        | _ => this
        end
    end in
  put_loops this (fun v => wrap (sint v)) values n.

(** [float4::store (float *values) const] and [int4::store (int *values)
    const]: all four elements. *)
Definition float4_store (bk : backend) (v : float4) : vec4 :=
  match bk with
  | Scalar => build4 (fun i => get v i)
  | _ => v
  end.

Definition int4_store (bk : backend) (v : int4) : vec4 :=
  match bk with
  | Scalar => build4 (fun i => get v i)
  | _ => v
  end.

(** [float4::store (float *values, int n) const] *)
Definition float4_store_n (bk : backend) (v : float4) (values : vec4) (n : Z) : vec4 :=
  match bk with
  | Scalar => build4 (fun i => if lane_index i <? n then get v i else get values i)
  | _ =>
      match n with
      | 1 => put values L0 (x_ v)
      | 2 => mk4 (x_ v) (y_ v) (z_ values) (w_ values)
      | 3 => put (put (put values L0 (get v L0)) L1 (get v L1)) L2 (get v L2)
      | 4 => float4_store bk v
      | _ => values
      end
  end.

(** [int4::store (int *values, int n) const]; its [#if defined(OIIO_SIMD)]
    holds on every backend, [OIIO_SIMD] being defined as 0 or 1. *)
Definition int4_store_n (bk : backend) (v : int4) (values : vec4) (n : Z) : vec4 :=
  if n =? 4 then int4_store bk v
  else build4 (fun i => if lane_index i <? n then get v i else get values i).

(** [float3::load (const float *values)], [float3::load (values, n)],
    [float3::store (float *values) const] and [float3::store (values, n)
    const]. *)
Definition float3_load_n (bk : backend) (this : float3) (values : vec4) (n : Z)
  : float3 := float4_load_n bk this values n.
Definition float3_load (bk : backend) (this : float3) (values : vec4) : float3 :=
  float4_load_n bk this values 3.
Definition float3_store_n (bk : backend) (v : float3) (values : vec4) (n : Z) : vec4 :=
  float4_store_n bk v values n.
Definition float3_store (bk : backend) (v : float3) (values : vec4) : vec4 :=
  float4_store_n bk v values 3.

(** [mask4::store (bool *values) const] and [mask4::store (bool *values,
    int n) const], the array of [bool] given as a function on lanes. *)
Definition mask4_store (m : mask4) : lane -> bool :=
  fun i => if negb (get m i =? 0) then true else false.
Definition mask4_store_n (m : mask4) (values : lane -> bool) (n : Z) : lane -> bool :=
  fun i => if lane_index i <? n
           then (if negb (get m i =? 0) then true else false)
           else values i.

(** ** float4 and float3: dot products *)

(** [vdot (const float4&, const float4&)] and [dot (const float4&,
    const float4&)]. *)
Definition float4_vdot (bk : backend) (a b : float4) : float4 :=
  match bk with
  | SSE4 => mm_dp_ps a b 0xf 0xf
  | _ => float4_vreduce_add bk (float4_mul bk a b)
  end.

Definition float4_dot (bk : backend) (a b : float4) : Z :=
  match bk with
  | SSE4 => mm_cvtss_f32 (mm_dp_ps a b 0xf 0xf)
  | _ => float4_reduce_add bk (float4_mul bk a b)
  end.

(** [dot3 (const float4&, const float4&)] *)
Definition float4_dot3 (bk : backend) (a b : float4) : Z :=
  match bk with
  | SSE4 => mm_cvtss_f32 (mm_dp_ps a b 0x7 0x7)
  | _ => float4_reduce_add bk (xyz0 bk (float4_mul bk a b))
  end.

(** ** float4: negation, absolute value, sign, minimum, maximum *)

(** The C expressions [-x] and [fabsf (x)] on a [float]: the sign bit
    flipped, and the sign bit cleared. *)
Definition fneg (a : Z) : Z := Z.lxor a 0x80000000.
Definition fabsf (a : Z) : Z := Z.land a 0x7fffffff.

(** [std::min (a, b)] is [(b < a) ? b : a] and [std::max (a, b)] is
    [(a < b) ? b : a]. *)
Definition std_min (a b : Z) : Z := if flt b a then b else a.
Definition std_max (a b : Z) : Z := if flt a b then b else a.

(** [_mm_min_ps] and [_mm_max_ps]: the first operand when it compares
    below (above) the second, the second operand otherwise, so also when
    an operand is a NaN or both are zeros. *)
Definition mm_min_ps (a b : vec4) : vec4 :=
  zip4 (fun p q => if flt p q then p else q) a b.
Definition mm_max_ps (a b : vec4) : vec4 :=
  zip4 (fun p q => if fgt p q then p else q) a b.

(** [float4::operator- () const] *)
Definition float4_neg (bk : backend) (a : float4) : float4 :=
  match bk with
  | Scalar => SIMD_float (fun i => fneg (float4_get a i))
  | _ => mm_sub_ps mm_setzero a
  end.

(** [abs (const float4&)] *)
Definition float4_abs (bk : backend) (a : float4) : float4 :=
  match bk with
  | Scalar => float4_of_floats bk (fabsf (float4_get a L0)) (fabsf (float4_get a L1))
                               (fabsf (float4_get a L2)) (fabsf (float4_get a L3))
  | _ => mm_and a (mm_set1_epi32 0x7fffffff)
  end.

(** [sign (const float4&)] *)
Definition float4_sign (bk : backend) (a : float4) : float4 :=
  let one := float4_of_float bk fone in
  float4_blend bk one (float4_neg bk one) (float4_lt bk a (float4_Zero bk)).

(** [min (const float4&, const float4&)] and [max]. *)
Definition float4_min (bk : backend) (a b : float4) : float4 :=
  match bk with
  | Scalar =>
      float4_of_floats bk
        (std_min (float4_get a L0) (float4_get b L0))
        (std_min (float4_get a L1) (float4_get b L1))
        (std_min (float4_get a L2) (float4_get b L2))
        (std_min (float4_get a L3) (float4_get b L3))
  | _ => mm_min_ps a b
  end.

Definition float4_max (bk : backend) (a b : float4) : float4 :=
  match bk with
  | Scalar =>
      float4_of_floats bk
        (std_max (float4_get a L0) (float4_get b L0))
        (std_max (float4_get a L1) (float4_get b L1))
        (std_max (float4_get a L2) (float4_get b L2))
        (std_max (float4_get a L3) (float4_get b L3))
  | _ => mm_max_ps a b
  end.

(** ** int4: complement, absolute value, minimum, maximum *)

(** [int4::operator~ ()] *)
Definition int4_not (bk : backend) (a : int4) : int4 :=
  match bk with
  | Scalar => SIMD_int (fun i => Z.lnot (int4_get a i))
  | _ => let all_one_bits := mm_cmpeq_epi8_self a in mm_xor a all_one_bits
  end.

(** [_mm_abs_epi32], [_mm_min_epi32] and [_mm_max_epi32], on the lanes as
    signed integers. *)
Definition mm_abs_epi32 (a : vec4) : vec4 := map4 (fun p => wrap (Z.abs (sint p))) a.
Definition mm_min_epi32 (a b : vec4) : vec4 :=
  zip4 (fun p q => wrap (Z.min (sint p) (sint q))) a b.
Definition mm_max_epi32 (a b : vec4) : vec4 :=
  zip4 (fun p q => wrap (Z.max (sint p) (sint q))) a b.

(** [std::min] and [std::max] on [int]. *)
Definition std_min_int (a b : Z) : Z := if b <? a then b else a.
Definition std_max_int (a b : Z) : Z := if a <? b then b else a.

(** [abs (const int4&)] *)
Definition int4_abs (bk : backend) (a : int4) : int4 :=
  match bk with
  | SSE3 | SSE4 => mm_abs_epi32 a
  | _ => int4_of_ints bk (Z.abs (int4_get a L0)) (Z.abs (int4_get a L1))
                      (Z.abs (int4_get a L2)) (Z.abs (int4_get a L3))
  end.

(** [min (const int4&, const int4&)] and [max]. *)
Definition int4_min (bk : backend) (a b : int4) : int4 :=
  match bk with
  | SSE4 => mm_min_epi32 a b
  | _ => SIMD_int (fun i => std_min_int (int4_get a i) (int4_get b i))
  end.

Definition int4_max (bk : backend) (a b : int4) : int4 :=
  match bk with
  | SSE4 => mm_max_epi32 a b
  | _ => SIMD_int (fun i => std_max_int (int4_get a i) (int4_get b i))
  end.

(** ** float3: the remaining arithmetic *)

(** [operator+ (const float3&, const float3&)], [operator-] and the unary
    [float3::operator- () const]. *)
Definition float3_add (bk : backend) (a b : float3) : float3 :=
  float3_of_float4 bk (float4_add bk a b).
Definition float3_sub (bk : backend) (a b : float3) : float3 :=
  float3_of_float4 bk (float4_sub bk a b).
Definition float3_neg (bk : backend) (a : float3) : float3 :=
  float3_of_float4 bk (float4_neg bk a).

(** [vreduce_add (const float3&)] *)
Definition float3_vreduce_add (bk : backend) (v : float3) : float3 :=
  match bk with
  | Scalar =>
      float3_of_float bk
        (fadd (fadd (float4_get v L0) (float4_get v L1)) (float4_get v L2))
  | _ => float3_of_float4 bk (xyz0 bk (float4_vreduce_add bk v))
  end.

(** [vdot (const float3&, const float3&)] *)
Definition float3_vdot (bk : backend) (a b : float3) : float3 :=
  match bk with
  | SSE4 => mm_dp_ps a b 0x7 0x7
  | _ => float3_vreduce_add bk (float3_mul bk a b)
  end.

(** ** matrix44: equality *)

(** [memcmp (this, &m, 16*sizeof(float)) == 0]: the sixteen elements have
    the same bits. *)
Definition vec4_eqb (u v : vec4) : bool :=
  (x_ u =? x_ v) && (y_ u =? y_ v) && (z_ u =? z_ v) && (w_ u =? w_ v).
Definition memcmp_eq (M N : matrix44) : bool :=
  vec4_eqb (row0 M) (row0 N) && vec4_eqb (row1 M) (row1 N)
  && vec4_eqb (row2 M) (row2 N) && vec4_eqb (row3 M) (row3 N).

(** [matrix44::operator== (const matrix44& m) const] *)
Definition matrix44_eq (bk : backend) (this m : matrix44) : bool :=
  match bk with
  | Scalar => memcmp_eq this m
  | _ =>
      let b0 := float4_eq bk (row0 this) (row0 m) in
      let b1 := float4_eq bk (row1 this) (row1 m) in
      let b2 := float4_eq bk (row2 this) (row2 m) in
      let b3 := float4_eq bk (row3 this) (row3 m) in
      all bk (mask4_and bk (mask4_and bk (mask4_and bk b0 b1) b2) b3)
  end.

(** [matrix44::operator!= (const matrix44& m) const] *)
Definition matrix44_ne (bk : backend) (this m : matrix44) : bool :=
  match bk with
  | Scalar => negb (memcmp_eq this m)
  | _ =>
      let b0 := float4_ne bk (row0 this) (row0 m) in
      let b1 := float4_ne bk (row1 this) (row1 m) in
      let b2 := float4_ne bk (row2 this) (row2 m) in
      let b3 := float4_ne bk (row3 this) (row3 m) in
      any bk (mask4_or bk (mask4_or bk (mask4_or bk b0 b1) b2) b3)
  end.

(** The comparison [c] holds in all four lanes. *)
Definition lanes_all (c : Z -> Z -> bool) (u v : vec4) : bool :=
  c (x_ u) (x_ v) && c (y_ u) (y_ v) && c (z_ u) (z_ v) && c (w_ u) (w_ v).

(** ** float4: load from half

    A [half] in memory is its 16-bit pattern. *)

(** The number a binary16 pattern stands for: 1 sign bit, 5 exponent
    bits, 10 fraction bits. *)
Definition h2f (w : Z) : spec_float :=
  let s := Z.testbit w 15 in
  let e := (w / 2 ^ 10) mod 2 ^ 5 in
  let m := w mod 2 ^ 10 in
  if e =? 0 then
    if m =? 0 then S754_zero s else S754_finite s (Z.to_pos m) (-24)
  else if e =? 31 then
    if m =? 0 then S754_infinity s else S754_nan
  else S754_finite s (Z.to_pos (m + 2 ^ 10)) (e - 25).

(** [x] and [y] are the same number: zeros and infinities of the same
    sign, two NaNs, or finite [(-1)^s * m * 2^e] of equal sign and
    magnitude. *)
Definition same_value (x y : spec_float) : bool :=
  match x, y with
  | S754_zero s, S754_zero s' => Bool.eqb s s'
  | S754_infinity s, S754_infinity s' => Bool.eqb s s'
  | S754_nan, S754_nan => true
  | S754_finite s m e, S754_finite s' m' e' =>
      Bool.eqb s s' && (Z.pos m * 2 ^ (e + 149) =? Z.pos m' * 2 ^ (e' + 149))
  | _, _ => false
  end.

(** [float4::load (const half *values)] in a build without F16C.  The
    scalar body converts through the [half] class of the external
    library, taken as the parameter [half_to_float]. *)
Definition float4_load_half (half_to_float : Z -> Z) (bk : backend) (values : vec4)
  : float4 :=
  match bk with
  | Scalar => SIMD_float (fun i => half_to_float (get values i))
  | _ =>
      let h := int4_load_ushort bk values in
      let mask_nosign := splat 0x7fff in
      let magic := splat (Z.shiftl (254 - 15) 23) in
      let was_infnan := splat 0x7bff in
      let exp_infnan := splat (Z.shiftl 255 23) in
      let mnosign := mask_nosign in
      let expmant := mm_and mnosign h in
      let justsign := mm_xor h expmant in
      let expmant2 := expmant in
      let shifted := mm_slli_epi32 expmant 13 in
      let scaled := mm_mul_ps shifted magic in
      let b_wasinfnan := mm_cmpgt_epi32 expmant2 was_infnan in
      let sign := mm_slli_epi32 justsign 16 in
      let infnanexp := mm_and b_wasinfnan exp_infnan in
      let sign_inf := mm_or sign infnanexp in
      let final := mm_or scaled sign_inf in
      final
  end.

(** One lane of the SSE body above. *)
Definition half_lane (h : Z) : Z :=
  let expmant := Z.land 0x7fff h in
  let justsign := Z.lxor h expmant in
  let shifted := wrap (Z.shiftl expmant 13) in
  let scaled := fmul shifted (Z.shiftl (254 - 15) 23) in
  let b_wasinfnan := bool_mask (sint 0x7bff <? sint expmant) in
  let sign := wrap (Z.shiftl justsign 16) in
  let infnanexp := Z.land b_wasinfnan (Z.shiftl 255 23) in
  let sign_inf := Z.lor sign infnanexp in
  Z.lor scaled sign_inf.

(** The product of a non-negative float below 2^16 with the constant
    2^112 of the body, in closed form: the exponent field raised by 112
    for a normal [x], the subnormal [x] normalised otherwise. *)
Definition magic_mul (x : Z) : Z :=
  if x =? 0 then 0
  else if x <? 2 ^ 23 then
    let d := Z.log2 x + 1 in
    (d + 89) * 2 ^ 23 + (x * 2 ^ (24 - d) - 2 ^ 23)
  else x + 112 * 2 ^ 23.

(** [half_lane] with the product in closed form. *)
Definition half_lane_fast (h : Z) : Z :=
  let expmant := Z.land 0x7fff h in
  let justsign := Z.lxor h expmant in
  let shifted := wrap (Z.shiftl expmant 13) in
  let scaled := magic_mul shifted in
  let b_wasinfnan := bool_mask (sint 0x7bff <? sint expmant) in
  let sign := wrap (Z.shiftl justsign 16) in
  let infnanexp := Z.land b_wasinfnan (Z.shiftl 255 23) in
  let sign_inf := Z.lor sign infnanexp in
  Z.lor scaled sign_inf.

Definition half_ok (h : Z) : bool := same_value (h2f h) (b2f (half_lane_fast h)).

(** [p] holds on the [n] integers from [start] on. *)
Fixpoint all_from (n : nat) (start : Z) (p : Z -> bool) : bool :=
  match n with
  | O => true
  | S k => p start && all_from k (start + 1) p
  end.

(* ================================================================== *)
(** * Part II: lemmas and theorems                                     *)
(* ================================================================== *)

(** ** Words *)

Lemma wrap_word (z : Z) : is_word (wrap z).
Proof. unfold is_word, wrap. apply Z.mod_pos_bound. reflexivity. Qed.

Lemma wrap_small (z : Z) : is_word z -> wrap z = z.
Proof. unfold is_word, wrap. intros H. apply Z.mod_small. exact H. Qed.

Lemma sint_wrap (w : Z) : is_word w -> wrap (sint w) = w.
Proof.
  unfold is_word, wrap, sint. intros H.
  destruct (w <? 2 ^ 31).
  - apply Z.mod_small. exact H.
  - replace (w - 2 ^ 32) with (w + (-1) * 2 ^ 32) by ring.
    rewrite Z.mod_add by discriminate. apply Z.mod_small. exact H.
Qed.

Lemma ones_is_Zones : ones = Z.ones 32.
Proof. reflexivity. Qed.

Lemma land_ones_l (a : Z) : is_word a -> Z.land ones a = a.
Proof.
  intros H. rewrite Z.land_comm, ones_is_Zones, Z.land_ones by lia.
  apply Z.mod_small. exact H.
Qed.

Lemma wnot_zero : wnot 0 = ones.
Proof. reflexivity. Qed.

Lemma wnot_ones : wnot ones = 0.
Proof. reflexivity. Qed.

Lemma canonical_lane_bool_mask (c : bool) : canonical_lane (bool_mask c).
Proof. destruct c; [right | left]; reflexivity. Qed.

Lemma canonical_lane_neg1_or_0 (c : bool) : canonical_lane (wrap (neg1_or_0 c)).
Proof. destruct c; [right | left]; reflexivity. Qed.

Lemma testbit31_word (w : Z) : is_word w -> Z.testbit w 31 = (2 ^ 31 <=? w).
Proof.
  unfold is_word. intros H.
  destruct (2 ^ 31 <=? w) eqn:E.
  - apply Z.leb_le in E. apply Z.testbit_true; [lia |].
    assert (w / 2 ^ 31 = 1) as ->; [| reflexivity].
    symmetry. apply (Z.div_unique w (2 ^ 31) 1 (w - 2 ^ 31)); lia.
  - apply Z.leb_gt in E. apply Z.testbit_false; [lia |].
    rewrite Z.div_small by lia. reflexivity.
Qed.

(** ** binary32: encoding *)

Lemma join_bits_word (s : bool) (e m : Z) : is_word (join_bits s e m).
Proof.
  unfold is_word, join_bits.
  pose proof (Z.mod_pos_bound e (2 ^ 8) eq_refl).
  pose proof (Z.mod_pos_bound m (2 ^ 23) eq_refl).
  destruct s; lia.
Qed.

Lemma f2b_word (x : spec_float) : is_word (f2b x).
Proof.
  destruct x as [s | s | | s m e]; cbn [f2b]; try apply join_bits_word.
  - unfold is_word, default_nan. lia.
  - destruct (Z.pos m <? 2 ^ 23); apply join_bits_word.
Qed.

Lemma fdiv_word (a b : Z) : is_word (fdiv a b).
Proof. apply f2b_word. Qed.

(** A word is its sign bit, exponent field and fraction field. *)
Lemma word_fields (w : Z) :
  is_word w ->
  (if Z.testbit w 31 then 2 ^ 31 else 0)
  + ((w / 2 ^ 23) mod 2 ^ 8) * 2 ^ 23 + w mod 2 ^ 23 = w.
Proof.
  intros H. rewrite (testbit31_word w H). unfold is_word in H.
  pose proof (Z.div_mod w (2 ^ 23) ltac:(discriminate)) as D.
  pose proof (Z.mod_pos_bound w (2 ^ 23) eq_refl) as B.
  pose proof (Z.div_mod (w / 2 ^ 23) (2 ^ 8) ltac:(discriminate)) as D'.
  pose proof (Z.mod_pos_bound (w / 2 ^ 23) (2 ^ 8) eq_refl) as B'.
  set (q := w / 2 ^ 23) in *. set (r := w mod 2 ^ 23) in *.
  set (q' := q / 2 ^ 8) in *. set (r' := q mod 2 ^ 8) in *.
  change (2 ^ 23) with 8388608 in *. change (2 ^ 8) with 256 in *.
  change (2 ^ 31) with 2147483648 in *. change (2 ^ 32) with 4294967296 in *.
  destruct (2147483648 <=? w) eqn:E;
    [apply Z.leb_le in E | apply Z.leb_gt in E]; lia.
Qed.

(** Encoding undoes decoding on every pattern that is not a NaN. *)
Lemma f2b_b2f (w : Z) : is_word w -> is_nan w = false -> f2b (b2f w) = w.
Proof.
  intros H N. pose proof (word_fields w H) as F.
  unfold is_nan in N. unfold b2f in *.
  pose proof (Z.mod_pos_bound w (2 ^ 23) eq_refl) as B.
  pose proof (Z.mod_pos_bound (w / 2 ^ 23) (2 ^ 8) eq_refl) as B'.
  set (s := Z.testbit w 31) in *.
  set (e := (w / 2 ^ 23) mod 2 ^ 8) in *. set (m := w mod 2 ^ 23) in *.
  destruct (e =? 0) eqn:E0; [apply Z.eqb_eq in E0 | apply Z.eqb_neq in E0].
  - destruct (m =? 0) eqn:M0; [apply Z.eqb_eq in M0 | apply Z.eqb_neq in M0].
    + cbn [f2b]. unfold join_bits. rewrite E0, M0 in F.
      change (0 mod 2 ^ 8) with 0. change (0 mod 2 ^ 23) with 0. lia.
    + cbn [f2b]. rewrite Z2Pos.id by lia.
      destruct (m <? 2 ^ 23) eqn:L; [| apply Z.ltb_ge in L; lia].
      unfold join_bits. rewrite (Z.mod_small m) by lia.
      rewrite E0 in F. change (0 mod 2 ^ 8) with 0. lia.
  - destruct (e =? 255) eqn:E1; [apply Z.eqb_eq in E1 | apply Z.eqb_neq in E1].
    + destruct (m =? 0) eqn:M0; [apply Z.eqb_eq in M0 | discriminate N].
      cbn [f2b]. unfold join_bits. rewrite E1, M0 in F.
      change (255 mod 2 ^ 8) with 255. change (0 mod 2 ^ 23) with 0. lia.
    + cbn [f2b]. rewrite Z2Pos.id by lia.
      destruct (m + 2 ^ 23 <? 2 ^ 23) eqn:L; [apply Z.ltb_lt in L; lia |].
      unfold join_bits.
      replace (e - 150 + 150) with e by ring.
      replace (m + 2 ^ 23 - 2 ^ 23) with m by ring.
      rewrite (Z.mod_small m) by lia. rewrite (Z.mod_small e) by lia. exact F.
Qed.

(** ** binary32: the decoded floats are canonical *)

Lemma digits2_pos_size (m : positive) : digits2_pos m = Pos.size m.
Proof. induction m; cbn [digits2_pos Pos.size]; congruence. Qed.

Lemma digits2_upper (m : positive) (k : Z) :
  0 <= k -> Z.pos m < 2 ^ k -> Z.pos (digits2_pos m) <= k.
Proof.
  intros Hk H. rewrite digits2_pos_size.
  pose proof (Pos.size_le m) as L.
  apply Pos2Z.pos_le_pos in L. rewrite Pos2Z.inj_pow in L.
  assert (2 ^ Z.pos (Pos.size m) < 2 ^ (k + 1)) as P.
  { rewrite Z.pow_add_r by lia. change (2 ^ 1) with 2. lia. }
  apply Z.pow_lt_mono_r_iff in P; lia.
Qed.

Lemma digits2_lower (m : positive) (k : Z) :
  0 <= k -> 2 ^ k <= Z.pos m -> k < Z.pos (digits2_pos m).
Proof.
  intros Hk H. rewrite digits2_pos_size.
  pose proof (Pos.size_gt m) as G.
  apply Pos2Z.pos_lt_pos in G. rewrite Pos2Z.inj_pow in G.
  assert (2 ^ k < 2 ^ Z.pos (Pos.size m)) as P by lia.
  apply Z.pow_lt_mono_r_iff in P; lia.
Qed.

Lemma fexp_eq (k : Z) : fexp prec emax k = Z.max (k - 24) (-149).
Proof. reflexivity. Qed.

(** Every finite float that [b2f] delivers satisfies [SpecFloat]'s
    validity predicate for binary32. *)
Lemma b2f_bounded (w : Z) (s : bool) (m : positive) (e : Z) :
  b2f w = S754_finite s m e -> bounded prec emax m e = true.
Proof.
  unfold b2f. change (2 ^ 23) with 8388608. change (2 ^ 8) with 256.
  pose proof (Z.mod_pos_bound w 8388608 eq_refl) as B.
  pose proof (Z.mod_pos_bound (w / 8388608) 256 eq_refl) as B'.
  set (E := (w / 8388608) mod 256) in *. set (M := w mod 8388608) in *.
  unfold bounded, canonical_mantissa.
  destruct (E =? 0) eqn:E0; [apply Z.eqb_eq in E0 | apply Z.eqb_neq in E0].
  - destruct (M =? 0) eqn:M0; [discriminate | apply Z.eqb_neq in M0].
    intros [= _ <- <-].
    assert (Z.pos (digits2_pos (Z.to_pos M)) <= 23) as D.
    { apply digits2_upper; [lia |]. rewrite Z2Pos.id; lia. }
    rewrite fexp_eq. apply andb_true_intro; split.
    + apply Z.eqb_eq. lia.
    + apply Z.leb_le. unfold emax, prec. lia.
  - destruct (E =? 255) eqn:E1; [apply Z.eqb_eq in E1 | apply Z.eqb_neq in E1].
    + destruct (M =? 0); discriminate.
    + intros [= _ <- <-].
      assert (Z.pos (digits2_pos (Z.to_pos (M + 8388608))) <= 24) as D.
      { apply digits2_upper; [lia |]. rewrite Z2Pos.id; lia. }
      assert (23 < Z.pos (digits2_pos (Z.to_pos (M + 8388608)))) as D'.
      { apply digits2_lower; [lia |]. rewrite Z2Pos.id; lia. }
      rewrite fexp_eq. apply andb_true_intro; split.
      * apply Z.eqb_eq. lia.
      * apply Z.leb_le. unfold emax, prec. lia.
Qed.

Lemma bounded_inv (m : positive) (e : Z) :
  bounded prec emax m e = true ->
  Z.max (Z.pos (digits2_pos m) + e - 24) (-149) = e /\ e <= 104.
Proof.
  unfold bounded, canonical_mantissa. rewrite fexp_eq.
  intros H. apply andb_prop in H. destruct H as [C L].
  apply Z.eqb_eq in C. apply Z.leb_le in L. unfold emax, prec in L. lia.
Qed.

(** ** binary32: rounding an already representable value *)

Lemma shr_fexp_fixed (M E : Z) (l : location) :
  fexp prec emax (Zdigits2 M + E) = E ->
  shr_fexp prec emax M E l = (shr_record_of_loc M l, E).
Proof.
  intros H. unfold shr_fexp. rewrite H, Z.sub_diag. reflexivity.
Qed.

Lemma binary_round_aux_bounded (s : bool) (m : positive) (e : Z) :
  bounded prec emax m e = true ->
  binary_round_aux prec emax s (Z.pos m) e loc_Exact = S754_finite s m e.
Proof.
  intros H. pose proof (bounded_inv m e H) as [C L].
  unfold binary_round_aux.
  rewrite shr_fexp_fixed by (rewrite fexp_eq; exact C).
  cbn [shr_record_of_loc shr_m loc_of_shr_record round_nearest_even].
  rewrite shr_fexp_fixed by (rewrite fexp_eq; exact C).
  cbn [shr_record_of_loc shr_m].
  replace (e <=? emax - prec) with true; [reflexivity |].
  symmetry. apply Z.leb_le. unfold emax, prec. lia.
Qed.

(** One extra low zero bit is shifted out again. *)
Lemma binary_round_aux_double (s : bool) (m : positive) (e : Z) :
  bounded prec emax m e = true ->
  binary_round_aux prec emax s (Z.pos m~0) (e - 1) loc_Exact = S754_finite s m e.
Proof.
  intros H. pose proof (bounded_inv m e H) as [C L].
  unfold binary_round_aux.
  assert (shr_fexp prec emax (Z.pos m~0) (e - 1) loc_Exact
          = ({| shr_m := Z.pos m; shr_r := false; shr_s := false |}, e)) as ->.
  { unfold shr_fexp. rewrite fexp_eq. cbn [Zdigits2 digits2_pos].
    replace (Z.max (Z.pos (Pos.succ (digits2_pos m)) + (e - 1) - 24) (-149) - (e - 1))
      with 1 by lia.
    cbn [shr_record_of_loc shr iter_pos shr_1 orb]. f_equal. ring. }
  cbn [shr_m loc_of_shr_record round_nearest_even].
  rewrite shr_fexp_fixed by (rewrite fexp_eq; exact C).
  cbn [shr_record_of_loc shr_m].
  replace (e <=? emax - prec) with true; [reflexivity |].
  symmetry. apply Z.leb_le. unfold emax, prec. lia.
Qed.

(** Twenty-three extra low zero bits are shifted out again. *)
Lemma binary_round_aux_shift23 (s : bool) (m : positive) (e : Z) :
  bounded prec emax m e = true ->
  binary_round_aux prec emax s (Z.pos (m * 8388608)) (e + -23) loc_Exact
  = S754_finite s m e.
Proof.
  intros H. pose proof (bounded_inv m e H) as [C L].
  unfold binary_round_aux.
  assert (shr_fexp prec emax (Z.pos (m * 8388608)) (e + -23) loc_Exact
          = ({| shr_m := Z.pos m; shr_r := false; shr_s := false |}, e)) as ->.
  { unfold shr_fexp. rewrite fexp_eq. rewrite Pos.mul_comm.
    cbn [Pos.mul Zdigits2 digits2_pos].
    match goal with
    | |- context [Z.max ?a (-149) - (e + -23)] =>
        replace (Z.max a (-149) - (e + -23)) with 23 by lia
    end.
    cbn [shr_record_of_loc shr iter_pos shr_1 orb]. f_equal. ring. }
  cbn [shr_m loc_of_shr_record round_nearest_even].
  rewrite shr_fexp_fixed by (rewrite fexp_eq; exact C).
  cbn [shr_record_of_loc shr_m].
  replace (e <=? emax - prec) with true; [reflexivity |].
  symmetry. apply Z.leb_le. unfold emax, prec. lia.
Qed.

(** ** binary32: multiplying and dividing by 1.0 *)

Lemma b2f_fone : b2f fone = S754_finite false 8388608 (-23).
Proof. reflexivity. Qed.

Lemma b2f_fzero : b2f fzero = S754_zero false.
Proof. reflexivity. Qed.

Lemma SFmul_one (s : bool) (m : positive) (e : Z) :
  bounded prec emax m e = true ->
  SFmul prec emax (S754_finite s m e) (S754_finite false 8388608 (-23))
  = S754_finite s m e.
Proof.
  intros H. cbn [SFmul]. rewrite binary_round_aux_shift23 by exact H.
  rewrite xorb_false_r. reflexivity.
Qed.

Lemma div_eucl_exact (a b q : Z) :
  0 < b -> a = q * b -> Z.div_eucl a b = (q, 0).
Proof.
  intros Hb ->.
  pose proof (Z.div_mul q b ltac:(lia)) as Q.
  pose proof (Z.mod_mul q b ltac:(lia)) as R.
  unfold Z.div in Q. unfold Z.modulo in R.
  destruct (Z.div_eucl (q * b) b) as [q' r']. congruence.
Qed.

Lemma SFdiv_core_one (m : positive) (e : Z) :
  bounded prec emax m e = true ->
  SFdiv_core_binary prec emax (Z.pos m) e 8388608 (-23)
  = if e =? -149 then (Z.pos m, e, loc_Exact)
    else (Z.pos m~0, e - 1, loc_Exact).
Proof.
  intros H. pose proof (bounded_inv m e H) as [C L].
  unfold SFdiv_core_binary. cbn [Zdigits2].
  change (Z.pos (digits2_pos 8388608)) with 24.
  rewrite fexp_eq.
  destruct (e =? -149) eqn:E; [apply Z.eqb_eq in E | apply Z.eqb_neq in E].
  - replace (Z.min (Z.max (Z.pos (digits2_pos m) + e - (24 + -23) - 24) (-149))
                   (e - -23)) with e by lia.
    replace (e - -23 - e) with 23 by ring.
    cbv zeta.
    rewrite (div_eucl_exact (Z.shiftl (Z.pos m) 23) 8388608 (Z.pos m));
      [reflexivity | lia |].
    rewrite Z.shiftl_mul_pow2 by lia. change (2 ^ 23) with 8388608. lia.
  - replace (Z.min (Z.max (Z.pos (digits2_pos m) + e - (24 + -23) - 24) (-149))
                   (e - -23)) with (e - 1) by lia.
    replace (e - -23 - (e - 1)) with 24 by ring.
    cbv zeta.
    rewrite (div_eucl_exact (Z.shiftl (Z.pos m) 24) 8388608 (Z.pos m~0));
      [reflexivity | lia |].
    rewrite Z.shiftl_mul_pow2 by lia.
    change (2 ^ 24) with 16777216. lia.
Qed.

Lemma SFdiv_one (s : bool) (m : positive) (e : Z) :
  bounded prec emax m e = true ->
  SFdiv prec emax (S754_finite s m e) (S754_finite false 8388608 (-23))
  = S754_finite s m e.
Proof.
  intros H. cbn [SFdiv]. rewrite SFdiv_core_one by exact H.
  rewrite xorb_false_r.
  destruct (e =? -149).
  - apply binary_round_aux_bounded. exact H.
  - apply binary_round_aux_double. exact H.
Qed.

Lemma is_finite_not_nan (x : Z) : is_finite x = true -> is_nan x = false.
Proof. unfold is_finite, is_nan. destruct (b2f x); congruence. Qed.

(** [x * 1.0f] is [x], bit for bit, for every finite [x]. *)
Lemma fmul_one (x : Z) : is_word x -> is_finite x = true -> fmul x fone = x.
Proof.
  intros W F. pose proof (f2b_b2f x W (is_finite_not_nan x F)) as R.
  unfold fmul. rewrite b2f_fone. unfold is_finite in F.
  destruct (b2f x) as [s | s | | s m e] eqn:E; try discriminate.
  - cbn [SFmul]. rewrite xorb_false_r. exact R.
  - rewrite SFmul_one by (eapply b2f_bounded; exact E). exact R.
Qed.

(** [x / 1.0f] is [x], bit for bit, for every finite [x]. *)
Lemma fdiv_one (x : Z) : is_word x -> is_finite x = true -> fdiv x fone = x.
Proof.
  intros W F. pose proof (f2b_b2f x W (is_finite_not_nan x F)) as R.
  unfold fdiv. rewrite b2f_fone. unfold is_finite in F.
  destruct (b2f x) as [s | s | | s m e] eqn:E; try discriminate.
  - cbn [SFdiv]. rewrite xorb_false_r. exact R.
  - rewrite SFdiv_one by (eapply b2f_bounded; exact E). exact R.
Qed.

(** ** Masks applied to lanes *)

Lemma andnot_bool_mask (c : bool) (x : Z) :
  is_word x -> Z.land (wnot (bool_mask c)) x = if c then 0 else x.
Proof.
  intros H. destruct c; cbn [bool_mask].
  - rewrite wnot_ones. apply Z.land_0_l.
  - rewrite wnot_zero. apply land_ones_l. exact H.
Qed.

(** ** safe_div and hdiv *)

Lemma safe_div_sse_lane (a b : float4) (k : lane) :
  get (mm_andnot (mm_cmp_ps feq b mm_setzero) (mm_div_ps a b)) k
  = if feq (get b k) fzero then fzero else fdiv (get a k) (get b k).
Proof.
  destruct k; cbn [get mm_andnot mm_cmp_ps mm_div_ps zip4 build4 mm_setzero
                   splat x_ y_ z_ w_];
    apply andnot_bool_mask, fdiv_word.
Qed.

Lemma safe_div_lane (bk : backend) (a b : float4) (k : lane) :
  get (safe_div bk a b) k
  = if feq (get b k) fzero then fzero else fdiv (get a k) (get b k).
Proof.
  destruct bk;
    [ destruct k; reflexivity
    | apply safe_div_sse_lane | apply safe_div_sse_lane | apply safe_div_sse_lane ].
Qed.

Lemma vec4_ext (u v : vec4) : (forall k, get u k = get v k) -> u = v.
Proof.
  intros H. destruct u as [a b c d], v as [a' b' c' d'].
  pose proof (H L0) as H0. pose proof (H L1) as H1.
  pose proof (H L2) as H2. pose proof (H L3) as H3.
  cbn [get x_ y_ z_ w_] in *. congruence.
Qed.

Lemma float4_Zero_lanes (bk : backend) : float4_Zero bk = splat fzero.
Proof. destruct bk; reflexivity. Qed.

(** C1.  In every lane [k], on every backend, [safe_div (a, b)] yields
    the bit pattern of [+0.0f] (which is neither an infinity nor a NaN)
    when [b[k] == 0.0f], and the quotient [a[k] / b[k]] otherwise.  In
    particular dividing any vector by [float4::Zero ()] gives
    [float4::Zero ()]. *)
Theorem safe_div_zero_guard (bk : backend) (a b : float4) (k : lane) :
  float4_get (safe_div bk a b) k
  = (if feq (float4_get b k) fzero then fzero
     else fdiv (float4_get a k) (float4_get b k))
  /\ is_inf fzero = false /\ is_nan fzero = false
  /\ safe_div bk a (float4_Zero bk) = float4_Zero bk.
Proof.
  split; [apply safe_div_lane |].
  split; [reflexivity |]. split; [reflexivity |].
  apply vec4_ext. intros j. rewrite safe_div_lane.
  rewrite float4_Zero_lanes. destruct j; reflexivity.
Qed.

Lemma xyz0_lane (bk : backend) (v : float4) (k : lane) :
  get (xyz0 bk v) k = if lane_index k =? 3 then fzero else get v k.
Proof. destruct bk, k; reflexivity. Qed.

Lemma float4_shuffle1_lane (bk : backend) (i : lane) (v : float4) (k : lane) :
  get (float4_shuffle1 bk i v) k = get v i.
Proof. destruct bk, k; reflexivity. Qed.

Lemma float3_of_float4_sse (bk : backend) (v : float4) :
  bk <> Scalar -> float3_of_float4 bk v = v.
Proof. destruct bk; [contradiction | reflexivity ..]. Qed.

Lemma get_if (c : bool) (u v : vec4) (k : lane) :
  get (if c then u else v) k = if c then get u k else get v k.
Proof. destruct c; reflexivity. Qed.

Lemma hdiv_sse (bk : backend) (a : float4) :
  bk <> Scalar ->
  hdiv bk a = xyz0 bk (safe_div bk a (float4_shuffle1 bk L3 a)).
Proof.
  intros H. rewrite <- (float3_of_float4_sse bk _ H).
  destruct bk; [contradiction | reflexivity ..].
Qed.

(** C9.  On every backend [hdiv (a)] guards the homogeneous divide the
    way [safe_div] does: when [a[3] == 0.0f] the result is the zero
    [float3], all four lanes [+0.0f]; otherwise lanes 0..2 are
    [a[k] / a[3]] and the padding lane is [+0.0f]. *)
Theorem hdiv_zero_guard (bk : backend) (a : float4) :
  hdiv bk a
  = if feq (float4_get a L3) fzero then mk4 fzero fzero fzero fzero
    else mk4 (fdiv (float4_get a L0) (float4_get a L3))
             (fdiv (float4_get a L1) (float4_get a L3))
             (fdiv (float4_get a L2) (float4_get a L3)) fzero.
Proof.
  unfold float4_get.
  destruct (backend_eq_dec bk Scalar) as [-> | N].
  - unfold hdiv. cbv zeta. unfold float4_get.
    destruct (feq (get a L3) fzero); reflexivity.
  - rewrite (hdiv_sse bk a N). apply vec4_ext. intros k.
    rewrite get_if, xyz0_lane, safe_div_lane, float4_shuffle1_lane.
    destruct k; cbn [lane_index Z.eqb Pos.eqb get x_ y_ z_ w_];
      destruct (feq (w_ a) fzero); reflexivity.
Qed.

(** ** blend and select *)

Lemma movemask_bit (m : vec4) (i : lane) :
  Z.testbit (mm_movemask_ps m) (lane_index i) = Z.testbit (get m i) 31.
Proof.
  unfold mm_movemask_ps.
  destruct (Z.testbit (x_ m) 31) eqn:B0, (Z.testbit (y_ m) 31) eqn:B1,
           (Z.testbit (z_ m) 31) eqn:B2, (Z.testbit (w_ m) 31) eqn:B3;
    destruct i; cbn [get lane_index Z.b2z]; rewrite ?B0, ?B1, ?B2, ?B3; reflexivity.
Qed.

Lemma canonical_lane_sign (w : Z) :
  canonical_lane w -> Z.testbit w 31 = negb (w =? 0).
Proof. intros [-> | ->]; reflexivity. Qed.

(** On a canonical mask the two bodies of [operator[]] agree: the lane
    is true exactly when it is not zero. *)
Lemma mask4_get_canonical (bk : backend) (m : mask4) (i : lane) :
  canonical m -> mask4_get bk m i = negb (get m i =? 0).
Proof.
  intros C. destruct bk; cbn [mask4_get]; try reflexivity;
    rewrite movemask_bit; apply canonical_lane_sign, C.
Qed.

Lemma bytes_join (a : Z) :
  is_word a ->
  byte_of a 0 * 2 ^ (8 * 0) + byte_of a 1 * 2 ^ (8 * 1)
  + byte_of a 2 * 2 ^ (8 * 2) + byte_of a 3 * 2 ^ (8 * 3) = a.
Proof.
  unfold is_word, byte_of. intros H.
  change (2 ^ (8 * 0)) with 1. change (2 ^ (8 * 1)) with 256.
  change (2 ^ (8 * 2)) with 65536. change (2 ^ (8 * 3)) with 16777216.
  change (2 ^ 8) with 256. change (2 ^ 32) with 4294967296 in H.
  rewrite Z.div_1_r.
  pose proof (Z.div_mod a 256 ltac:(discriminate)).
  pose proof (Z.mod_pos_bound a 256 eq_refl).
  pose proof (Z.div_mod (a / 256) 256 ltac:(discriminate)).
  pose proof (Z.mod_pos_bound (a / 256) 256 eq_refl).
  pose proof (Z.div_mod (a / 256 / 256) 256 ltac:(discriminate)).
  pose proof (Z.mod_pos_bound (a / 256 / 256) 256 eq_refl).
  assert (a / 65536 = a / 256 / 256) as ->
    by (rewrite Z.div_div by lia; reflexivity).
  assert (a / 16777216 = a / 256 / 256 / 256) as ->
    by (rewrite !Z.div_div by lia; reflexivity).
  rewrite (Z.mod_small (a / 256 / 256 / 256) 256); lia.
Qed.

Lemma blendv_epi8_lane (a b m : Z) :
  is_word a -> is_word b -> canonical_lane m ->
  blendv_byte a b m 0 + blendv_byte a b m 1
  + blendv_byte a b m 2 + blendv_byte a b m 3
  = if negb (m =? 0) then b else a.
Proof.
  intros Ha Hb [-> | ->]; unfold blendv_byte;
    [ change (Z.testbit 0 (8 * 0 + 7)) with false;
      change (Z.testbit 0 (8 * 1 + 7)) with false;
      change (Z.testbit 0 (8 * 2 + 7)) with false;
      change (Z.testbit 0 (8 * 3 + 7)) with false
    | change (Z.testbit ones (8 * 0 + 7)) with true;
      change (Z.testbit ones (8 * 1 + 7)) with true;
      change (Z.testbit ones (8 * 2 + 7)) with true;
      change (Z.testbit ones (8 * 3 + 7)) with true ];
    cbv iota; [change (negb (0 =? 0)) with false
              | change (negb (ones =? 0)) with true];
    cbv iota; apply bytes_join; assumption.
Qed.

Lemma or_and_andnot_lane (a b m : Z) :
  is_word a -> is_word b -> canonical_lane m ->
  Z.lor (Z.land m b) (Z.land (wnot m) a) = if negb (m =? 0) then b else a.
Proof.
  intros Ha Hb [-> | ->].
  - rewrite wnot_zero, Z.land_0_l, Z.lor_0_l. apply land_ones_l. exact Ha.
  - rewrite wnot_ones, Z.land_0_l, Z.lor_0_r. apply land_ones_l. exact Hb.
Qed.

Lemma int4_blend_lane (bk : backend) (a b : int4) (mask : mask4) (i : lane) :
  wf4 a -> wf4 b -> canonical mask ->
  get (int4_blend bk a b mask) i = if mask4_get bk mask i then get b i else get a i.
Proof.
  intros Ha Hb C. rewrite (mask4_get_canonical bk mask i C).
  pose proof (Ha i) as Wa. pose proof (Hb i) as Wb. pose proof (C i) as Ci.
  destruct bk.
  - destruct i; cbn [int4_blend SIMD_int build4 get x_ y_ z_ w_ mask4_get] in *;
      unfold int4_get; cbn [get x_ y_ z_ w_];
      match goal with |- context [negb ?c] => destruct (negb c) end;
      apply sint_wrap; assumption.
  - destruct i; cbn [int4_blend mm_or mm_and mm_andnot zip4 build4 get x_ y_ z_ w_] in *;
      apply or_and_andnot_lane; assumption.
  - destruct i; cbn [int4_blend mm_or mm_and mm_andnot zip4 build4 get x_ y_ z_ w_] in *;
      apply or_and_andnot_lane; assumption.
  - destruct i; cbn [int4_blend mm_blendv_epi8 build4 get x_ y_ z_ w_] in *;
      apply blendv_epi8_lane; assumption.
Qed.

Lemma float4_blend_lane (bk : backend) (a b : float4) (mask : mask4) (i : lane) :
  wf4 a -> wf4 b -> canonical mask ->
  get (float4_blend bk a b mask) i = if mask4_get bk mask i then get b i else get a i.
Proof.
  intros Ha Hb C.
  pose proof (Ha i) as Wa. pose proof (Hb i) as Wb. pose proof (C i) as Ci.
  destruct bk.
  - destruct i; reflexivity.
  - rewrite (mask4_get_canonical _ mask i C).
    destruct i; cbn [float4_blend mm_or mm_and mm_andnot zip4 build4 get x_ y_ z_ w_] in *;
      apply or_and_andnot_lane; assumption.
  - rewrite (mask4_get_canonical _ mask i C).
    destruct i; cbn [float4_blend mm_or mm_and mm_andnot zip4 build4 get x_ y_ z_ w_] in *;
      apply or_and_andnot_lane; assumption.
  - cbn [mask4_get]. rewrite movemask_bit. destruct i; reflexivity.
Qed.

(** C5.  For word-valued lanes and a canonical mask, on every backend,
    [blend (a, b, mask)[i]] is [b[i]] where [mask[i]] is true and [a[i]]
    elsewhere, for [int4] (as bit pattern and as [int] value) and for
    [float4]; and [select (mask, a, b)] is [blend (b, a, mask)]. *)
Theorem blend_select_lanes (bk : backend) (a b : vec4) (mask : mask4) (i : lane) :
  wf4 a -> wf4 b -> canonical mask ->
  get (int4_blend bk a b mask) i
  = (if mask4_get bk mask i then get b i else get a i)
  /\ int4_get (int4_blend bk a b mask) i
     = (if mask4_get bk mask i then int4_get b i else int4_get a i)
  /\ float4_get (float4_blend bk a b mask) i
     = (if mask4_get bk mask i then float4_get b i else float4_get a i)
  /\ int4_select bk mask a b = int4_blend bk b a mask
  /\ float4_select bk mask a b = float4_blend bk b a mask.
Proof.
  intros Ha Hb C.
  pose proof (int4_blend_lane bk a b mask i Ha Hb C) as I.
  split; [exact I |]. split.
  - unfold int4_get. rewrite I. destruct (mask4_get bk mask i); reflexivity.
  - split; [apply float4_blend_lane; assumption |]. split; reflexivity.
Qed.

Lemma wf4_intro (a b c d : Z) :
  is_word a -> is_word b -> is_word c -> is_word d -> wf4 (mk4 a b c d).
Proof. intros Ha Hb Hc Hd k. destruct k; assumption. Qed.

Lemma canonical_intro (a b c d : Z) :
  canonical_lane a -> canonical_lane b -> canonical_lane c -> canonical_lane d ->
  canonical (mk4 a b c d).
Proof. intros Ha Hb Hc Hd k. destruct k; assumption. Qed.

Lemma blend_select_lanes_witness :
  get (int4_blend SSE4 (mk4 1 2 3 4) (mk4 5 6 7 8) (mk4 ones 0 ones 0)) L0 = 5.
Proof.
  apply (blend_select_lanes SSE4 (mk4 1 2 3 4) (mk4 5 6 7 8) (mk4 ones 0 ones 0) L0).
  - apply wf4_intro; unfold is_word; lia.
  - apply wf4_intro; unfold is_word; lia.
  - apply canonical_intro; unfold canonical_lane; auto.
Defined.

(** ** The narrowing stores *)

Lemma sint_mod (w n : Z) :
  0 <= n <= 32 -> sint w mod 2 ^ n = w mod 2 ^ n.
Proof.
  intros Hn. unfold sint. destruct (w <? 2 ^ 31); [reflexivity |].
  replace (2 ^ 32) with (2 ^ (32 - n) * 2 ^ n)
    by (rewrite <- Z.pow_add_r by lia; f_equal; ring).
  replace (w - 2 ^ (32 - n) * 2 ^ n) with (w + (- 2 ^ (32 - n)) * 2 ^ n) by ring.
  apply Z.mod_add. apply Z.pow_nonzero; lia.
Qed.

Lemma lor_disjoint (a b n : Z) :
  0 <= n -> 0 <= a < 2 ^ n -> Z.lor a (b * 2 ^ n) = a + b * 2 ^ n.
Proof.
  intros Hn Ha. rewrite <- (Z.add_lor_land a (b * 2 ^ n)).
  assert (Z.land a (b * 2 ^ n) = 0) as ->; [| ring].
  apply Z.bits_inj'. intros m Hm. rewrite Z.land_spec, Z.bits_0.
  destruct (Z.ltb_spec m n).
  - rewrite Z.mul_pow2_bits_low by lia. apply andb_false_r.
  - rewrite <- (Z.mod_small a (2 ^ n)) by lia.
    rewrite Z.mod_pow2_bits_high by lia. reflexivity.
Qed.

Lemma lo16_join16 (a b : Z) : 0 <= a < 2 ^ 16 -> lo16 (join16 a b) = a.
Proof.
  intros H. unfold lo16, join16. rewrite Z.mod_add by discriminate.
  apply Z.mod_small. exact H.
Qed.

Lemma hi16_join16 (a b : Z) :
  0 <= a < 2 ^ 16 -> 0 <= b < 2 ^ 16 -> hi16 (join16 a b) = b.
Proof.
  intros Ha Hb. unfold hi16, join16. rewrite Z.div_add by discriminate.
  rewrite Z.div_small by exact Ha. apply Z.mod_small. exact Hb.
Qed.

Lemma lo16_small (a : Z) : 0 <= a < 2 ^ 16 -> lo16 a = a.
Proof. intros H. apply Z.mod_small. exact H. Qed.

Lemma hi16_small (a : Z) : 0 <= a < 2 ^ 16 -> hi16 a = 0.
Proof. intros H. unfold hi16. rewrite Z.div_small by exact H. reflexivity. Qed.

Lemma land_ffff (a : Z) : Z.land a (wrap 0xffff) = a mod 2 ^ 16.
Proof. change (wrap 0xffff) with (Z.ones 16). apply Z.land_ones. lia. Qed.

Lemma land_ff (a : Z) : Z.land a (wrap 0xff) = a mod 2 ^ 8.
Proof. change (wrap 0xff) with (Z.ones 8). apply Z.land_ones. lia. Qed.

(** The half-word shuffles of [store (unsigned short* )], run on a
    register whose lanes are already clamped to 16 bits. *)
Lemma ushort_pack (A B C D : Z) :
  0 <= A < 2 ^ 16 -> 0 <= B < 2 ^ 16 -> 0 <= C < 2 ^ 16 -> 0 <= D < 2 ^ 16 ->
  let clamped := mk4 A B C D in
  let low := mm_shufflelo_epi16 clamped 0 2 1 1 in
  let high := mm_shufflehi_epi16 clamped 1 1 0 2 in
  let highswapped := shuffle_sse L2 L3 L0 L1 high in
  let result := mm_or low highswapped in
  mk4 (half result 0) (half result 1) (half result 2) (half result 3)
  = mk4 A B C D.
Proof.
  intros HA HB HC HD.
  cbv zeta.
  cbn [mm_shufflelo_epi16 mm_shufflehi_epi16 shuffle_sse mm_or zip4 build4
       half get x_ y_ z_ w_ Z.add Pos.add].
  rewrite (lo16_small A), (lo16_small B), (lo16_small C), (lo16_small D),
          (hi16_small A), (hi16_small C) by assumption.
  change (join16 0 0) with 0. rewrite Z.lor_0_r, Z.lor_0_l.
  rewrite (lo16_join16 A B), (hi16_join16 A B),
          (lo16_join16 C D), (hi16_join16 C D) by assumption.
  reflexivity.
Qed.

Lemma byte_of_sum (A B C D : Z) :
  0 <= A < 256 -> 0 <= B < 256 -> 0 <= C < 256 -> 0 <= D < 256 ->
  let s := A + B * 256 + C * 65536 + D * 16777216 in
  byte_of s 0 = A /\ byte_of s 1 = B /\ byte_of s 2 = C /\ byte_of s 3 = D.
Proof.
  intros HA HB HC HD s. unfold byte_of.
  change (2 ^ (8 * 0)) with 1. change (2 ^ (8 * 1)) with 256.
  change (2 ^ (8 * 2)) with 65536. change (2 ^ (8 * 3)) with 16777216.
  change (2 ^ 8) with 256. rewrite Z.div_1_r.
  assert (s / 256 = B + C * 256 + D * 65536) as E1.
  { symmetry. apply (Z.div_unique s 256 _ A); [lia | unfold s; ring]. }
  assert (s / 65536 = C + D * 256) as E2.
  { symmetry. apply (Z.div_unique s 65536 _ (A + B * 256)); [lia | unfold s; ring]. }
  assert (s / 16777216 = D) as E3.
  { symmetry.
    apply (Z.div_unique s 16777216 _ (A + B * 256 + C * 65536)); [lia | unfold s; ring]. }
  rewrite E1, E2, E3. repeat split.
  - symmetry. apply (Z.mod_unique s 256 (B + C * 256 + D * 65536) A);
      [lia | unfold s; ring].
  - symmetry. apply (Z.mod_unique _ 256 (C + D * 256) B); [lia | ring].
  - symmetry. apply (Z.mod_unique _ 256 D C); [lia | ring].
  - apply Z.mod_small. lia.
Qed.

(** The shifts and ors of [store (unsigned char* )], run on a register
    whose lanes are already clamped to 8 bits: lane 0 of the result
    holds the four bytes. *)
Lemma uchar_pack (A B C D : Z) :
  0 <= A < 256 -> 0 <= B < 256 -> 0 <= C < 256 -> 0 <= D < 256 ->
  let clamped := mk4 A B C D in
  let swapped := shuffle_sse L1 L0 L3 L2 clamped in
  let shifted := mm_slli_epi32 swapped 8 in
  let merged := mm_or clamped shifted in
  let merged2 := shuffle_sse L2 L2 L2 L2 merged in
  let shifted2 := mm_slli_epi32 merged2 16 in
  let result := mm_or merged shifted2 in
  get result L0 = A + B * 256 + C * 65536 + D * 16777216.
Proof.
  intros HA HB HC HD. cbv zeta.
  cbn [shuffle_sse mm_slli_epi32 mm_or map4 zip4 build4 get x_ y_ z_ w_].
  change (31 <? 8) with false. change (31 <? 16) with false. cbv iota.
  rewrite !Z.shiftl_mul_pow2 by lia.
  rewrite (wrap_small (B * 2 ^ 8)) by (unfold is_word; lia).
  rewrite (wrap_small (D * 2 ^ 8)) by (unfold is_word; lia).
  rewrite (lor_disjoint A B 8) by lia.
  rewrite (lor_disjoint C D 8) by lia.
  rewrite (wrap_small ((C + D * 2 ^ 8) * 2 ^ 16)) by (unfold is_word; lia).
  rewrite (lor_disjoint (A + B * 2 ^ 8) (C + D * 2 ^ 8) 16) by lia.
  lia.
Qed.

Lemma clamp16 (v : vec4) :
  mm_and v (mm_set1_epi32 0xffff)
  = mk4 (x_ v mod 2 ^ 16) (y_ v mod 2 ^ 16) (z_ v mod 2 ^ 16) (w_ v mod 2 ^ 16).
Proof.
  unfold mm_and, mm_set1_epi32, zip4, build4, splat. cbn [get x_ y_ z_ w_].
  rewrite !land_ffff. reflexivity.
Qed.

Lemma clamp8 (v : vec4) :
  mm_and v (mm_set1_epi32 0xff)
  = mk4 (x_ v mod 2 ^ 8) (y_ v mod 2 ^ 8) (z_ v mod 2 ^ 8) (w_ v mod 2 ^ 8).
Proof.
  unfold mm_and, mm_set1_epi32, zip4, build4, splat. cbn [get x_ y_ z_ w_].
  rewrite !land_ff. reflexivity.
Qed.

Lemma int4_store_ushort_sse (bk : backend) (v : int4) :
  bk <> Scalar ->
  int4_store_ushort bk v = map4 (fun w => w mod 2 ^ 16) v.
Proof.
  intros N.
  pose proof (ushort_pack (x_ v mod 2 ^ 16) (y_ v mod 2 ^ 16)
                          (z_ v mod 2 ^ 16) (w_ v mod 2 ^ 16)
                          (Z.mod_pos_bound _ (2 ^ 16) eq_refl)
                          (Z.mod_pos_bound _ (2 ^ 16) eq_refl)
                          (Z.mod_pos_bound _ (2 ^ 16) eq_refl)
                          (Z.mod_pos_bound _ (2 ^ 16) eq_refl)) as P.
  cbv zeta in P.
  destruct bk; [contradiction | ..];
    unfold int4_store_ushort, int4_and, int4_or, int4_of_array, int4_of_int,
           int4_load1;
    rewrite clamp16; exact P.
Qed.

Lemma int4_store_uchar_sse (bk : backend) (v : int4) :
  bk <> Scalar ->
  int4_store_uchar bk v = map4 (fun w => w mod 2 ^ 8) v.
Proof.
  intros N.
  pose proof (Z.mod_pos_bound (x_ v) 256 eq_refl) as HA.
  pose proof (Z.mod_pos_bound (y_ v) 256 eq_refl) as HB.
  pose proof (Z.mod_pos_bound (z_ v) 256 eq_refl) as HC.
  pose proof (Z.mod_pos_bound (w_ v) 256 eq_refl) as HD.
  pose proof (uchar_pack _ _ _ _ HA HB HC HD) as P.
  pose proof (byte_of_sum _ _ _ _ HA HB HC HD) as Q.
  cbv zeta in P, Q. rewrite <- P in Q. destruct Q as (Q0 & Q1 & Q2 & Q3).
  destruct bk; [contradiction | ..];
    unfold int4_store_uchar, int4_and, int4_or, int4_shl, int4_of_array,
           int4_of_int, int4_load1;
    rewrite clamp8; change (2 ^ 8) with 256;
    unfold build4, map4, build4; cbn [lane_index];
    rewrite Q0, Q1, Q2, Q3; reflexivity.
Qed.

(** C10.  On every backend the narrowing stores write, for each lane,
    the [int] value reduced modulo 2^16 (unsigned short) or modulo 2^8
    (unsigned char): the low bits, with no clamping, whatever the sign or
    size of the lane. *)
Theorem int4_store_narrow_truncates (bk : backend) (v : int4) (k : lane) :
  get (int4_store_ushort bk v) k = int4_get v k mod 2 ^ 16
  /\ get (int4_store_uchar bk v) k = int4_get v k mod 2 ^ 8.
Proof.
  unfold int4_get. rewrite !sint_mod by lia.
  destruct (backend_eq_dec bk Scalar) as [-> | N].
  - cbn [int4_store_ushort int4_store_uchar]. unfold int4_get.
    split; destruct k; cbn [build4 get x_ y_ z_ w_]; apply sint_mod; lia.
  - rewrite int4_store_ushort_sse, int4_store_uchar_sse by exact N.
    split; destruct k; reflexivity.
Qed.

(** ** Canonical masks *)

Lemma canonical_build4 (f : lane -> Z) :
  (forall i, canonical_lane (f i)) -> canonical (build4 f).
Proof. intros H k. destruct k; apply H. Qed.

Lemma canonical_SIMD_bool (c : lane -> bool) :
  canonical (SIMD_int (fun i => neg1_or_0 (c i))).
Proof. apply canonical_build4. intros i. apply canonical_lane_neg1_or_0. Qed.

Lemma canonical_cmp (c : Z -> Z -> bool) (a b : vec4) :
  canonical (zip4 (fun p q => bool_mask (c p q)) a b).
Proof. apply canonical_build4. intros i. apply canonical_lane_bool_mask. Qed.

Lemma canonical_put (m : mask4) (i : lane) (v : Z) :
  canonical m -> canonical_lane v -> canonical (put m i v).
Proof.
  intros C V k. pose proof (C L0). pose proof (C L1).
  pose proof (C L2). pose proof (C L3).
  destruct i, k; cbn [put get x_ y_ z_ w_] in *; assumption.
Qed.

Lemma canonical_splat (v : Z) : canonical_lane v -> canonical (splat v).
Proof. intros V k. destruct k; exact V. Qed.

Lemma canonical_load1 (bk : backend) (a : bool) : canonical (mask4_load1 bk a).
Proof.
  destruct bk; cbn [mask4_load1 mm_set1_epi32];
    [apply canonical_build4; intros _ | apply canonical_splat ..];
    apply canonical_lane_neg1_or_0.
Qed.

Lemma canonical_load4 (bk : backend) (a b c d : bool) :
  canonical (mask4_load4 bk a b c d).
Proof.
  destruct bk; cbn [mask4_load4 mm_set_epi32];
    apply canonical_intro; apply canonical_lane_neg1_or_0.
Qed.

Lemma canonical_True (bk : backend) : canonical (mask4_True bk).
Proof.
  destruct bk; [apply canonical_load1 | ..];
    apply canonical_splat; right; reflexivity.
Qed.

Lemma canonical_False (bk : backend) : canonical (mask4_False bk).
Proof.
  destruct bk; [apply canonical_load1 | ..];
    apply canonical_splat; left; reflexivity.
Qed.

(** A bitwise operator that maps canonical lanes to canonical lanes does
    so on whole masks, in the scalar body as in the SSE body. *)
Lemma canonical_zip (f : Z -> Z -> Z) (m n : mask4) :
  (forall p q, canonical_lane p -> canonical_lane q -> canonical_lane (f p q)) ->
  canonical m -> canonical n -> canonical (zip4 f m n).
Proof.
  intros F Cm Cn. apply canonical_build4. intros i. apply F; [apply Cm | apply Cn].
Qed.

Lemma canonical_SIMD_zip (f : Z -> Z -> Z) (m n : mask4) :
  (forall p q, canonical_lane p -> canonical_lane q ->
               canonical_lane (wrap (f (sint p) (sint q)))) ->
  canonical m -> canonical n ->
  canonical (SIMD_int (fun i => f (sint (get m i)) (sint (get n i)))).
Proof.
  intros F Cm Cn. apply canonical_build4. intros i. apply F; [apply Cm | apply Cn].
Qed.

Ltac canon_cases :=
  intros p q [-> | ->] [-> | ->]; (left; reflexivity) || (right; reflexivity).

Ltac canon_case :=
  intros p [-> | ->]; (left; reflexivity) || (right; reflexivity).

Lemma canonical_xor_ones (m : mask4) :
  canonical m -> canonical (mm_xor m (splat ones)).
Proof.
  intros C. apply canonical_build4. intros i. cbn [splat get x_ y_ z_ w_].
  assert (get (splat ones) i = ones) as -> by (destruct i; reflexivity).
  generalize (get m i) (C i). canon_case.
Qed.

Lemma canonical_not (bk : backend) (m : mask4) :
  canonical m -> canonical (mask4_not bk m).
Proof.
  intros C. destruct bk; cbn [mask4_not mask4_True mm_cmpeq_epi8_self];
    [| apply canonical_xor_ones; exact C ..].
  apply canonical_build4. intros i. generalize (get m i) (C i). canon_case.
Qed.

Lemma canonical_compl (bk : backend) (m : mask4) :
  canonical m -> canonical (mask4_compl bk m).
Proof.
  intros C. destruct bk; cbn [mask4_compl mm_cmpeq_epi8_self];
    [| apply canonical_xor_ones; exact C ..].
  apply canonical_build4. intros i. generalize (get m i) (C i). canon_case.
Qed.

Lemma canonical_and (bk : backend) (m n : mask4) :
  canonical m -> canonical n -> canonical (mask4_and bk m n).
Proof.
  intros Cm Cn. destruct bk; cbn [mask4_and];
    [apply canonical_SIMD_zip | apply canonical_zip ..]; try assumption; canon_cases.
Qed.

Lemma canonical_or (bk : backend) (m n : mask4) :
  canonical m -> canonical n -> canonical (mask4_or bk m n).
Proof.
  intros Cm Cn. destruct bk; cbn [mask4_or];
    [apply canonical_SIMD_zip | apply canonical_zip ..]; try assumption; canon_cases.
Qed.

Lemma canonical_xor (bk : backend) (m n : mask4) :
  canonical m -> canonical n -> canonical (mask4_xor bk m n).
Proof.
  intros Cm Cn. destruct bk; cbn [mask4_xor];
    [apply canonical_SIMD_zip | apply canonical_zip ..]; try assumption; canon_cases.
Qed.

Lemma canonical_mask4_eq (bk : backend) (m n : mask4) : canonical (mask4_eq bk m n).
Proof.
  destruct bk; cbn [mask4_eq mm_cmpeq_epi32];
    [apply canonical_SIMD_bool | apply (canonical_cmp Z.eqb) ..].
Qed.

Lemma canonical_mask4_ne (bk : backend) (m n : mask4) :
  canonical m -> canonical n -> canonical (mask4_ne bk m n).
Proof.
  intros Cm Cn. destruct bk; cbn [mask4_ne];
    [apply canonical_SIMD_bool | apply canonical_zip ..]; try assumption; canon_cases.
Qed.

Lemma canonical_int4_eq (bk : backend) (a b : int4) : canonical (int4_eq bk a b).
Proof.
  destruct bk; cbn [int4_eq mm_cmpeq_epi32];
    [apply canonical_SIMD_bool | apply (canonical_cmp Z.eqb) ..].
Qed.

Lemma canonical_int4_lt (bk : backend) (a b : int4) : canonical (int4_lt bk a b).
Proof.
  destruct bk; cbn [int4_lt mm_cmplt_epi32];
    [apply canonical_SIMD_bool
    | apply (canonical_cmp (fun p q => sint p <? sint q)) ..].
Qed.

Lemma canonical_int4_gt (bk : backend) (a b : int4) : canonical (int4_gt bk a b).
Proof.
  destruct bk; cbn [int4_gt mm_cmpgt_epi32];
    [apply canonical_SIMD_bool
    | apply (canonical_cmp (fun p q => sint q <? sint p)) ..].
Qed.

Lemma canonical_float4_cmp (bk : backend) (c : Z -> Z -> bool) (a b : float4) :
  canonical (float4_cmp bk c a b).
Proof.
  destruct bk; cbn [float4_cmp mm_cmp_ps];
    [apply canonical_SIMD_bool | apply canonical_cmp ..].
Qed.

Lemma canonical_of_int4 (bk : backend) (i : int4) : canonical (mask4_of_int4 bk i).
Proof.
  destruct bk; cbn [mask4_of_int4];
    [apply canonical_SIMD_bool | apply canonical_not, canonical_int4_eq ..].
Qed.

Lemma canonical_shuffle (bk : backend) (i0 i1 i2 i3 : lane) (m : mask4) :
  canonical m -> canonical (mask4_shuffle bk i0 i1 i2 i3 m).
Proof.
  intros C. destruct bk; cbn [mask4_shuffle mask4_of_bools shuffle_sse];
    [apply canonical_load4 | apply canonical_intro; apply C ..].
Qed.

Lemma canonical_insert (bk : backend) (i : lane) (m : mask4) (val : bool) :
  canonical m -> canonical (mask4_insert bk i m val).
Proof.
  intros C. destruct bk; cbn [mask4_insert mask4_set mm_insert_epi32];
    apply canonical_put; try exact C; apply canonical_lane_neg1_or_0.
Qed.

(** C2, as the code has it.  Every mask obtained from the constructors,
    [load], the comparisons and the logical operators, [shuffle] and
    [insert] (the masks of [produced]) has each lane all zeros or all
    ones, on every backend.  Masks written through [int& operator[]] are
    not covered. *)
Theorem produced_canonical (bk : backend) (m : mask4) :
  produced bk m -> canonical m.
Proof.
  induction 1.
  - apply canonical_load1.
  - apply canonical_load4.
  - apply canonical_of_int4.
  - apply canonical_load1.
  - apply canonical_load4.
  - apply canonical_False.
  - apply canonical_True.
  - destruct bk; [apply canonical_load1 | apply canonical_splat; left; reflexivity ..].
  - apply canonical_load1.
  - apply canonical_not; assumption.
  - apply canonical_compl; assumption.
  - apply canonical_and; assumption.
  - apply canonical_or; assumption.
  - apply canonical_xor; assumption.
  - apply canonical_mask4_eq.
  - apply canonical_mask4_ne; assumption.
  - apply canonical_int4_eq.
  - apply canonical_not, canonical_int4_eq.
  - apply canonical_int4_lt.
  - apply canonical_int4_gt.
  - apply canonical_not, canonical_int4_lt.
  - apply canonical_not, canonical_int4_gt.
  - apply canonical_float4_cmp.
  - apply canonical_float4_cmp.
  - apply canonical_float4_cmp.
  - apply canonical_float4_cmp.
  - apply canonical_float4_cmp.
  - apply canonical_float4_cmp.
  - apply canonical_shuffle; assumption.
  - apply canonical_shuffle; assumption.
  - apply canonical_insert; assumption.
Qed.

Lemma produced_canonical_witness :
  canonical (mask4_and SSE2 (mask4_of_bools SSE2 true false true false)
                            (mask4_not SSE2 (int4_lt SSE2 (mk4 1 2 3 4) (mk4 4 3 2 1)))).
Proof.
  apply (produced_canonical SSE2).
  apply P_and; [apply P_of_bools | apply P_not, P_int4_lt].
Defined.

(** C2, as stated, fails.  [m[0] = 1] through the public
    [int& mask4::operator[]] leaves lane 0 holding the bits of 1, neither
    all zeros nor all ones, on the scalar backend and (through the union)
    on the SSE backends; and the logical operators are plain bitwise
    operations, so [m & m] keeps that lane. *)
Lemma mask4_set_not_canonical :
  ~ canonical (mask4_set (mask4_of_bool Scalar false) L0 1)
  /\ ~ canonical (mask4_set (mask4_of_bool SSE4 false) L0 1)
  /\ ~ canonical (mask4_and SSE4 (mask4_set (mask4_of_bool SSE4 true) L0 1)
                                 (mask4_set (mask4_of_bool SSE4 true) L0 1))
  /\ ~ canonical (mask4_and Scalar (mask4_set (mask4_of_bool Scalar true) L0 1)
                                   (mask4_set (mask4_of_bool Scalar true) L0 1)).
Proof.
  repeat split; intros C; specialize (C L0); vm_compute in C;
    destruct C; discriminate.
Qed.

(** ** floori, round and rint *)

Lemma floori_sse23_lane (bk : backend) (a : float4) (k : lane) :
  bk = SSE2 \/ bk = SSE3 ->
  get (floori bk a) k
  = wrap (f2i_trunc (get a k) + bool_mask (flt (get a k) fzero)).
Proof.
  intros [-> | ->];
    unfold floori, int4_add, int4_of_float4, bitcast_to_int4, float4_lt,
           float4_cmp, float4_Zero, mm_add_epi32, mm_cvttps_epi32, mm_cmp_ps,
           mm_setzero, zip4, map4, build4, splat;
    destruct k; reflexivity.
Qed.

Lemma sint_wrap_small (z : Z) : - 2 ^ 31 <= z < 2 ^ 31 -> sint (wrap z) = z.
Proof.
  intros H. unfold sint, wrap.
  change (2 ^ 31) with 2147483648 in *. change (2 ^ 32) with 4294967296.
  destruct (Z.ltb_spec z 0).
  - replace (z mod 4294967296) with (z + 4294967296).
    + destruct (Z.ltb_spec (z + 4294967296) 2147483648); lia.
    + apply (Z.mod_unique z 4294967296 (-1)); lia.
  - rewrite Z.mod_small by lia.
    destruct (Z.ltb_spec z 2147483648); lia.
Qed.

Lemma wrap_add_wrap_l (a b : Z) : wrap (wrap a + b) = wrap (a + b).
Proof. unfold wrap. apply Zplus_mod_idemp_l. Qed.

Lemma wrap_add_ones (a : Z) : wrap (a + ones) = wrap (a - 1).
Proof.
  unfold wrap, ones. replace (a + (2 ^ 32 - 1)) with (a - 1 + 1 * 2 ^ 32) by ring.
  apply Z.mod_add. discriminate.
Qed.

Lemma SFltb_finite_zero (s : bool) (m : positive) (e : Z) :
  SFltb (S754_finite s m e) (S754_zero false) = s.
Proof. destruct s; reflexivity. Qed.

(** What the SSE2/SSSE3 body of [floori] returns on every finite lane
    whose floor lies strictly inside the [int] range: the floor, except
    on negative whole numbers, where it returns one less. *)
Lemma floori_sse23_general (bk : backend) (a : float4) (k : lane) (n : Z) :
  bk = SSE2 \/ bk = SSE3 ->
  floorZ (b2f (get a k)) = Some n -> - 2 ^ 31 < n < 2 ^ 31 ->
  int4_get (floori bk a) k
  = if flt (get a k) fzero && is_whole (b2f (get a k)) then n - 1 else n.
Proof.
  intros B F R. unfold int4_get. rewrite (floori_sse23_lane bk a k B).
  unfold f2i_trunc, flt, floorZ, is_whole in *. rewrite b2f_fzero.
  destruct (b2f (get a k)) as [s | s | | s m e]; try discriminate.
  - assert (n = 0) as -> by congruence. reflexivity.
  - assert ((if 0 <=? e then cond_Zopp s (Z.pos m * 2 ^ e)
             else cond_Zopp s (Z.pos m) / 2 ^ (- e)) = n) as F' by congruence.
    clear F. rename F' into F.
    rewrite SFltb_finite_zero. unfold round_mag.
    destruct (0 <=? e) eqn:E.
    + cbn [orb]. rewrite F.
      replace ((- 2 ^ 31 <=? n) && (n <? 2 ^ 31)) with true
        by (symmetry; apply andb_true_intro; split;
            [apply Z.leb_le | apply Z.ltb_lt]; lia).
      rewrite wrap_add_wrap_l. destruct s; cbn [bool_mask andb].
      * rewrite wrap_add_ones. apply sint_wrap_small. lia.
      * rewrite Z.add_0_r. apply sint_wrap_small. lia.
    + apply Z.leb_gt in E. cbn [orb].
      assert (0 < 2 ^ (- e)) as D by (apply Z.pow_pos_nonneg; lia).
      pose proof (Z.div_mod (Z.pos m) (2 ^ (- e)) ltac:(lia)) as DM.
      pose proof (Z.mod_pos_bound (Z.pos m) (2 ^ (- e)) D) as MB.
      set (d := 2 ^ (- e)) in *. set (q := Z.pos m / d) in *.
      set (r := Z.pos m mod d) in *.
      assert (0 <= q) as Q by (apply Z.div_pos; lia).
      destruct s; cbn [cond_Zopp bool_mask andb] in *.
      * assert (n = if r =? 0 then - q else - q - 1) as N.
        { rewrite <- F. destruct (Z.eqb_spec r 0) as [R0 | R0].
          - symmetry. apply (Z.div_unique_exact); [lia |]. nia.
          - symmetry. apply (Z.div_unique (- Z.pos m) d (- q - 1) (d - r)); [lia | nia]. }
        replace ((- 2 ^ 31 <=? - q) && (- q <? 2 ^ 31)) with true
          by (symmetry; apply andb_true_intro; split;
              [apply Z.leb_le | apply Z.ltb_lt]; destruct (r =? 0); lia).
        rewrite wrap_add_wrap_l, wrap_add_ones.
        rewrite sint_wrap_small by (destruct (r =? 0); lia).
        destruct (r =? 0); lia.
      * change (q = n) in F. rewrite F.
        replace ((- 2 ^ 31 <=? n) && (n <? 2 ^ 31)) with true
          by (symmetry; apply andb_true_intro; split;
              [apply Z.leb_le | apply Z.ltb_lt]; lia).
        rewrite wrap_add_wrap_l, Z.add_0_r. apply sint_wrap_small. lia.
Qed.

(** *** The SSE4.1 and scalar bodies of [floori] are the floor *)

Lemma join_bits_fields (s : bool) (E M : Z) :
  0 <= E < 256 -> 0 <= M < 8388608 ->
  Z.testbit (join_bits s E M) 31 = s
  /\ (join_bits s E M / 2 ^ 23) mod 2 ^ 8 = E
  /\ join_bits s E M mod 2 ^ 23 = M.
Proof.
  intros HE HM. pose proof (join_bits_word s E M) as W.
  rewrite (testbit31_word _ W). unfold join_bits in *. unfold is_word in W.
  change (2 ^ 8) with 256 in *. change (2 ^ 23) with 8388608 in *.
  change (2 ^ 31) with 2147483648 in *. change (2 ^ 32) with 4294967296 in *.
  rewrite (Z.mod_small E 256) in * by lia.
  rewrite (Z.mod_small M 8388608) in * by lia.
  set (S := if s then 2147483648 else 0) in *.
  assert (S = (if s then 256 else 0) * 8388608) as HS by (destruct s; reflexivity).
  assert ((S + E * 8388608 + M) / 8388608 = (if s then 256 else 0) + E) as D.
  { symmetry. apply (Z.div_unique _ 8388608 _ M); [lia | rewrite HS; ring]. }
  split; [| split].
  - destruct s; subst S; [apply Z.leb_le | apply Z.leb_gt]; lia.
  - rewrite D. destruct s.
    + replace (256 + E) with (E + 1 * 256) by ring.
      rewrite Z.mod_add by discriminate. apply Z.mod_small. lia.
    + apply Z.mod_small. lia.
  - symmetry. apply (Z.mod_unique _ 8388608 ((if s then 256 else 0) + E) M);
      [lia | rewrite HS; ring].
Qed.

Lemma bounded_range (m : positive) (e : Z) :
  bounded prec emax m e = true ->
  Z.pos m < 2 ^ 24 /\ - 149 <= e <= 104
  /\ (Z.pos m < 2 ^ 23 -> e = - 149).
Proof.
  intros H. destruct (bounded_inv m e H) as [C L].
  pose proof (Pos.size_gt m) as G. apply Pos2Z.pos_lt_pos in G.
  rewrite Pos2Z.inj_pow in G. rewrite <- digits2_pos_size in G.
  assert (Z.pos (digits2_pos m) <= 24) as D by lia.
  split; [| split; [lia |]].
  - eapply Z.lt_le_trans; [exact G |]. apply Z.pow_le_mono_r; lia.
  - intros Hm. pose proof (digits2_upper m 23 ltac:(lia) Hm). lia.
Qed.

(** Decoding undoes encoding on every canonical finite float. *)
Lemma b2f_f2b_bounded (s : bool) (m : positive) (e : Z) :
  bounded prec emax m e = true ->
  b2f (f2b (S754_finite s m e)) = S754_finite s m e.
Proof.
  intros H. destruct (bounded_range m e H) as (Hm & He & Hsub).
  change (2 ^ 24) with 16777216 in Hm. change (2 ^ 23) with 8388608 in Hsub.
  cbn [f2b]. change (2 ^ 23) with 8388608.
  destruct (Z.ltb_spec (Z.pos m) 8388608) as [L | L].
  - destruct (join_bits_fields s 0 (Z.pos m) ltac:(lia) ltac:(lia)) as (T & E & M).
    unfold b2f. rewrite T, E, M. cbn [Z.eqb]. rewrite Pos2Z.id.
    rewrite (Hsub L). reflexivity.
  - assert (e <> - 149 -> Z.pos (digits2_pos m) = 24) as D24.
    { destruct (bounded_inv m e H). lia. }
    destruct (join_bits_fields s (e + 150) (Z.pos m - 8388608)
                ltac:(lia) ltac:(lia)) as (T & E & M).
    unfold b2f. rewrite T, E, M.
    destruct (Z.eqb_spec (e + 150) 0) as [E0 | E0]; [lia |].
    destruct (Z.eqb_spec (e + 150) 255) as [E1 | E1]; [lia |].
    change (2 ^ 23) with 8388608.
    replace (Z.pos m - 8388608 + 8388608) with (Z.pos m) by ring.
    rewrite Pos2Z.id. replace (e + 150 - 150) with e by ring. reflexivity.
Qed.

Lemma b2f_f2b_b2f (w : Z) : b2f (f2b (b2f w)) = b2f w.
Proof.
  destruct (b2f w) as [s | s | | s m e] eqn:E.
  - destruct s; reflexivity.
  - destruct s; reflexivity.
  - reflexivity.
  - apply b2f_f2b_bounded. eapply b2f_bounded. exact E.
Qed.

Lemma Zpos_iter_xO (q k : positive) :
  Z.pos (Pos.iter xO q k) = Z.pos q * 2 ^ Z.pos k.
Proof.
  induction k using Pos.peano_ind.
  - cbn [Pos.iter]. rewrite Pos2Z.inj_xO. change (2 ^ 1) with 2. ring.
  - rewrite Pos.iter_succ, Pos2Z.inj_xO, IHk, Pos2Z.inj_succ, Z.pow_succ_r by lia.
    ring.
Qed.

Lemma digits2_iter_xO (q k : positive) :
  Z.pos (digits2_pos (Pos.iter xO q k)) = Z.pos (digits2_pos q) + Z.pos k.
Proof.
  induction k using Pos.peano_ind.
  - cbn [Pos.iter digits2_pos]. lia.
  - rewrite Pos.iter_succ. cbn [digits2_pos]. lia.
Qed.

(** Normalizing a positive integer below 2^24 gives a canonical float of
    the same value, with a non-positive exponent. *)
Lemma binary_round_small (s : bool) (q : positive) :
  Z.pos q < 2 ^ 24 ->
  exists m e,
    binary_round prec emax s q 0 = S754_finite s m e
    /\ bounded prec emax m e = true /\ e <= 0
    /\ Z.pos m = Z.pos q * 2 ^ (- e).
Proof.
  intros Hq.
  pose proof (digits2_upper q 24 ltac:(lia) Hq) as D.
  assert (0 < Z.pos (digits2_pos q)) as D0 by lia.
  unfold binary_round. rewrite fexp_eq.
  replace (Z.max (Z.pos (digits2_pos q) + 0 - 24) (-149))
    with (Z.pos (digits2_pos q) - 24) by lia.
  unfold shl_align. rewrite Z.sub_0_r.
  destruct (Z.pos (digits2_pos q) - 24) as [| p | p] eqn:E; [| lia |].
  - exists q, 0.
    assert (bounded prec emax q 0 = true) as B.
    { unfold bounded, canonical_mantissa. rewrite fexp_eq.
      apply andb_true_intro; split; [apply Z.eqb_eq | apply Z.leb_le]; 
        unfold emax, prec; lia. }
    split; [apply binary_round_aux_bounded; exact B |].
    split; [exact B |]. split; [lia |]. change (2 ^ (- 0)) with 1. ring.
  - exists (Pos.iter xO q p), (Z.neg p).
    assert (bounded prec emax (Pos.iter xO q p) (Z.neg p) = true) as B.
    { unfold bounded, canonical_mantissa. rewrite fexp_eq, digits2_iter_xO.
      apply andb_true_intro; split; [apply Z.eqb_eq | apply Z.leb_le];
        unfold emax, prec; lia. }
    split; [apply binary_round_aux_bounded; exact B |].
    split; [exact B |]. split; [lia |].
    rewrite Zpos_iter_xO. reflexivity.
Qed.

Lemma f2i_trunc_word (a : Z) : is_word (f2i_trunc a).
Proof.
  unfold f2i_trunc.
  destruct (b2f a) as [s | s | | s m e]; try (unfold is_word, int_indefinite; lia).
  destruct ((- 2 ^ 31 <=? _) && _); [apply wrap_word |].
  unfold is_word, int_indefinite. lia.
Qed.

(** Truncating the float that holds the integer [cond_Zopp s q] gives
    that integer back. *)
Lemma f2i_trunc_normalize (s : bool) (q : Z) :
  0 <= q < 2 ^ 24 ->
  f2i_trunc (f2b (binary_normalize prec emax (cond_Zopp s q) 0 s))
  = wrap (cond_Zopp s q).
Proof.
  intros Hq. destruct q as [| q | q]; [| | lia].
  - destruct s; reflexivity.
  - assert (binary_normalize prec emax (cond_Zopp s (Z.pos q)) 0 s
            = binary_round prec emax s q 0) as -> by (destruct s; reflexivity).
    destruct (binary_round_small s q ltac:(lia)) as (m & e & R & B & E & V).
    rewrite R. unfold f2i_trunc. rewrite (b2f_f2b_bounded s m e B).
    assert (round_mag RTrunc s m e = Z.pos q) as ->.
    { unfold round_mag. destruct (Z.leb_spec 0 e).
      - assert (e = 0) as -> by lia. rewrite V. change (2 ^ (- 0)) with 1.
        change (2 ^ 0) with 1. ring.
      - rewrite V. apply Z.div_mul. apply Z.pow_nonzero; lia. }
    replace ((- 2 ^ 31 <=? cond_Zopp s (Z.pos q))
             && (cond_Zopp s (Z.pos q) <? 2 ^ 31)) with true; [reflexivity |].
    symmetry. apply andb_true_intro.
    split; [apply Z.leb_le | apply Z.ltb_lt]; destruct s; cbn [cond_Zopp]; lia.
Qed.

Lemma round_mag_floor (s : bool) (m : positive) (e : Z) :
  e < 0 ->
  cond_Zopp s (round_mag RFloor s m e) = cond_Zopp s (Z.pos m) / 2 ^ (- e)
  /\ 0 <= round_mag RFloor s m e <= Z.pos m.
Proof.
  intros E. unfold round_mag.
  destruct (Z.leb_spec 0 e); [lia |].
  assert (2 <= 2 ^ (- e)) as D.
  { change 2 with (2 ^ 1) at 1. apply Z.pow_le_mono_r; lia. }
  pose proof (Z.div_mod (Z.pos m) (2 ^ (- e)) ltac:(lia)) as DM.
  pose proof (Z.mod_pos_bound (Z.pos m) (2 ^ (- e)) ltac:(lia)) as MB.
  set (d := 2 ^ (- e)) in *. set (q := Z.pos m / d) in *.
  set (r := Z.pos m mod d) in *.
  assert (0 <= q) as Q by (apply Z.div_pos; lia).
  destruct s; cbn [andb cond_Zopp negb].
  - destruct (Z.eqb_spec r 0) as [R0 | R0]; cbn [negb]; split; try nia.
    + apply Z.div_unique_exact; [lia | nia].
    + apply (Z.div_unique (- Z.pos m) d (- (q + 1)) (d - r)); [lia | nia].
  - split; [reflexivity | nia].
Qed.

(** On every finite lane whose floor fits an [int], the float-to-float
    floor followed by the truncating conversion yields the floor. *)
Lemma f2i_trunc_floor (a n : Z) :
  floorZ (b2f a) = Some n -> - 2 ^ 31 <= n < 2 ^ 31 ->
  f2i_trunc (fround_int RFloor a) = wrap n.
Proof.
  intros F R. unfold fround_int, floorZ in *.
  destruct (b2f a) as [s | s | | s m e] eqn:E; try discriminate.
  - assert (n = 0) as -> by congruence. destruct s; reflexivity.
  - assert ((if 0 <=? e then cond_Zopp s (Z.pos m * 2 ^ e)
             else cond_Zopp s (Z.pos m) / 2 ^ (- e)) = n) as F' by congruence.
    clear F. pose proof (b2f_bounded a s m e E) as B.
    cbn [SFround_int]. destruct (Z.leb_spec 0 e) as [P | P].
    + unfold f2i_trunc. rewrite (b2f_f2b_bounded s m e B).
      unfold round_mag. destruct (Z.leb_spec 0 e); [| lia].
      assert (cond_Zopp s (Z.pos m * 2 ^ e) = n) as -> by exact F'.
      replace ((- 2 ^ 31 <=? n) && (n <? 2 ^ 31)) with true; [reflexivity |].
      symmetry. apply andb_true_intro. split; [apply Z.leb_le | apply Z.ltb_lt]; lia.
    + destruct (round_mag_floor s m e P) as [V Q].
      destruct (bounded_range m e B) as (Hm & _ & _).
      rewrite f2i_trunc_normalize by lia. rewrite V. f_equal. exact F'.
Qed.

(** What the SSE4.1 and scalar bodies of [floori] return on every finite
    lane whose floor fits an [int]: the floor. *)
Lemma floori_sse4_scalar_general (bk : backend) (a : float4) (k : lane) (n : Z) :
  bk = SSE4 \/ bk = Scalar ->
  floorZ (b2f (get a k)) = Some n -> - 2 ^ 31 <= n < 2 ^ 31 ->
  int4_get (floori bk a) k = n.
Proof.
  intros B F R. unfold int4_get.
  assert (get (floori bk a) k = f2i_trunc (fround_int RFloor (get a k))) as ->.
  { destruct B as [-> | ->].
    - unfold floori, int4_of_float4, float4_floor, mm_cvttps_epi32, mm_floor_ps,
             map4, build4. destruct k; reflexivity.
    - unfold floori, int4_of_ints, int4_load4, float4_get.
      destruct k; cbn [get x_ y_ z_ w_]; apply sint_wrap, f2i_trunc_word. }
  rewrite (f2i_trunc_floor _ n F R). apply sint_wrap_small. exact R.
Qed.

(** C3, the code against the claim.  [floori] is documented as
    "(int)floor".  On every finite lane whose floor [n] fits an [int] the
    SSE4.1 and scalar bodies return [n], as the claim says.  The SSE2 and
    SSSE3 body truncates and then adds the all-ones mask of [a < 0], so
    it returns [n] except on negative whole numbers, where it returns
    [n - 1]: [floori (-1.0f)] is [-2] there and [-1] on the other two
    backends, while [floori (-0.5f)] is [-1] on all four. *)
Theorem floori_negative_whole :
  (forall bk a k n,
     bk = SSE4 \/ bk = Scalar ->
     floorZ (b2f (get a k)) = Some n -> - 2 ^ 31 <= n < 2 ^ 31 ->
     int4_get (floori bk a) k = n)
  /\ (forall bk a k n,
        bk = SSE2 \/ bk = SSE3 ->
        floorZ (b2f (get a k)) = Some n -> - 2 ^ 31 < n < 2 ^ 31 ->
        int4_get (floori bk a) k
        = if flt (get a k) fzero && is_whole (b2f (get a k)) then n - 1 else n)
  /\ floori SSE2 (float4_of_float SSE2 fneg_one) = int4_of_int SSE2 (-2)
  /\ floori SSE3 (float4_of_float SSE3 fneg_one) = int4_of_int SSE3 (-2)
  /\ floori SSE4 (float4_of_float SSE4 fneg_one) = int4_of_int SSE4 (-1)
  /\ floori Scalar (float4_of_float Scalar fneg_one) = int4_of_int Scalar (-1)
  /\ (forall bk, floori bk (float4_of_float bk fneg_half) = int4_of_int bk (-1)).
Proof.
  split; [exact floori_sse4_scalar_general |].
  split; [exact floori_sse23_general |].
  split; [vm_compute; reflexivity |]. split; [vm_compute; reflexivity |].
  split; [vm_compute; reflexivity |]. split; [vm_compute; reflexivity |].
  intros bk. destruct bk; vm_compute; reflexivity.
Qed.

Lemma floori_negative_whole_witness :
  int4_get (floori SSE2 (float4_of_float SSE2 fneg_one)) L0 = -1 - 1
  /\ int4_get (floori SSE4 (float4_of_float SSE4 fneg_one)) L0 = -1.
Proof.
  split.
  - apply (proj1 (proj2 floori_negative_whole) SSE2
                 (float4_of_float SSE2 fneg_one) L0 (-1)).
    + left. reflexivity.
    + reflexivity.
    + lia.
  - apply (proj1 floori_negative_whole SSE4 (float4_of_float SSE4 fneg_one) L0 (-1)).
    + left. reflexivity.
    + reflexivity.
    + lia.
Defined.

Lemma float4_round_lane (bk : backend) (a : float4) (k : lane) :
  get (float4_round bk a) k
  = fround_int (match bk with SSE4 => RNearestEven | _ => RNearestAway end)
               (get a k).
Proof. destruct bk, k; reflexivity. Qed.

(** C4, the code at the failing input.  [round] is documented as
    rounding halves away from zero, and the scalar, SSE2 and SSSE3 bodies
    ([roundf]) do so.  The SSE4.1 body is [_mm_round_ps] with
    [_MM_FROUND_TO_NEAREST_INT], which rounds halves to the even
    neighbour: 0.5 gives 0.0, 2.5 gives 2.0, -0.5 gives -0.0.  [rint] is
    [int4 (round (a))] on every backend and inherits the difference. *)
Theorem round_ties_sse4 :
  (forall a k, get (float4_round SSE4 a) k = fround_int RNearestEven (get a k))
  /\ float4_round SSE4 (float4_of_floats SSE4 fhalf f1_5 f2_5 fneg_half)
     = float4_of_floats SSE4 fzero f2_0 f2_0 fneg_zero
  /\ rint SSE4 (float4_of_floats SSE4 fhalf f1_5 f2_5 fneg_half)
     = int4_of_ints SSE4 0 2 2 0
  /\ float4_round Scalar (float4_of_floats Scalar fhalf f1_5 f2_5 fneg_half)
     = float4_of_floats Scalar fone f2_0 f3_0 fneg_one
  /\ float4_round SSE2 (float4_of_floats SSE2 fhalf f1_5 f2_5 fneg_half)
     = float4_of_floats SSE2 fone f2_0 f3_0 fneg_one
  /\ float4_round SSE3 (float4_of_floats SSE3 fhalf f1_5 f2_5 fneg_half)
     = float4_of_floats SSE3 fone f2_0 f3_0 fneg_one
  /\ rint Scalar (float4_of_floats Scalar fhalf f1_5 f2_5 fneg_half)
     = int4_of_ints Scalar 1 2 3 (-1)
  /\ (forall bk a, rint bk a = int4_of_float4 bk (float4_round bk a)).
Proof.
  split; [intros a k; apply (float4_round_lane SSE4) |].
  split; [vm_compute; reflexivity |]. split; [vm_compute; reflexivity |].
  split; [vm_compute; reflexivity |]. split; [vm_compute; reflexivity |].
  split; [vm_compute; reflexivity |]. split; [vm_compute; reflexivity |].
  intros bk a. reflexivity.
Qed.

(** [all (mask4 (true))] and [any (mask4 (false))], on every backend. *)
Lemma all_true_any_false (bk : backend) :
  all bk (mask4_of_bool bk true) = true /\ any bk (mask4_of_bool bk false) = false
  /\ none bk (mask4_of_bool bk false) = true.
Proof. destruct bk; split; try split; vm_compute; reflexivity. Qed.

(** ** float3: normalization *)

Lemma blend0not_true_sse (bk : backend) (v : float4) :
  bk <> Scalar -> float4_blend0not bk v (splat ones) = splat 0.
Proof.
  intros N. destruct bk; [contradiction | ..];
    unfold float4_blend0not, mm_andnot, zip4, build4; cbn [get splat x_ y_ z_ w_];
    rewrite wnot_ones, !Z.land_0_l; reflexivity.
Qed.

(** ** Signed zeros and values that survive adding them *)

Lemma join_bits_zero (s : bool) : zero_bits (join_bits s 0 0).
Proof. destruct s; [right | left]; reflexivity. Qed.

Lemma b2f_zero_bits (w : Z) : zero_bits w -> exists s, b2f w = S754_zero s.
Proof. intros [-> | ->]; eexists; reflexivity. Qed.

Lemma finite_cases (x : Z) :
  is_word x -> is_finite x = true ->
  zero_bits x \/ exists s m e, b2f x = S754_finite s m e.
Proof.
  intros W F. pose proof (f2b_b2f x W (is_finite_not_nan x F)) as R.
  unfold is_finite in F. destruct (b2f x) as [s | s | | s m e]; try discriminate.
  - left. rewrite <- R. apply join_bits_zero.
  - right. eauto.
Qed.

Lemma fmul_zero (x : Z) : is_finite x = true -> zero_bits (fmul x fzero).
Proof.
  intros F. unfold fmul. rewrite b2f_fzero. unfold is_finite in F.
  destruct (b2f x) as [s | s | | s m e]; try discriminate;
    cbn [SFmul f2b]; apply join_bits_zero.
Qed.

Lemma fadd_zero_zero (u v : Z) : zero_bits u -> zero_bits v -> zero_bits (fadd u v).
Proof. intros [-> | ->] [-> | ->]; vm_compute; auto. Qed.

Lemma fdiv_zero_one (u : Z) : zero_bits u -> zero_bits (fdiv u fone).
Proof. intros [-> | ->]; vm_compute; auto. Qed.

Lemma fadd_zero_one (u : Z) : zero_bits u -> fadd u fone = fone.
Proof. intros [-> | ->]; reflexivity. Qed.

Lemma fadd_finite_zero (x u : Z) (s : bool) (m : positive) (e : Z) :
  is_word x -> b2f x = S754_finite s m e -> zero_bits u ->
  fadd x u = x /\ fadd u x = x.
Proof.
  intros W E Z0. destruct (b2f_zero_bits u Z0) as [su Eu].
  assert (f2b (b2f x) = x) as R.
  { apply f2b_b2f; [exact W |]. unfold is_nan. rewrite E. reflexivity. }
  unfold fadd. rewrite Eu, E. cbn [SFadd]. rewrite <- E. auto.
Qed.

Lemma near_refl (x : Z) : near x x.
Proof. left. reflexivity. Qed.

Lemma near_add_zero_r (a x u : Z) :
  is_word x -> is_finite x = true -> near a x -> zero_bits u -> near (fadd a u) x.
Proof.
  intros W F [-> | [Za Zx]] Zu.
  - destruct (finite_cases x W F) as [Zx | (s & m & e & E)].
    + right. split; [apply fadd_zero_zero |]; assumption.
    + left. apply (fadd_finite_zero x u s m e W E Zu).
  - right. split; [apply fadd_zero_zero |]; assumption.
Qed.

Lemma near_add_zero_l (a x u : Z) :
  is_word x -> is_finite x = true -> near a x -> zero_bits u -> near (fadd u a) x.
Proof.
  intros W F [-> | [Za Zx]] Zu.
  - destruct (finite_cases x W F) as [Zx | (s & m & e & E)].
    + right. split; [apply fadd_zero_zero |]; assumption.
    + left. apply (fadd_finite_zero x u s m e W E Zu).
  - right. split; [apply fadd_zero_zero |]; assumption.
Qed.

Lemma near_div_one (a x : Z) :
  is_word x -> is_finite x = true -> near a x -> near (fdiv a fone) x.
Proof.
  intros W F [-> | [Za Zx]].
  - left. apply fdiv_one; assumption.
  - right. split; [apply fdiv_zero_one |]; assumption.
Qed.

Lemma SFeqb_refl_finite (X : spec_float) :
  match X with S754_zero _ | S754_finite _ _ _ => true | _ => false end = true ->
  SFeqb X X = true.
Proof.
  destruct X as [s | s | | s m e]; try discriminate; intros _; unfold SFeqb.
  - reflexivity.
  - cbn [SFcompare]. rewrite Z.compare_refl.
    assert (Pos.compare_cont Eq m m = Eq) as -> by apply Pos.compare_refl.
    destruct s; reflexivity.
Qed.

Lemma near_feq (a x : Z) : is_finite x = true -> near a x -> feq a x = true.
Proof.
  intros F [-> | [[-> | ->] [-> | ->]]]; try reflexivity.
  unfold feq. apply SFeqb_refl_finite. exact F.
Qed.

(** ** float3 division *)

Lemma xyz1_put (bk : backend) (b : float4) : xyz1 bk b = put b L3 fone.
Proof. destruct bk; reflexivity. Qed.

(** C7, as the code has it.  On every backend [a / b] for [float3]
    divides by [b] with its fourth lane replaced by [1.0f]; lanes 0..2 of
    the result are [a[k] / b[k]]; the padding lane of the result does not
    depend on [b]: it is [+0.0f] on the scalar backend and [a[3] / 1.0f]
    on the SSE backends, which is [a[3]] itself, hence finite, whenever
    the padding lane of [a] is finite. *)
Theorem float3_div_divisor (bk : backend) (a b : float3) :
  float3_div bk a b = float3_of_float4 bk (float4_div bk a (put b L3 fone))
  /\ (forall k, k <> L3 -> get (float3_div bk a b) k = fdiv (get a k) (get b k))
  /\ get (float3_div bk a b) L3
     = (if OIIO_SIMD bk then fdiv (get a L3) fone else fzero)
  /\ (is_word (get a L3) -> is_finite (get a L3) = true ->
      is_finite (get (float3_div bk a b) L3) = true
      /\ get (float3_div bk a b) L3 = (if OIIO_SIMD bk then get a L3 else fzero)).
Proof.
  assert (get (float3_div bk a b) L3
          = (if OIIO_SIMD bk then fdiv (get a L3) fone else fzero)) as P
    by (destruct bk; reflexivity).
  split; [unfold float3_div; rewrite xyz1_put; reflexivity |].
  split; [intros k N; destruct bk, k; try reflexivity; contradiction |].
  split; [exact P |].
  intros W F. rewrite P. destruct (OIIO_SIMD bk).
  - rewrite fdiv_one by assumption. split; [exact F | reflexivity].
  - split; reflexivity.
Qed.

Lemma float3_div_divisor_witness :
  is_finite (get (float3_div SSE4 (mk4 fone f2_0 f3_0 fhalf)
                                  (mk4 f2_0 f2_0 f2_0 fzero)) L3) = true.
Proof.
  apply (proj2 (proj2 (proj2 (float3_div_divisor SSE4 (mk4 fone f2_0 f3_0 fhalf)
                                                 (mk4 f2_0 f2_0 f2_0 fzero))))).
  - unfold is_word. vm_compute. split; [discriminate | reflexivity].
  - reflexivity.
Defined.

(** C7, as stated, fails on the SSE backends.  The dividend's own padding
    lane is divided by [1.0f] and passed on: with [+Inf] in the padding
    lane of [a] the padding lane of [a / b] is [+Inf]. *)
Lemma float3_div_padding_inf :
  is_inf (get (float3_div SSE4 (mk4 fone f2_0 f3_0 finf)
                               (mk4 f2_0 f2_0 f2_0 fzero)) L3) = true
  /\ is_inf (get (float3_div SSE2 (mk4 fone f2_0 f3_0 finf)
                                  (mk4 f2_0 f2_0 f2_0 fzero)) L3) = true.
Proof. split; vm_compute; reflexivity. Qed.

(** ** matrix44: transforming a point by the identity *)

Lemma transformp_identity_lanes (bk : backend) (V : float3) :
  let x := get V L0 in let y := get V L1 in let z := get V L2 in
  let w := point_col x y z fzero fzero fzero fone in
  transformp bk (identity_rows bk) V
  = mk4 (fdiv (point_col x y z fone fzero fzero fzero) w)
        (fdiv (point_col x y z fzero fone fzero fzero) w)
        (fdiv (point_col x y z fzero fzero fone fzero) w)
        fzero.
Proof.
  destruct bk;
    unfold transformp, identity_rows, matrix44_of_rows, multVecMatrix,
           float3_of_floats, float3_of_float4, xyz0, float4_insert,
           float4_of_floats, float4_load4, mm_set_ps, mm_insert_ps, mm_set_ss,
           float4_add, float4_mul, float4_div, float4_shuffle1, float4_shuffle,
           shuffle_sse, mm_add_ps, mm_mul_ps, mm_div_ps, zip4, SIMD_float,
           build4, float4_get, point_col;
    cbn [row0 row1 row2 row3 get put x_ y_ z_ w_]; reflexivity.
Qed.

Section IdentityColumns.
Variables x y z : Z.
Hypothesis Wx : is_word x.
Hypothesis Wy : is_word y.
Hypothesis Wz : is_word z.
Hypothesis Fx : is_finite x = true.
Hypothesis Fy : is_finite y = true.
Hypothesis Fz : is_finite z = true.

Lemma point_col_w : point_col x y z fzero fzero fzero fone = fone.
Proof.
  unfold point_col. apply fadd_zero_one.
  repeat apply fadd_zero_zero; apply fmul_zero; assumption.
Qed.

Lemma point_col_x : near (point_col x y z fone fzero fzero fzero) x.
Proof.
  unfold point_col. rewrite fmul_one by assumption.
  apply near_add_zero_r; [exact Wx | exact Fx | | left; reflexivity].
  apply near_add_zero_r; [exact Wx | exact Fx | | apply fmul_zero; exact Fz].
  apply near_add_zero_r; [exact Wx | exact Fx | | apply fmul_zero; exact Fy].
  apply near_refl.
Qed.

Lemma point_col_y : near (point_col x y z fzero fone fzero fzero) y.
Proof.
  unfold point_col. rewrite (fmul_one y) by assumption.
  apply near_add_zero_r; [exact Wy | exact Fy | | left; reflexivity].
  apply near_add_zero_r; [exact Wy | exact Fy | | apply fmul_zero; exact Fz].
  apply near_add_zero_l; [exact Wy | exact Fy | | apply fmul_zero; exact Fx].
  apply near_refl.
Qed.

Lemma point_col_z : near (point_col x y z fzero fzero fone fzero) z.
Proof.
  unfold point_col. rewrite (fmul_one z) by assumption.
  apply near_add_zero_r; [exact Wz | exact Fz | | left; reflexivity].
  apply near_add_zero_l; [exact Wz | exact Fz | apply near_refl |].
  apply fadd_zero_zero; apply fmul_zero; assumption.
Qed.
End IdentityColumns.

(** C8, as the code has it.  On every backend, for the matrix built from
    the four rows of the identity and every point [V] whose three
    components are finite floats, [transformp (V)] equals [V] component
    by component under float equality (a zero may change its sign); the
    body forms the homogeneous point, whose fourth lane comes out as
    exactly [1.0f], and divides by that lane. *)
Theorem transformp_identity (bk : backend) (V : float3) (k : lane) :
  wf4 V ->
  is_finite (get V L0) = true -> is_finite (get V L1) = true ->
  is_finite (get V L2) = true ->
  k <> L3 ->
  feq (get (transformp bk (identity_rows bk) V) k) (get V k) = true
  /\ get (transformp bk (identity_rows bk) V) L3 = fzero.
Proof.
  intros W F0 F1 F2 N.
  pose proof (W L0) as W0. pose proof (W L1) as W1. pose proof (W L2) as W2.
  pose proof (transformp_identity_lanes bk V) as E. cbv zeta in E. rewrite E.
  rewrite (point_col_w _ _ _ F0 F1 F2).
  split; [| reflexivity].
  destruct k; cbn [get x_ y_ z_ w_]; try contradiction;
    apply near_feq; try assumption; apply near_div_one; try assumption.
  - apply point_col_x; assumption.
  - apply point_col_y; assumption.
  - apply point_col_z; assumption.
Qed.

Lemma transformp_identity_witness :
  feq (get (transformp SSE4 (identity_rows SSE4) (mk4 f2_5 fneg_half fneg_zero 7)) L2)
      fneg_zero = true.
Proof.
  apply (transformp_identity SSE4 (mk4 f2_5 fneg_half fneg_zero 7) L2).
  - apply wf4_intro; unfold is_word; vm_compute; split; congruence.
  - reflexivity.
  - reflexivity.
  - reflexivity.
  - discriminate.
Defined.

(** C8, as stated, fails.  With an infinite component the products with
    the zeros of the identity are NaN: for [V = (+Inf, 0.5, -1)] the
    components of [transformp (V)] are NaN and do not equal those of [V],
    on the SSE backends and through the external routine alike. *)
Lemma transformp_identity_inf :
  feq (get (transformp SSE4 (identity_rows SSE4)
              (float3_of_floats SSE4 finf fhalf fneg_one)) L0) finf = false
  /\ is_nan (get (transformp SSE4 (identity_rows SSE4)
                    (float3_of_floats SSE4 finf fhalf fneg_one)) L1) = true
  /\ feq (get (transformp Scalar (identity_rows Scalar)
                 (float3_of_floats Scalar finf fhalf fneg_one)) L1) fhalf = false.
Proof.
  split; [vm_compute; reflexivity |]. split; vm_compute; reflexivity.
Qed.

(* ------------------------------------------------------------------ *)
(** ** int4: arithmetic modulo 2^32 *)

Lemma sint_mod32 (w : Z) : sint w mod 2 ^ 32 = w mod 2 ^ 32.
Proof. apply sint_mod. lia. Qed.

Lemma wrap_sint (w : Z) : wrap (sint w) = wrap w.
Proof. apply sint_mod32. Qed.

Lemma wrap_add_sint (a b : Z) : wrap (sint a + sint b) = wrap (a + b).
Proof.
  unfold wrap. rewrite Zplus_mod, !sint_mod32, <- Zplus_mod. reflexivity.
Qed.

Lemma wrap_sub_sint (a b : Z) : wrap (sint a - sint b) = wrap (a - b).
Proof.
  unfold wrap. rewrite Zminus_mod, !sint_mod32, <- Zminus_mod. reflexivity.
Qed.

Lemma wrap_mul_sint (a b : Z) : wrap (sint a * sint b) = wrap (a * b).
Proof.
  unfold wrap. rewrite Zmult_mod, !sint_mod32, <- Zmult_mod. reflexivity.
Qed.

Lemma wrap_opp_sint (a : Z) : wrap (- sint a) = wrap (0 - a).
Proof.
  replace (- sint a) with (0 - sint a) by ring.
  unfold wrap. rewrite Zminus_mod, sint_mod32, <- Zminus_mod. reflexivity.
Qed.

(** The product emulation that precedes SSE4.1 delivers the low 32 bits
    of each lane's product. *)
Lemma mm_mul_epi32_lane (bk : backend) (a b : vec4) (k : lane) :
  get (mm_mul_epi32 bk a b) k = wrap (get a k * get b k).
Proof. destruct bk, k; reflexivity. Qed.

(** On every backend the sum, difference, product and negation of [int4]
    values are taken lane by lane on the [int] values and wrap modulo
    2^32; in particular [extract<k> (a + b)] is the wrapped sum of
    [extract<k> (a)] and [extract<k> (b)], and the shuffled
    [_mm_mul_epu32] emulation of the product agrees with
    [_mm_mullo_epi32] and with the scalar loop. *)
Theorem int4_arith_wraps (bk : backend) (a b : int4) (k : lane) :
  get (int4_add bk a b) k = wrap (int4_get a k + int4_get b k)
  /\ get (int4_sub bk a b) k = wrap (int4_get a k - int4_get b k)
  /\ get (int4_mul bk a b) k = wrap (int4_get a k * int4_get b k)
  /\ get (int4_neg bk a) k = wrap (- int4_get a k).
Proof.
  unfold int4_get. rewrite wrap_add_sint, wrap_sub_sint, wrap_mul_sint, wrap_opp_sint.
  split; [destruct bk, k; try reflexivity; apply wrap_add_sint |].
  split; [destruct bk, k; try reflexivity; apply wrap_sub_sint |].
  split.
  - destruct bk; [destruct k; apply wrap_mul_sint | apply mm_mul_epi32_lane ..].
  - destruct bk, k; try reflexivity; apply wrap_opp_sint.
Qed.
(* ------------------------------------------------------------------ *)
(** ** int4: bitwise operators and rotation *)

Lemma testbit_word_high (a i : Z) : is_word a -> 32 <= i -> Z.testbit a i = false.
Proof.
  intros W H. rewrite <- (Z.mod_small a (2 ^ 32)) by exact W.
  apply Z.mod_pow2_bits_high. lia.
Qed.

Lemma testbit_sint (a i : Z) : 0 <= i < 32 -> Z.testbit (sint a) i = Z.testbit a i.
Proof.
  intros H.
  rewrite <- (Z.mod_pow2_bits_low (sint a) 32 i) by lia.
  rewrite <- (Z.mod_pow2_bits_low a 32 i) by lia.
  rewrite sint_mod32. reflexivity.
Qed.

(** A bitwise operator applied to the [int] values and stored back is the
    operator applied to the bit patterns. *)
Lemma wrap_bitop (f : Z -> Z -> Z) (fb : bool -> bool -> bool) (a b : Z) :
  (forall p q i, 0 <= i -> Z.testbit (f p q) i = fb (Z.testbit p i) (Z.testbit q i)) ->
  fb false false = false ->
  is_word a -> is_word b -> wrap (f (sint a) (sint b)) = f a b.
Proof.
  intros F F0 Wa Wb. apply Z.bits_inj'. intros i Hi. unfold wrap.
  destruct (Z.ltb_spec i 32).
  - rewrite Z.mod_pow2_bits_low by lia.
    rewrite !F by lia. rewrite !testbit_sint by lia. reflexivity.
  - rewrite Z.mod_pow2_bits_high by lia.
    rewrite F by lia. rewrite !testbit_word_high by assumption. symmetry. exact F0.
Qed.

Lemma int4_or_lane (bk : backend) (a b : int4) (k : lane) :
  wf4 a -> wf4 b -> get (int4_or bk a b) k = Z.lor (get a k) (get b k).
Proof.
  intros Wa Wb. destruct bk; [| destruct k; reflexivity ..].
  pose proof (Wa k) as Ha. pose proof (Wb k) as Hb.
  destruct k; cbn [int4_or SIMD_int build4 get x_ y_ z_ w_] in *; unfold int4_get;
    cbn [get x_ y_ z_ w_];
    apply (wrap_bitop Z.lor orb); try reflexivity; try assumption;
    intros; apply Z.lor_spec.
Qed.

Lemma int4_and_lane (bk : backend) (a b : int4) (k : lane) :
  wf4 a -> wf4 b -> get (int4_and bk a b) k = Z.land (get a k) (get b k).
Proof.
  intros Wa Wb. destruct bk; [| destruct k; reflexivity ..].
  pose proof (Wa k) as Ha. pose proof (Wb k) as Hb.
  destruct k; cbn [int4_and SIMD_int build4 get x_ y_ z_ w_] in *; unfold int4_get;
    cbn [get x_ y_ z_ w_];
    apply (wrap_bitop Z.land andb); try reflexivity; try assumption;
    intros; apply Z.land_spec.
Qed.

Lemma int4_xor_lane (bk : backend) (a b : int4) (k : lane) :
  wf4 a -> wf4 b -> get (int4_xor bk a b) k = Z.lxor (get a k) (get b k).
Proof.
  intros Wa Wb. destruct bk; [| destruct k; reflexivity ..].
  pose proof (Wa k) as Ha. pose proof (Wb k) as Hb.
  destruct k; cbn [int4_xor SIMD_int build4 get x_ y_ z_ w_] in *; unfold int4_get;
    cbn [get x_ y_ z_ w_];
    apply (wrap_bitop Z.lxor xorb); try reflexivity; try assumption;
    intros; apply Z.lxor_spec.
Qed.

Lemma int4_shl_lane (bk : backend) (x : int4) (n : Z) (k : lane) :
  0 <= n <= 31 -> get (int4_shl bk x n) k = wrap (get x k * 2 ^ n).
Proof.
  intros H.
  assert (forall p, wrap (Z.shiftl (sint p) n) = wrap (p * 2 ^ n)) as S.
  { intros p. rewrite Z.shiftl_mul_pow2 by lia. unfold wrap.
    rewrite Zmult_mod, sint_mod32, <- Zmult_mod. reflexivity. }
  assert (forall p, (if 31 <? n then 0 else wrap (Z.shiftl p n)) = wrap (p * 2 ^ n)) as T.
  { intros p. destruct (Z.ltb_spec 31 n); [lia |].
    rewrite Z.shiftl_mul_pow2 by lia. reflexivity. }
  destruct bk, k;
    cbn [int4_shl SIMD_int mm_slli_epi32 map4 build4 get x_ y_ z_ w_];
    unfold int4_get; cbn [get x_ y_ z_ w_]; (apply S || apply T).
Qed.

Lemma int4_srl_lane (bk : backend) (x : int4) (n : Z) (k : lane) :
  wf4 x -> 0 <= n <= 31 -> get (int4_srl bk x n) k = get x k / 2 ^ n.
Proof.
  intros W H. pose proof (W k) as Wk. unfold is_word in Wk.
  assert (0 < 2 ^ n) as P by (apply Z.pow_pos_nonneg; lia).
  assert (0 <= get x k / 2 ^ n < 2 ^ 32) as R.
  { split; [apply Z.div_pos; lia |].
    apply Z.le_lt_trans with (get x k); [| lia].
    apply Z.div_le_upper_bound; nia. }
  assert (wrap (Z.shiftr (get x k) n) = get x k / 2 ^ n) as S.
  { rewrite Z.shiftr_div_pow2 by lia. apply Z.mod_small. exact R. }
  assert ((if 31 <? n then 0 else Z.shiftr (get x k) n) = get x k / 2 ^ n) as T.
  { destruct (Z.ltb_spec 31 n); [lia |]. apply Z.shiftr_div_pow2. lia. }
  destruct bk, k;
    cbn [int4_srl SIMD_int mm_srli_epi32 map4 build4 get x_ y_ z_ w_] in *;
    (exact S || exact T).
Qed.

Lemma wf4_build4 (f : lane -> Z) : (forall i, is_word (f i)) -> wf4 (build4 f).
Proof. intros H k. destruct k; apply H. Qed.

Lemma int4_shl_wf (bk : backend) (x : int4) (n : Z) :
  0 <= n <= 31 -> wf4 (int4_shl bk x n).
Proof. intros H k. rewrite int4_shl_lane by exact H. apply wrap_word. Qed.

Lemma int4_srl_wf (bk : backend) (x : int4) (n : Z) :
  wf4 x -> 0 <= n <= 31 -> wf4 (int4_srl bk x n).
Proof.
  intros W H k. rewrite int4_srl_lane by assumption.
  pose proof (W k) as Wk. unfold is_word in *.
  assert (0 < 2 ^ n) as P by (apply Z.pow_pos_nonneg; lia).
  split; [apply Z.div_pos; lia |].
  apply Z.le_lt_trans with (get x k); [| lia].
  apply Z.div_le_upper_bound; nia.
Qed.

Lemma rotl32_lane (bk : backend) (x : int4) (k : Z) (i : lane) :
  wf4 x -> 0 < k < 32 ->
  get (rotl32 bk x k) i
  = (get x i mod 2 ^ (32 - k)) * 2 ^ k + get x i / 2 ^ (32 - k).
Proof.
  intros W H. unfold rotl32.
  rewrite int4_or_lane by (apply int4_shl_wf || apply int4_srl_wf; (assumption || lia)).
  rewrite int4_shl_lane, int4_srl_lane by (assumption || lia).
  pose proof (W i) as Wi. unfold is_word in Wi.
  assert (2 ^ 32 = 2 ^ (32 - k) * 2 ^ k) as P
    by (rewrite <- Z.pow_add_r by lia; f_equal; lia).
  assert (0 < 2 ^ k) as Pk by (apply Z.pow_pos_nonneg; lia).
  assert (0 < 2 ^ (32 - k)) as Pk' by (apply Z.pow_pos_nonneg; lia).
  unfold wrap. rewrite P, Z.mul_mod_distr_r by lia.
  rewrite Z.lor_comm. rewrite lor_disjoint; [ring | lia |].
  split; [apply Z.div_pos; lia |].
  apply Z.div_lt_upper_bound; lia.
Qed.

(** For a count [k] strictly between 0 and 32, on every backend,
    [rotl32 (x, k)] is a true rotation of each 32-bit lane: the low
    [32 - k] bits move up by [k] and the high [k] bits reappear at the
    bottom; rotating on by [32 - k] gives [x] back. *)
Theorem rotl32_rotates (bk : backend) (x : int4) (k : Z) (i : lane) :
  wf4 x -> 0 < k < 32 ->
  get (rotl32 bk x k) i
  = (get x i mod 2 ^ (32 - k)) * 2 ^ k + get x i / 2 ^ (32 - k)
  /\ rotl32 bk (rotl32 bk x k) (32 - k) = x.
Proof.
  intros W H. split; [apply rotl32_lane; assumption |].
  assert (forall j, 0 <= (get x j mod 2 ^ (32 - k)) * 2 ^ k + get x j / 2 ^ (32 - k)
                    < 2 ^ 32 /\
                    ((get x j mod 2 ^ (32 - k)) * 2 ^ k + get x j / 2 ^ (32 - k))
                      mod 2 ^ k = get x j / 2 ^ (32 - k) /\
                    ((get x j mod 2 ^ (32 - k)) * 2 ^ k + get x j / 2 ^ (32 - k))
                      / 2 ^ k = get x j mod 2 ^ (32 - k)) as F.
  { intros j. pose proof (W j) as Wj. unfold is_word in Wj.
    assert (2 ^ 32 = 2 ^ (32 - k) * 2 ^ k) as P
      by (rewrite <- Z.pow_add_r by lia; f_equal; lia).
    assert (0 < 2 ^ k) as Pk by (apply Z.pow_pos_nonneg; lia).
    assert (0 < 2 ^ (32 - k)) as Pk' by (apply Z.pow_pos_nonneg; lia).
    pose proof (Z.mod_pos_bound (get x j) (2 ^ (32 - k)) Pk') as M.
    assert (0 <= get x j / 2 ^ (32 - k) < 2 ^ k) as D.
    { split; [apply Z.div_pos; lia |]. apply Z.div_lt_upper_bound; lia. }
    set (lo := get x j mod 2 ^ (32 - k)) in *.
    set (hi := get x j / 2 ^ (32 - k)) in *.
    split; [rewrite P; nia |]. split.
    - rewrite Z.add_comm, Z.mod_add by lia. apply Z.mod_small. exact D.
    - rewrite Z.add_comm, Z.div_add by lia. rewrite Z.div_small by exact D. ring. }
  assert (wf4 (rotl32 bk x k)) as W'.
  { intros j. rewrite rotl32_lane by assumption. apply F. }
  apply vec4_ext. intros j.
  rewrite rotl32_lane by (assumption || lia).
  replace (32 - (32 - k)) with k by ring.
  rewrite rotl32_lane by assumption.
  destruct (F j) as (_ & F1 & F2). rewrite F1, F2.
  pose proof (Z.div_mod (get x j) (2 ^ (32 - k))
                ltac:(apply Z.pow_nonzero; lia)). lia.
Qed.

Lemma rotl32_rotates_witness :
  rotl32 SSE2 (rotl32 SSE2 (mk4 1 0x80000001 0xdeadbeef 0) 8) (32 - 8)
  = mk4 1 0x80000001 0xdeadbeef 0.
Proof.
  apply (rotl32_rotates SSE2 (mk4 1 0x80000001 0xdeadbeef 0) 8 L0).
  - apply wf4_intro; unfold is_word; lia.
  - lia.
Defined.
(* ------------------------------------------------------------------ *)
(** ** int4: horizontal reductions *)

Lemma sint_decomp (a : Z) : exists c, sint a = a + c * 2 ^ 32.
Proof.
  unfold sint. destruct (a <? 2 ^ 31); [exists 0 | exists (-1)]; ring.
Qed.

Lemma wrap_decomp (z : Z) : exists c, wrap z = z + c * 2 ^ 32.
Proof.
  exists (- (z / 2 ^ 32)). unfold wrap.
  pose proof (Z.div_mod z (2 ^ 32) ltac:(discriminate)). lia.
Qed.

Lemma wrap_eq_mod (a b c : Z) : a = b + c * 2 ^ 32 -> wrap a = wrap b.
Proof. intros ->. unfold wrap. apply Z.mod_add. discriminate. Qed.

Lemma wrap_sum4_sint (a b c d : Z) :
  wrap (sint a + sint b + sint c + sint d) = wrap (a + b + c + d).
Proof.
  destruct (sint_decomp a) as [ca ->], (sint_decomp b) as [cb ->],
           (sint_decomp c) as [cc ->], (sint_decomp d) as [cd ->].
  apply wrap_eq_mod with (ca + cb + cc + cd). ring.
Qed.

Lemma wrap_add_wrap2 (a b : Z) : wrap (wrap a + wrap b) = wrap (a + b).
Proof.
  destruct (wrap_decomp a) as [ca ->], (wrap_decomp b) as [cb ->].
  apply wrap_eq_mod with (ca + cb). ring.
Qed.

Lemma int4_vreduce_add_lane (bk : backend) (v : int4) (k : lane) :
  get (int4_vreduce_add bk v) k
  = wrap (int4_get v L0 + int4_get v L1 + int4_get v L2 + int4_get v L3).
Proof.
  unfold int4_get. rewrite wrap_sum4_sint. destruct v as [a b c d].
  cbn [get x_ y_ z_ w_].
  destruct bk, k;
    cbn [int4_vreduce_add int4_of_int int4_load1 SIMD_int build4 mm_hadd_epi32
         int4_add mm_add_epi32 zip4 int4_shuffle shuffle_sse int4_get
         get x_ y_ z_ w_];
    unfold int4_get; cbn [get x_ y_ z_ w_];
    rewrite ?wrap_sum4_sint, ?wrap_add_wrap2; f_equal; ring.
Qed.

(** On every backend [vreduce_add] puts in all four lanes, and
    [reduce_add] returns, the sum of the four lanes as an [int] wrapped to
    32 bits: the two horizontal adds (SSE3 and later), the shuffle-and-add
    sequence (SSE2) and the scalar loop agree. *)
Theorem int4_reduce_add_sum (bk : backend) (v : int4) (k : lane) :
  get (int4_vreduce_add bk v) k
  = wrap (int4_get v L0 + int4_get v L1 + int4_get v L2 + int4_get v L3)
  /\ int4_reduce_add bk v
     = sint (wrap (int4_get v L0 + int4_get v L1 + int4_get v L2 + int4_get v L3)).
Proof.
  split; [apply int4_vreduce_add_lane |].
  destruct bk; [reflexivity | ..]; unfold int4_reduce_add;
    change (x_ ?u) with (get u L0); rewrite int4_vreduce_add_lane; reflexivity.
Qed.

(* ------------------------------------------------------------------ *)
(** ** int4: loads from and stores to 16-bit and 8-bit integers *)

Lemma int4_store_ushort_lane (bk : backend) (v : int4) (k : lane) :
  get (int4_store_ushort bk v) k = get v k mod 2 ^ 16.
Proof.
  destruct (backend_eq_dec bk Scalar) as [-> | N].
  - cbn [int4_store_ushort]. unfold int4_get.
    destruct k; cbn [build4 get x_ y_ z_ w_]; apply sint_mod; lia.
  - rewrite int4_store_ushort_sse by exact N. destruct k; reflexivity.
Qed.

Lemma int4_store_uchar_lane (bk : backend) (v : int4) (k : lane) :
  get (int4_store_uchar bk v) k = get v k mod 2 ^ 8.
Proof.
  destruct (backend_eq_dec bk Scalar) as [-> | N].
  - cbn [int4_store_uchar]. unfold int4_get.
    destruct k; cbn [build4 get x_ y_ z_ w_]; apply sint_mod; lia.
  - rewrite int4_store_uchar_sse by exact N. destruct k; reflexivity.
Qed.

Lemma narrow4_lanes (n : Z) (v : vec4) :
  narrow4 n v ->
  0 <= x_ v < 2 ^ n /\ 0 <= y_ v < 2 ^ n /\ 0 <= z_ v < 2 ^ n /\ 0 <= w_ v < 2 ^ n.
Proof.
  intros H. exact (conj (H L0) (conj (H L1) (conj (H L2) (H L3)))).
Qed.

Lemma load_sd_16_halves (values : vec4) (k : lane) :
  narrow4 16 values ->
  half (mm_load_sd_16 values) (lane_index k) = get values k.
Proof.
  intros H. destruct (narrow4_lanes _ _ H) as (Hx & Hy & Hz & Hw).
  destruct k; cbn [lane_index half mm_load_sd_16 get x_ y_ z_ w_].
  - apply lo16_join16; assumption.
  - apply hi16_join16; assumption.
  - apply lo16_join16; assumption.
  - apply hi16_join16; assumption.
Qed.

Lemma load_ss_8_bytes (values : vec4) (k : lane) :
  narrow4 8 values ->
  byte_of (x_ (mm_load_ss_8 values)) (lane_index k) = get values k.
Proof.
  intros H. destruct (narrow4_lanes _ _ H) as (Hx & Hy & Hz & Hw).
  change (2 ^ 8) with 256 in Hx, Hy, Hz, Hw.
  pose proof (byte_of_sum _ _ _ _ Hx Hy Hz Hw) as Q. cbv zeta in Q.
  destruct Q as (Q0 & Q1 & Q2 & Q3).
  destruct k; cbn [lane_index mm_load_ss_8 get x_ y_ z_ w_];
    change (2 ^ 8) with 256; change (2 ^ 16) with 65536;
    change (2 ^ 24) with 16777216; assumption.
Qed.

Lemma int4_load_ushort_lane (bk : backend) (values : vec4) (k : lane) :
  narrow4 16 values -> get (int4_load_ushort bk values) k = get values k.
Proof.
  intros H.
  assert (wrap (get values k) = get values k) as S.
  { apply wrap_small. pose proof (H k). unfold is_word.
    change (2 ^ 16) with 65536 in *. change (2 ^ 32) with 4294967296. lia. }
  pose proof (load_sd_16_halves values k H) as Q.
  destruct bk, k; cbn [int4_load_ushort SIMD_int build4 mm_cvtepu16_epi32
                       get x_ y_ z_ w_ lane_index] in *; assumption.
Qed.

Lemma int4_load_uchar_lane (bk : backend) (values : vec4) (k : lane) :
  narrow4 8 values -> get (int4_load_uchar bk values) k = get values k.
Proof.
  intros H.
  assert (wrap (get values k) = get values k) as S.
  { apply wrap_small. pose proof (H k). unfold is_word.
    change (2 ^ 8) with 256 in *. change (2 ^ 32) with 4294967296. lia. }
  pose proof (load_ss_8_bytes values k H) as Q.
  destruct bk, k; cbn [int4_load_uchar SIMD_int build4 mm_cvtepu8_epi32
                       get x_ y_ z_ w_ lane_index] in *; assumption.
Qed.

Lemma int4_load_short_lane (bk : backend) (values : vec4) (k : lane) :
  narrow4 16 values ->
  get (int4_load_short bk values) k = wrap (sext 16 (get values k)).
Proof.
  intros H. pose proof (load_sd_16_halves values k H) as Q.
  destruct bk, k; cbn [int4_load_short SIMD_int build4 mm_cvtepi16_epi32
                       get x_ y_ z_ w_ lane_index] in *;
    rewrite ?Q; reflexivity.
Qed.

Lemma int4_load_char_lane (bk : backend) (values : vec4) (k : lane) :
  narrow4 8 values ->
  get (int4_load_char bk values) k = wrap (sext 8 (get values k)).
Proof.
  intros H. pose proof (load_ss_8_bytes values k H) as Q.
  destruct bk, k; cbn [int4_load_char SIMD_int build4 mm_cvtepi8_epi32
                       get x_ y_ z_ w_ lane_index] in *;
    rewrite ?Q; reflexivity.
Qed.

Lemma wrap_mod_pow (z n : Z) : 0 <= n <= 32 -> wrap z mod 2 ^ n = z mod 2 ^ n.
Proof.
  intros Hn. destruct (wrap_decomp z) as [c ->].
  replace (2 ^ 32) with (2 ^ (32 - n) * 2 ^ n)
    by (rewrite <- Z.pow_add_r by lia; f_equal; ring).
  rewrite Z.mul_assoc. apply Z.mod_add. apply Z.pow_nonzero; lia.
Qed.

Lemma sext_range (n w : Z) :
  0 < n -> 0 <= w < 2 ^ n -> - 2 ^ (n - 1) <= sext n w < 2 ^ (n - 1).
Proof.
  intros Hn H. unfold sext.
  assert (2 ^ n = 2 * 2 ^ (n - 1)) as P.
  { replace n with (1 + (n - 1)) at 1 by ring.
    rewrite Z.pow_add_r by lia. reflexivity. }
  destruct (Z.ltb_spec w (2 ^ (n - 1))); lia.
Qed.

Lemma sext_mod (n w : Z) : 0 < n -> 0 <= w < 2 ^ n -> sext n w mod 2 ^ n = w.
Proof.
  intros Hn H. unfold sext. destruct (w <? 2 ^ (n - 1)).
  - apply Z.mod_small. exact H.
  - replace (w - 2 ^ n) with (w + (-1) * 2 ^ n) by ring.
    rewrite Z.mod_add by (apply Z.pow_nonzero; lia). apply Z.mod_small. exact H.
Qed.

(** Storing as [unsigned short] (or [unsigned char]) what was loaded from
    four [unsigned short]s (or [unsigned char]s) gives the same four
    values back, and the loaded lanes are the values zero-extended, on
    every backend: the SSE4.1 widening loads and the SSE packing stores are
    inverse to each other. *)
Theorem int4_unsigned_narrow_round_trip (bk : backend) (values : vec4) :
  (narrow4 16 values ->
     (forall k, int4_get (int4_load_ushort bk values) k = get values k)
     /\ int4_store_ushort bk (int4_load_ushort bk values) = values)
  /\ (narrow4 8 values ->
     (forall k, int4_get (int4_load_uchar bk values) k = get values k)
     /\ int4_store_uchar bk (int4_load_uchar bk values) = values).
Proof.
  split; intros H.
  - split.
    + intros k. unfold int4_get. rewrite int4_load_ushort_lane by exact H.
      pose proof (H k) as Hk. unfold sint.
      change (2 ^ 16) with 65536 in Hk. change (2 ^ 31) with 2147483648.
      destruct (Z.ltb_spec (get values k) 2147483648); [reflexivity | lia].
    + apply vec4_ext. intros k.
      rewrite int4_store_ushort_lane, int4_load_ushort_lane by exact H.
      apply Z.mod_small. apply H.
  - split.
    + intros k. unfold int4_get. rewrite int4_load_uchar_lane by exact H.
      pose proof (H k) as Hk. unfold sint.
      change (2 ^ 8) with 256 in Hk. change (2 ^ 31) with 2147483648.
      destruct (Z.ltb_spec (get values k) 2147483648); [reflexivity | lia].
    + apply vec4_ext. intros k.
      rewrite int4_store_uchar_lane, int4_load_uchar_lane by exact H.
      apply Z.mod_small. apply H.
Qed.

Lemma int4_unsigned_narrow_round_trip_witness :
  int4_store_ushort SSE4 (int4_load_ushort SSE4 (mk4 0 1 0x8000 0xffff))
  = mk4 0 1 0x8000 0xffff
  /\ int4_store_uchar SSE2 (int4_load_uchar SSE2 (mk4 0 1 0x80 0xff))
     = mk4 0 1 0x80 0xff.
Proof.
  split.
  - apply (int4_unsigned_narrow_round_trip SSE4 (mk4 0 1 0x8000 0xffff)).
    intros k. destruct k; cbn [get x_ y_ z_ w_]; change (2 ^ 16) with 65536; lia.
  - apply (int4_unsigned_narrow_round_trip SSE2 (mk4 0 1 0x80 0xff)).
    intros k. destruct k; cbn [get x_ y_ z_ w_]; change (2 ^ 8) with 256; lia.
Defined.

(** Loading four [short]s (or [char]s) gives, on every backend, lanes
    whose [int] values are the sign-extended inputs, and storing those
    lanes as [unsigned short] (or [unsigned char]) writes the original bit
    patterns back. *)
Theorem int4_signed_narrow_round_trip (bk : backend) (values : vec4) :
  (narrow4 16 values ->
     (forall k, int4_get (int4_load_short bk values) k = sext 16 (get values k))
     /\ int4_store_ushort bk (int4_load_short bk values) = values)
  /\ (narrow4 8 values ->
     (forall k, int4_get (int4_load_char bk values) k = sext 8 (get values k))
     /\ int4_store_uchar bk (int4_load_char bk values) = values).
Proof.
  split; intros H.
  - split.
    + intros k. unfold int4_get. rewrite int4_load_short_lane by exact H.
      apply sint_wrap_small.
      pose proof (sext_range 16 (get values k) ltac:(lia) (H k)) as R.
      change (2 ^ (16 - 1)) with 32768 in R. change (2 ^ 31) with 2147483648. lia.
    + apply vec4_ext. intros k.
      rewrite int4_store_ushort_lane, int4_load_short_lane by exact H.
      rewrite wrap_mod_pow by lia.
      apply sext_mod; [lia | apply H].
  - split.
    + intros k. unfold int4_get. rewrite int4_load_char_lane by exact H.
      apply sint_wrap_small.
      pose proof (sext_range 8 (get values k) ltac:(lia) (H k)) as R.
      change (2 ^ (8 - 1)) with 128 in R. change (2 ^ 31) with 2147483648. lia.
    + apply vec4_ext. intros k.
      rewrite int4_store_uchar_lane, int4_load_char_lane by exact H.
      rewrite wrap_mod_pow by lia.
      apply sext_mod; [lia | apply H].
Qed.

Lemma int4_signed_narrow_round_trip_witness :
  int4_store_ushort SSE4 (int4_load_short SSE4 (mk4 0 1 0x8000 0xffff))
  = mk4 0 1 0x8000 0xffff
  /\ int4_store_uchar SSE2 (int4_load_char SSE2 (mk4 0 1 0x80 0xff))
     = mk4 0 1 0x80 0xff.
Proof.
  split.
  - apply (int4_signed_narrow_round_trip SSE4 (mk4 0 1 0x8000 0xffff)).
    intros k. destruct k; cbn [get x_ y_ z_ w_]; change (2 ^ 16) with 65536; lia.
  - apply (int4_signed_narrow_round_trip SSE2 (mk4 0 1 0x80 0xff)).
    intros k. destruct k; cbn [get x_ y_ z_ w_]; change (2 ^ 8) with 256; lia.
Defined.
(* ------------------------------------------------------------------ *)
(** ** mask4: reductions and logical operators *)

Lemma movemask_all (m : vec4) :
  (mm_movemask_ps m =? 0xf)
  = Z.testbit (x_ m) 31 && Z.testbit (y_ m) 31
    && Z.testbit (z_ m) 31 && Z.testbit (w_ m) 31.
Proof.
  unfold mm_movemask_ps.
  destruct (Z.testbit (x_ m) 31), (Z.testbit (y_ m) 31),
           (Z.testbit (z_ m) 31), (Z.testbit (w_ m) 31); reflexivity.
Qed.

Lemma movemask_any (m : vec4) :
  negb (mm_movemask_ps m =? 0)
  = Z.testbit (x_ m) 31 || Z.testbit (y_ m) 31
    || Z.testbit (z_ m) 31 || Z.testbit (w_ m) 31.
Proof.
  unfold mm_movemask_ps.
  destruct (Z.testbit (x_ m) 31), (Z.testbit (y_ m) 31),
           (Z.testbit (z_ m) 31), (Z.testbit (w_ m) 31); reflexivity.
Qed.

(** On every backend and for every mask, canonical or not, [all] is the
    conjunction and [any] the disjunction of the four lanes as
    [operator[]] reads them, and [none] is the negation of [any]: the
    [_mm_movemask_ps] comparisons agree with the lane-by-lane loops. *)
Theorem mask4_all_any_none (bk : backend) (m : mask4) :
  all bk m = mask4_get bk m L0 && mask4_get bk m L1
             && mask4_get bk m L2 && mask4_get bk m L3
  /\ any bk m = mask4_get bk m L0 || mask4_get bk m L1
                || mask4_get bk m L2 || mask4_get bk m L3
  /\ none bk m = negb (any bk m).
Proof.
  unfold all, any, none.
  assert (forall c, Bool.eqb c true = c) as T by (intros []; reflexivity).
  assert (forall c, Bool.eqb c false = negb c) as F by (intros []; reflexivity).
  rewrite !T, F.
  destruct bk; cbn [mask4_reduce_and mask4_reduce_or mask4_get];
    (split; [| split]); try reflexivity;
    rewrite ?movemask_all, ?movemask_any, !movemask_bit; reflexivity.
Qed.

Ltac mask_lanes Ha Hb :=
  cbn [get x_ y_ z_ w_] in Ha, Hb;
  destruct Ha as [Ha | Ha], Hb as [Hb | Hb];
  unfold mask4_and, mask4_or, mask4_xor, mask4_not, mask4_compl, mask4_eq,
    mask4_ne, mask4_True, mask4_of_bool, mask4_load1, mm_cmpeq_epi8_self,
    mm_and, mm_or, mm_xor, mm_cmpeq_epi32, mm_setzero, SIMD_int, zip4, build4,
    splat;
  cbn [get x_ y_ z_ w_]; rewrite ?Ha, ?Hb; vm_compute; reflexivity.

Lemma mask4_lane_connectives (bk : backend) (a b : mask4) (i : lane) :
  canonical a -> canonical b ->
  let t := fun m : mask4 => negb (get m i =? 0) in
  t (mask4_and bk a b) = t a && t b
  /\ t (mask4_or bk a b) = t a || t b
  /\ t (mask4_xor bk a b) = xorb (t a) (t b)
  /\ t (mask4_not bk a) = negb (t a)
  /\ t (mask4_compl bk a) = negb (t a)
  /\ t (mask4_eq bk a b) = Bool.eqb (t a) (t b)
  /\ t (mask4_ne bk a b) = xorb (t a) (t b).
Proof.
  intros Ca Cb t. subst t. cbv beta.
  pose proof (Ca i) as Ha. pose proof (Cb i) as Hb.
  repeat match goal with |- _ /\ _ => split end;
    destruct bk, i; mask_lanes Ha Hb.
Qed.

(** On canonical masks, on every backend, the operators [&], [|], [^],
    [!], [~], [==] and [!=] act lane by lane as the boolean connectives on
    the values that [operator[]] reads: and, or, exclusive or, negation
    (twice), equality and exclusive or. *)
Theorem mask4_connectives (bk : backend) (a b : mask4) (i : lane) :
  canonical a -> canonical b ->
  mask4_get bk (mask4_and bk a b) i = mask4_get bk a i && mask4_get bk b i
  /\ mask4_get bk (mask4_or bk a b) i = mask4_get bk a i || mask4_get bk b i
  /\ mask4_get bk (mask4_xor bk a b) i = xorb (mask4_get bk a i) (mask4_get bk b i)
  /\ mask4_get bk (mask4_not bk a) i = negb (mask4_get bk a i)
  /\ mask4_get bk (mask4_compl bk a) i = negb (mask4_get bk a i)
  /\ mask4_get bk (mask4_eq bk a b) i
     = Bool.eqb (mask4_get bk a i) (mask4_get bk b i)
  /\ mask4_get bk (mask4_ne bk a b) i
     = xorb (mask4_get bk a i) (mask4_get bk b i).
Proof.
  intros Ca Cb.
  rewrite (mask4_get_canonical bk (mask4_and bk a b)) by (apply canonical_and; assumption).
  rewrite (mask4_get_canonical bk (mask4_or bk a b)) by (apply canonical_or; assumption).
  rewrite (mask4_get_canonical bk (mask4_xor bk a b)) by (apply canonical_xor; assumption).
  rewrite (mask4_get_canonical bk (mask4_not bk a)) by (apply canonical_not; assumption).
  rewrite (mask4_get_canonical bk (mask4_compl bk a)) by (apply canonical_compl; assumption).
  rewrite (mask4_get_canonical bk (mask4_eq bk a b)) by apply canonical_mask4_eq.
  rewrite (mask4_get_canonical bk (mask4_ne bk a b)) by (apply canonical_mask4_ne; assumption).
  rewrite !(mask4_get_canonical bk a), !(mask4_get_canonical bk b) by assumption.
  exact (mask4_lane_connectives bk a b i Ca Cb).
Qed.

Lemma mask4_connectives_witness :
  mask4_get SSE2 (mask4_and SSE2 (mk4 ones 0 ones 0) (mk4 ones ones 0 0)) L1
  = mask4_get SSE2 (mk4 ones 0 ones 0) L1 && mask4_get SSE2 (mk4 ones ones 0 0) L1.
Proof.
  apply (mask4_connectives SSE2 (mk4 ones 0 ones 0) (mk4 ones ones 0 0) L1).
  - apply canonical_intro; (left; reflexivity) || (right; reflexivity).
  - apply canonical_intro; (left; reflexivity) || (right; reflexivity).
Defined.
(* ------------------------------------------------------------------ *)
(** ** insert and extract *)

Lemma get_put_same (v : vec4) (i : lane) (a : Z) : get (put v i a) i = a.
Proof. destruct i; reflexivity. Qed.

Lemma get_put_other (v : vec4) (i j : lane) (a : Z) :
  i <> j -> get (put v i a) j = get v j.
Proof. intros N. destruct i, j; try reflexivity; contradiction. Qed.

Lemma float4_insert_put (bk : backend) (i : lane) (a : float4) (val : Z) :
  float4_insert bk i a val = put a i val.
Proof. destruct bk, i; reflexivity. Qed.

Lemma float4_extract_get (bk : backend) (i : lane) (a : float4) :
  float4_extract bk i a = get a i.
Proof. destruct bk, i; reflexivity. Qed.

Lemma int4_insert_put (bk : backend) (i : lane) (a : int4) (val : Z) :
  int4_insert bk i a val = put a i (wrap val).
Proof. destruct bk; reflexivity. Qed.

Lemma int4_extract_get (bk : backend) (i : lane) (a : int4) :
  int4_extract bk i a = sint (get a i).
Proof. destruct bk; reflexivity. Qed.

Lemma mask4_insert_put (bk : backend) (i : lane) (a : mask4) (val : bool) :
  mask4_insert bk i a val = put a i (bool_mask val).
Proof. destruct bk, val; reflexivity. Qed.

Lemma mask4_extract_lane (bk : backend) (i : lane) (a : mask4) :
  mask4_extract bk i a
  = match bk with
    | SSE2 | SSE3 => Z.testbit (get a i) 31
    | _ => negb (get a i =? 0)
    end.
Proof.
  destruct bk; cbn [mask4_extract mask4_get mm_extract_epi32];
    try reflexivity; apply movemask_bit.
Qed.

(** [extract<i>] after [insert<i>] gives the inserted value back, and
    [insert<i>] leaves what [extract<j>] reads in every other lane
    unchanged, for [float4], [int4] and [mask4] on every backend,
    including the lane-0 specialisations with [_mm_move_ss] and
    [_mm_cvtss_f32]; an inserted [int] comes back as such when it fits 32
    bits. *)
Theorem insert_extract_round_trip (bk : backend) (i j : lane) (v : vec4) :
  (forall val, float4_extract bk i (float4_insert bk i v val) = val)
  /\ (forall val, - 2 ^ 31 <= val < 2 ^ 31 ->
        int4_extract bk i (int4_insert bk i v val) = val)
  /\ (forall val, mask4_extract bk i (mask4_insert bk i v val) = val)
  /\ (i <> j ->
      (forall val, float4_extract bk j (float4_insert bk i v val)
                   = float4_extract bk j v)
      /\ (forall val, int4_extract bk j (int4_insert bk i v val)
                      = int4_extract bk j v)
      /\ (forall val, mask4_extract bk j (mask4_insert bk i v val)
                      = mask4_extract bk j v)).
Proof.
  split; [| split; [| split]].
  - intros val. rewrite float4_extract_get, float4_insert_put. apply get_put_same.
  - intros val H. rewrite int4_extract_get, int4_insert_put, get_put_same.
    apply sint_wrap_small. exact H.
  - intros val. rewrite mask4_extract_lane, mask4_insert_put, get_put_same.
    destruct bk, val; reflexivity.
  - intros N. split; [| split]; intros val.
    + rewrite !float4_extract_get, float4_insert_put. apply get_put_other. exact N.
    + rewrite !int4_extract_get, int4_insert_put, get_put_other by exact N.
      reflexivity.
    + rewrite !mask4_extract_lane, mask4_insert_put, get_put_other by exact N.
      reflexivity.
Qed.

Lemma insert_extract_round_trip_witness :
  int4_extract SSE4 L2 (int4_insert SSE4 L2 (mk4 1 2 3 4) (-7)) = -7.
Proof.
  apply (insert_extract_round_trip SSE4 L2 L0 (mk4 1 2 3 4)).
  change (2 ^ 31) with 2147483648. lia.
Defined.
(* ------------------------------------------------------------------ *)
(** ** Conversions between int4 and float4 *)

(** An [int] below 2^24 in magnitude survives the conversion to [float]
    and back. *)
Lemma f2i_trunc_i2f (n : Z) : - 2 ^ 24 < n < 2 ^ 24 -> f2i_trunc (i2f n) = wrap n.
Proof.
  intros H. unfold i2f. destruct n as [| q | q].
  - reflexivity.
  - apply (f2i_trunc_normalize false (Z.pos q)). lia.
  - apply (f2i_trunc_normalize true (Z.pos q)). lia.
Qed.

Lemma float4_of_int4_lane (bk : backend) (v : int4) (i : lane) :
  get (float4_of_int4 bk v) i = i2f (sint (get v i)).
Proof. destruct bk, i; reflexivity. Qed.

Lemma int4_of_float4_lane (bk : backend) (f : float4) (i : lane) :
  get (int4_of_float4 bk f) i = f2i_trunc (get f i).
Proof. destruct bk, i; reflexivity. Qed.

Lemma mm_cvtepi32_ps_lane (v : vec4) (i : lane) :
  get (mm_cvtepi32_ps v) i = i2f (sint (get v i)).
Proof. destruct i; reflexivity. Qed.

Lemma sint_small (w : Z) : 0 <= w < 2 ^ 31 -> sint w = w.
Proof.
  intros H. unfold sint. destruct (Z.ltb_spec w (2 ^ 31)); [reflexivity | lia].
Qed.

(** Converting an [int4] to [float4] and back with the two converting
    constructors returns the same [int4], on every backend, when every
    lane is below 2^24 in magnitude. *)
Theorem int4_float4_round_trip (bk : backend) (v : int4) :
  wf4 v -> (forall i, - 2 ^ 24 < int4_get v i < 2 ^ 24) ->
  int4_of_float4 bk (float4_of_int4 bk v) = v.
Proof.
  intros W H. apply vec4_ext. intros i.
  rewrite int4_of_float4_lane, float4_of_int4_lane.
  rewrite f2i_trunc_i2f by apply H. apply sint_wrap. apply W.
Qed.

Lemma int4_float4_round_trip_witness :
  int4_of_float4 SSE2 (float4_of_int4 SSE2 (mk4 0 1 (wrap (-7)) 16777215))
  = mk4 0 1 (wrap (-7)) 16777215.
Proof.
  apply (int4_float4_round_trip SSE2 (mk4 0 1 (wrap (-7)) 16777215)).
  - apply wf4_intro; vm_compute; split; (discriminate || reflexivity).
  - intros i. destruct i; vm_compute; split; reflexivity.
Defined.

Lemma float4_load_ushort_lane (bk : backend) (values : vec4) (i : lane) :
  narrow4 16 values -> get (float4_load_ushort bk values) i = i2f (get values i).
Proof.
  intros H.
  assert (forall b, i2f (sint (get (int4_load_ushort b values) i)) = i2f (get values i)) as S.
  { intros b. rewrite int4_load_ushort_lane by exact H. rewrite sint_small; [reflexivity |].
    pose proof (H i). change (2 ^ 16) with 65536 in *.
    change (2 ^ 31) with 2147483648. lia. }
  destruct bk; cbn [float4_load_ushort];
    [destruct i; reflexivity | rewrite mm_cvtepi32_ps_lane; apply S ..].
Qed.

Lemma float4_load_uchar_lane (bk : backend) (values : vec4) (i : lane) :
  narrow4 8 values -> get (float4_load_uchar bk values) i = i2f (get values i).
Proof.
  intros H.
  assert (forall b, i2f (sint (get (int4_load_uchar b values) i)) = i2f (get values i)) as S.
  { intros b. rewrite int4_load_uchar_lane by exact H. rewrite sint_small; [reflexivity |].
    pose proof (H i). change (2 ^ 8) with 256 in *.
    change (2 ^ 31) with 2147483648. lia. }
  destruct bk; cbn [float4_load_uchar];
    [destruct i; reflexivity | rewrite mm_cvtepi32_ps_lane; apply S ..].
Qed.

Lemma float4_load_short_lane (bk : backend) (values : vec4) (i : lane) :
  narrow4 16 values ->
  get (float4_load_short bk values) i = i2f (sext 16 (get values i)).
Proof.
  intros H.
  assert (forall b, i2f (sint (get (int4_load_short b values) i))
                    = i2f (sext 16 (get values i))) as S.
  { intros b. rewrite int4_load_short_lane by exact H.
    rewrite sint_wrap_small; [reflexivity |].
    pose proof (sext_range 16 (get values i) ltac:(lia) (H i)) as R.
    change (2 ^ (16 - 1)) with 32768 in R. change (2 ^ 31) with 2147483648. lia. }
  destruct bk; cbn [float4_load_short];
    [destruct i; reflexivity | rewrite mm_cvtepi32_ps_lane; apply S ..].
Qed.

Lemma float4_load_char_lane (bk : backend) (values : vec4) (i : lane) :
  narrow4 8 values ->
  get (float4_load_char bk values) i = i2f (sext 8 (get values i)).
Proof.
  intros H.
  assert (forall b, i2f (sint (get (int4_load_char b values) i))
                    = i2f (sext 8 (get values i))) as S.
  { intros b. rewrite int4_load_char_lane by exact H.
    rewrite sint_wrap_small; [reflexivity |].
    pose proof (sext_range 8 (get values i) ltac:(lia) (H i)) as R.
    change (2 ^ (8 - 1)) with 128 in R. change (2 ^ 31) with 2147483648. lia. }
  destruct bk; cbn [float4_load_char];
    [destruct i; reflexivity | rewrite mm_cvtepi32_ps_lane; apply S ..].
Qed.

(** The [float4] loads from 16-bit and 8-bit integers are exact on every
    backend: converting the loaded [float4] to [int4] gives the [int4]
    that the load of the same array into an [int4] gives. *)
Theorem float4_narrow_load_exact (bk : backend) (values : vec4) :
  (narrow4 16 values ->
     int4_of_float4 bk (float4_load_ushort bk values) = int4_load_ushort bk values
     /\ int4_of_float4 bk (float4_load_short bk values) = int4_load_short bk values)
  /\ (narrow4 8 values ->
     int4_of_float4 bk (float4_load_uchar bk values) = int4_load_uchar bk values
     /\ int4_of_float4 bk (float4_load_char bk values) = int4_load_char bk values).
Proof.
  split; intros H; split; apply vec4_ext; intros i; rewrite int4_of_float4_lane.
  - rewrite float4_load_ushort_lane, int4_load_ushort_lane by exact H.
    pose proof (H i) as Hi. change (2 ^ 16) with 65536 in Hi.
    rewrite f2i_trunc_i2f by (change (2 ^ 24) with 16777216; lia).
    apply wrap_small. unfold is_word. change (2 ^ 32) with 4294967296. lia.
  - rewrite float4_load_short_lane, int4_load_short_lane by exact H.
    pose proof (sext_range 16 (get values i) ltac:(lia) (H i)) as R.
    change (2 ^ (16 - 1)) with 32768 in R.
    apply f2i_trunc_i2f. change (2 ^ 24) with 16777216. lia.
  - rewrite float4_load_uchar_lane, int4_load_uchar_lane by exact H.
    pose proof (H i) as Hi. change (2 ^ 8) with 256 in Hi.
    rewrite f2i_trunc_i2f by (change (2 ^ 24) with 16777216; lia).
    apply wrap_small. unfold is_word. change (2 ^ 32) with 4294967296. lia.
  - rewrite float4_load_char_lane, int4_load_char_lane by exact H.
    pose proof (sext_range 8 (get values i) ltac:(lia) (H i)) as R.
    change (2 ^ (8 - 1)) with 128 in R.
    apply f2i_trunc_i2f. change (2 ^ 24) with 16777216. lia.
Qed.

Lemma float4_narrow_load_exact_witness :
  int4_of_float4 SSE4 (float4_load_short SSE4 (mk4 0 1 0x8000 0xffff))
  = int4_load_short SSE4 (mk4 0 1 0x8000 0xffff)
  /\ int4_of_float4 SSE2 (float4_load_uchar SSE2 (mk4 0 1 0x80 0xff))
     = int4_load_uchar SSE2 (mk4 0 1 0x80 0xff).
Proof.
  split.
  - apply (float4_narrow_load_exact SSE4 (mk4 0 1 0x8000 0xffff)).
    intros k. destruct k; cbn [get x_ y_ z_ w_]; change (2 ^ 16) with 65536; lia.
  - apply (float4_narrow_load_exact SSE2 (mk4 0 1 0x80 0xff)).
    intros k. destruct k; cbn [get x_ y_ z_ w_]; change (2 ^ 8) with 256; lia.
Defined.

(* ------------------------------------------------------------------ *)
(** ** blend0 and blend0not *)

Lemma land_canonical (m x : Z) :
  is_word x -> canonical_lane m -> Z.land m x = if negb (m =? 0) then x else 0.
Proof.
  intros W [-> | ->]; [apply Z.land_0_l |].
  exact (land_ones_l x W).
Qed.

Lemma andnot_canonical (m x : Z) :
  is_word x -> canonical_lane m ->
  Z.land (wnot m) x = if negb (m =? 0) then 0 else x.
Proof.
  intros W [-> | ->].
  - rewrite wnot_zero. exact (land_ones_l x W).
  - rewrite wnot_ones. apply Z.land_0_l.
Qed.

(** On every backend, given a canonical mask, [blend0 (a, mask)] holds in
    each lane [a]'s lane where the mask is true and [+0.0f] where it is
    false, and [blend0not (a, mask)] the reverse: the bitwise AND and
    AND-NOT of the SSE bodies select whole lanes. *)
Theorem float4_blend0_lanes (bk : backend) (a : float4) (mask : mask4) (i : lane) :
  wf4 a -> canonical mask ->
  get (float4_blend0 bk a mask) i = (if mask4_get bk mask i then get a i else fzero)
  /\ get (float4_blend0not bk a mask) i
     = (if mask4_get bk mask i then fzero else get a i).
Proof.
  intros W C. pose proof (W i) as Wi. pose proof (C i) as Ci.
  destruct bk.
  - split; destruct i; reflexivity.
  - rewrite (mask4_get_canonical SSE2 mask i C).
    split; destruct i; cbn [float4_blend0 float4_blend0not get x_ y_ z_ w_] in *;
      unfold mm_and, mm_andnot, zip4, build4; cbn [get x_ y_ z_ w_];
      (apply land_canonical || apply andnot_canonical); assumption.
  - rewrite (mask4_get_canonical SSE3 mask i C).
    split; destruct i; cbn [float4_blend0 float4_blend0not get x_ y_ z_ w_] in *;
      unfold mm_and, mm_andnot, zip4, build4; cbn [get x_ y_ z_ w_];
      (apply land_canonical || apply andnot_canonical); assumption.
  - rewrite (mask4_get_canonical SSE4 mask i C).
    split; destruct i; cbn [float4_blend0 float4_blend0not get x_ y_ z_ w_] in *;
      unfold mm_and, mm_andnot, zip4, build4; cbn [get x_ y_ z_ w_];
      (apply land_canonical || apply andnot_canonical); assumption.
Qed.

Lemma float4_blend0_lanes_witness :
  get (float4_blend0 SSE2 (mk4 fone f2_0 f3_0 fhalf) (mk4 ones 0 ones 0)) L1
  = (if mask4_get SSE2 (mk4 ones 0 ones 0) L1 then f2_0 else fzero).
Proof.
  apply (float4_blend0_lanes SSE2 (mk4 fone f2_0 f3_0 fhalf) (mk4 ones 0 ones 0) L1).
  - apply wf4_intro; vm_compute; split; (discriminate || reflexivity).
  - apply canonical_intro; (left; reflexivity) || (right; reflexivity).
Defined.

Lemma int4_blend0_scalar_lane (c : bool) (w : Z) :
  is_word w -> - 2 ^ 24 < sint w < 2 ^ 24 ->
  wrap (sint (f2i_trunc (if c then i2f (sint w) else fzero))) = (if c then w else 0)
  /\ wrap (sint (f2i_trunc (if c then fzero else i2f (sint w)))) = (if c then 0 else w).
Proof.
  intros W H. rewrite !wrap_sint.
  destruct c; split; try reflexivity;
    rewrite f2i_trunc_i2f by exact H; unfold wrap; rewrite Z.mod_mod by discriminate;
    apply sint_wrap; exact W.
Qed.

(** [blend0] and [blend0not] on [int4], given a canonical mask: each lane
    is [a]'s lane or 0 as the mask says, on the SSE backends for every
    [a], and on the scalar backend when the lane is below 2^24 in
    magnitude.  The scalar body passes [a[i]] through [float] (its other
    branch is the literal [0.0f]), so larger values are rounded:
    16777217 comes back as 16777216. *)
Theorem int4_blend0_lanes (bk : backend) (a : int4) (mask : mask4) (i : lane) :
  wf4 a -> canonical mask ->
  (bk = Scalar -> - 2 ^ 24 < int4_get a i < 2 ^ 24) ->
  get (int4_blend0 bk a mask) i = (if mask4_get bk mask i then get a i else 0)
  /\ get (int4_blend0not bk a mask) i = (if mask4_get bk mask i then 0 else get a i)
  /\ int4_get (int4_blend0 Scalar (splat 16777217) (mask4_True Scalar)) i = 16777216.
Proof.
  intros W C R. pose proof (W i) as Wi. pose proof (C i) as Ci.
  split; [| split]; [| | destruct i; vm_compute; reflexivity].
  - destruct bk.
    + specialize (R eq_refl).
      destruct i; cbn [int4_blend0 SIMD_int build4 get x_ y_ z_ w_] in *;
        unfold int4_get in *; cbn [get x_ y_ z_ w_] in *;
        apply int4_blend0_scalar_lane; assumption.
    + rewrite (mask4_get_canonical SSE2 mask i C).
      destruct i; cbn [int4_blend0 get x_ y_ z_ w_] in *;
        unfold mm_and, zip4, build4; cbn [get x_ y_ z_ w_];
        apply land_canonical; assumption.
    + rewrite (mask4_get_canonical SSE3 mask i C).
      destruct i; cbn [int4_blend0 get x_ y_ z_ w_] in *;
        unfold mm_and, zip4, build4; cbn [get x_ y_ z_ w_];
        apply land_canonical; assumption.
    + rewrite (mask4_get_canonical SSE4 mask i C).
      destruct i; cbn [int4_blend0 get x_ y_ z_ w_] in *;
        unfold mm_and, zip4, build4; cbn [get x_ y_ z_ w_];
        apply land_canonical; assumption.
  - destruct bk.
    + specialize (R eq_refl).
      destruct i; cbn [int4_blend0not SIMD_int build4 get x_ y_ z_ w_] in *;
        unfold int4_get in *; cbn [get x_ y_ z_ w_] in *;
        apply int4_blend0_scalar_lane; assumption.
    + rewrite (mask4_get_canonical SSE2 mask i C).
      destruct i; cbn [int4_blend0not get x_ y_ z_ w_] in *;
        unfold mm_andnot, zip4, build4; cbn [get x_ y_ z_ w_];
        apply andnot_canonical; assumption.
    + rewrite (mask4_get_canonical SSE3 mask i C).
      destruct i; cbn [int4_blend0not get x_ y_ z_ w_] in *;
        unfold mm_andnot, zip4, build4; cbn [get x_ y_ z_ w_];
        apply andnot_canonical; assumption.
    + rewrite (mask4_get_canonical SSE4 mask i C).
      destruct i; cbn [int4_blend0not get x_ y_ z_ w_] in *;
        unfold mm_andnot, zip4, build4; cbn [get x_ y_ z_ w_];
        apply andnot_canonical; assumption.
Qed.

Lemma int4_blend0_lanes_witness :
  get (int4_blend0 Scalar (mk4 5 6 7 8) (mk4 ones 0 ones 0)) L0
  = (if mask4_get Scalar (mk4 ones 0 ones 0) L0 then 5 else 0).
Proof.
  apply (int4_blend0_lanes Scalar (mk4 5 6 7 8) (mk4 ones 0 ones 0) L0).
  - apply wf4_intro; vm_compute; split; (discriminate || reflexivity).
  - apply canonical_intro; (left; reflexivity) || (right; reflexivity).
  - intros _. vm_compute. split; reflexivity.
Defined.

(* ------------------------------------------------------------------ *)
(** ** Transposition *)

Lemma vec4x4_ext (p q : vec4x4) : (forall i, row p i = row q i) -> p = q.
Proof.
  intros H. destruct p, q.
  pose proof (H L0) as H0. pose proof (H L1) as H1.
  pose proof (H L2) as H2. pose proof (H L3) as H3.
  cbn [row r0_ r1_ r2_ r3_] in *. congruence.
Qed.

Lemma float4_transpose_lane (bk : backend) (q : vec4x4) (i j : lane) :
  get (row (float4_transpose bk q) i) j = get (row q j) i.
Proof. destruct q, bk, i, j; reflexivity. Qed.

Lemma float4_transpose_to_lane (bk : backend) (a b c d : float4) (i j : lane) :
  get (row (float4_transpose_to bk a b c d) i) j = get (row (mk4x4 a b c d) j) i.
Proof. destruct bk, i, j; reflexivity. Qed.

Lemma int4_transpose_lane (bk : backend) (q : vec4x4) (i j : lane) :
  wf4x4 q -> get (row (int4_transpose bk q) i) j = get (row q j) i.
Proof.
  intros W. pose proof (W j i) as Wji. destruct bk; [| destruct q, i, j; reflexivity ..].
  destruct q, i, j;
    cbn [int4_transpose int4_of_ints int4_load4 row r0_ r1_ r2_ r3_
         get x_ y_ z_ w_] in *;
    unfold int4_get; cbn [get x_ y_ z_ w_]; apply sint_wrap; exact Wji.
Qed.

Lemma int4_transpose_to_lane (bk : backend) (a b c d : int4) (i j : lane) :
  wf4x4 (mk4x4 a b c d) ->
  get (row (int4_transpose_to bk a b c d) i) j = get (row (mk4x4 a b c d) j) i.
Proof.
  intros W. pose proof (W j i) as Wji. destruct bk; [| destruct i, j; reflexivity ..].
  destruct i, j;
    cbn [int4_transpose_to int4_load4 row r0_ r1_ r2_ r3_ get x_ y_ z_ w_] in *;
    unfold int4_get; cbn [get x_ y_ z_ w_]; apply sint_wrap; exact Wji.
Qed.

(** Every [transpose] of the header, on [float4] and on [int4], in place
    and into four result registers, puts in lane [j] of result [i] lane
    [i] of input [j], on every backend: the unpack sequences of the SSE
    bodies are transpositions.  Hence transposing twice gives the
    registers back, and [AxBxCxDx] is the first row of the transpose. *)
Theorem transpose_lanes (bk : backend) (q : vec4x4) (i j : lane) :
  wf4x4 q ->
  get (row (float4_transpose bk q) i) j = get (row q j) i
  /\ get (row (float4_transpose_to bk (r0_ q) (r1_ q) (r2_ q) (r3_ q)) i) j
     = get (row q j) i
  /\ get (row (int4_transpose bk q) i) j = get (row q j) i
  /\ get (row (int4_transpose_to bk (r0_ q) (r1_ q) (r2_ q) (r3_ q)) i) j
     = get (row q j) i
  /\ float4_transpose bk (float4_transpose bk q) = q
  /\ int4_transpose bk (int4_transpose bk q) = q
  /\ float4_AxBxCxDx bk (r0_ q) (r1_ q) (r2_ q) (r3_ q)
     = row (float4_transpose bk q) L0
  /\ int4_AxBxCxDx bk (r0_ q) (r1_ q) (r2_ q) (r3_ q)
     = row (int4_transpose bk q) L0.
Proof.
  intros W.
  assert (wf4x4 (int4_transpose bk q)) as W'.
  { intros a b. rewrite int4_transpose_lane by exact W. apply W. }
  split; [apply float4_transpose_lane |].
  split; [destruct q; apply float4_transpose_to_lane |].
  split; [apply int4_transpose_lane; exact W |].
  split; [destruct q; apply int4_transpose_to_lane; exact W |].
  split; [| split; [| split]].
  - apply vec4x4_ext. intros a. apply vec4_ext. intros b.
    rewrite !float4_transpose_lane. reflexivity.
  - apply vec4x4_ext. intros a. apply vec4_ext. intros b.
    rewrite int4_transpose_lane by exact W'.
    rewrite int4_transpose_lane by exact W. reflexivity.
  - destruct q, bk; reflexivity.
  - destruct q, bk; reflexivity.
Qed.

Lemma transpose_lanes_witness :
  int4_transpose Scalar
    (int4_transpose Scalar
       (mk4x4 (mk4 1 2 3 4) (mk4 5 6 7 8) (mk4 9 10 11 12) (mk4 13 14 15 ones)))
  = mk4x4 (mk4 1 2 3 4) (mk4 5 6 7 8) (mk4 9 10 11 12) (mk4 13 14 15 ones).
Proof.
  apply (transpose_lanes Scalar
           (mk4x4 (mk4 1 2 3 4) (mk4 5 6 7 8) (mk4 9 10 11 12) (mk4 13 14 15 ones))
           L0 L0).
  intros i k. destruct i, k; vm_compute; split; (discriminate || reflexivity).
Defined.

(* ------------------------------------------------------------------ *)
(** ** Loads and stores of the first [n] elements *)

Lemma count_cases (n : Z) : 0 <= n <= 4 -> n = 0 \/ n = 1 \/ n = 2 \/ n = 3 \/ n = 4.
Proof. lia. Qed.

Lemma float4_load_n_lane (bk : backend) (this : float4) (values : vec4) (n : Z)
  (i : lane) :
  1 <= n <= 4 ->
  get (float4_load_n bk this values n) i
  = (if lane_index i <? n then get values i else fzero).
Proof.
  intros H.
  destruct (count_cases n ltac:(lia)) as [-> | [-> | [-> | [-> | ->]]]]; [lia | ..];
    destruct bk, i; reflexivity.
Qed.

Lemma int4_load_n_lane (bk : backend) (this : int4) (values : vec4) (n : Z)
  (i : lane) :
  wf4 values -> 0 <= n <= 4 ->
  get (int4_load_n bk this values n) i
  = (if lane_index i <? n then get values i else 0).
Proof.
  intros W H. pose proof (sint_wrap _ (W i)) as S.
  destruct (count_cases n H) as [-> | [-> | [-> | [-> | ->]]]];
    destruct bk, i; cbn [get x_ y_ z_ w_] in S;
    cbn [int4_load_n put_loops build4 get x_ y_ z_ w_ lane_index Z.ltb Z.leb
         Z.compare Pos.compare Pos.compare_cont];
    (reflexivity || exact S).
Qed.

(** [load (values, n)] for [1 <= n <= 4] on [float4], and for
    [0 <= n <= 4] on [int4], sets the first [n] lanes from the array and
    every other lane to zero, on every backend and whatever the object
    held before.  With [n = 0] the two types differ under SSE: the [int4]
    is cleared, the [float4] keeps its previous value (the scalar body
    clears it). *)
Theorem partial_load_lanes (bk : backend) (this : vec4) (values : vec4) (n : Z)
  (i : lane) :
  (1 <= n <= 4 ->
     get (float4_load_n bk this values n) i
     = (if lane_index i <? n then get values i else fzero))
  /\ (wf4 values -> 0 <= n <= 4 ->
     get (int4_load_n bk this values n) i
     = (if lane_index i <? n then get values i else 0))
  /\ int4_load_n bk this values 0 = int4_Zero bk
  /\ float4_load_n bk this values 0 = (if OIIO_SIMD bk then this else float4_Zero bk).
Proof.
  split; [apply float4_load_n_lane |].
  split; [apply int4_load_n_lane |].
  split; destruct bk; reflexivity.
Qed.

Lemma partial_load_lanes_witness :
  get (float4_load_n SSE2 (splat fone) (mk4 f2_0 f3_0 fhalf f1_5) 2) L2
  = (if lane_index L2 <? 2 then fhalf else fzero)
  /\ get (int4_load_n SSE2 (splat 9) (mk4 1 2 3 4) 3) L3
     = (if lane_index L3 <? 3 then 4 else 0).
Proof.
  split.
  - apply (proj1 (partial_load_lanes SSE2 (splat fone) (mk4 f2_0 f3_0 fhalf f1_5) 2 L2)).
    lia.
  - apply (proj1 (proj2 (partial_load_lanes SSE2 (splat 9) (mk4 1 2 3 4) 3 L3))).
    + apply wf4_intro; vm_compute; split; (discriminate || reflexivity).
    + lia.
Defined.

Lemma float4_store_n_lane (bk : backend) (v : float4) (values : vec4) (n : Z)
  (i : lane) :
  0 <= n <= 4 ->
  get (float4_store_n bk v values n) i
  = (if lane_index i <? n then get v i else get values i).
Proof.
  intros H.
  destruct (count_cases n H) as [-> | [-> | [-> | [-> | ->]]]];
    destruct bk, i; reflexivity.
Qed.

Lemma int4_store_n_lane (bk : backend) (v : int4) (values : vec4) (n : Z)
  (i : lane) :
  0 <= n <= 4 ->
  get (int4_store_n bk v values n) i
  = (if lane_index i <? n then get v i else get values i).
Proof.
  intros H.
  destruct (count_cases n H) as [-> | [-> | [-> | [-> | ->]]]];
    destruct bk, i; reflexivity.
Qed.

(** [store (values, n)] for [0 <= n <= 4], on [float4] and [int4] and on
    every backend, writes exactly the first [n] elements of the array and
    leaves the others as they were.  Loading the same [n] elements back
    gives the stored lanes followed by zeros, for [0 <= n <= 4] on [int4]
    and for [1 <= n <= 4] on [float4]; with [n = 0] the [float4] load gives
    the previous value of the object under SSE and zeros on the scalar
    backend.  For a [float3], [store (values)] followed by [load (values)]
    gives the vector back with its padding lane set to [+0.0f]. *)
Theorem partial_store_round_trip (bk : backend) (this v values : vec4) (n : Z)
  (i : lane) :
  0 <= n <= 4 ->
  get (float4_store_n bk v values n) i
  = (if lane_index i <? n then get v i else get values i)
  /\ get (int4_store_n bk v values n) i
     = (if lane_index i <? n then get v i else get values i)
  /\ (1 <= n ->
      get (float4_load_n bk this (float4_store_n bk v values n) n) i
      = (if lane_index i <? n then get v i else fzero))
  /\ float4_load_n bk this (float4_store_n bk v values 0) 0
     = (if OIIO_SIMD bk then this else float4_Zero bk)
  /\ (wf4 v ->
      get (int4_load_n bk this (int4_store_n bk v values n) n) i
      = (if lane_index i <? n then get v i else 0))
  /\ float3_load bk this (float3_store bk v values) = put v L3 fzero.
Proof.
  intros H.
  split; [apply float4_store_n_lane; exact H |].
  split; [apply int4_store_n_lane; exact H |].
  split; [| split; [destruct bk; reflexivity | split]].
  - intros H1. rewrite float4_load_n_lane by lia.
    rewrite float4_store_n_lane by exact H.
    destruct (lane_index i <? n); reflexivity.
  - intros W.
    assert (forall j, is_word (wrap (sint (get (int4_store_n bk v values n) j)))
                      /\ (lane_index j <? n = true ->
                          get (int4_store_n bk v values n) j = get v j)) as S.
    { intros j. split; [apply wrap_word |]. intros L.
      rewrite int4_store_n_lane by exact H. rewrite L. reflexivity. }
    destruct (lane_index i <? n) eqn:L.
    + destruct (S i) as (_ & E). specialize (E L).
      pose proof (sint_wrap _ (W i)) as SW.
      destruct (count_cases n H) as [-> | [-> | [-> | [-> | ->]]]];
        destruct bk, i; try discriminate L;
        cbn [int4_load_n put_loops build4 get x_ y_ z_ w_ lane_index Z.ltb Z.leb
             Z.compare Pos.compare Pos.compare_cont] in *;
        rewrite E; exact SW.
    + destruct (count_cases n H) as [-> | [-> | [-> | [-> | ->]]]];
        destruct bk, i; try discriminate L; reflexivity.
  - apply vec4_ext. intros j. unfold float3_load, float3_store.
    rewrite float4_load_n_lane by lia. rewrite float4_store_n_lane by lia.
    destruct j; reflexivity.
Qed.

Lemma partial_store_round_trip_witness :
  get (float4_store_n SSE2 (mk4 f2_0 f3_0 fhalf f1_5) (splat fone) 2) L2
  = (if lane_index L2 <? 2 then fhalf else fone).
Proof.
  apply (proj1 (partial_store_round_trip SSE2 (splat 0) (mk4 f2_0 f3_0 fhalf f1_5)
                  (splat fone) 2 L2 ltac:(lia))).
Defined.

(** A mask built from four [bool]s (or from one, replicated) reads back
    as those [bool]s, through [operator[]], through [extract] and through
    [store], on every backend. *)
Theorem mask4_bool_round_trip (bk : backend) (a b c d : bool) (i : lane) :
  let want := match i with L0 => a | L1 => b | L2 => c | L3 => d end in
  mask4_get bk (mask4_of_bools bk a b c d) i = want
  /\ mask4_extract bk i (mask4_of_bools bk a b c d) = want
  /\ mask4_store (mask4_of_bools bk a b c d) i = want
  /\ mask4_get bk (mask4_of_bool bk a) i = a
  /\ mask4_store_n (mask4_of_bool bk a) (fun _ => b) 2 i
     = (if lane_index i <? 2 then a else b).
Proof.
  destruct bk, i, a, b, c, d; vm_compute; repeat split; reflexivity.
Qed.

(* ------------------------------------------------------------------ *)
(** ** float4: commutativity, horizontal sums, dot products *)

Lemma SFadd_comm (x y : spec_float) : SFadd prec emax x y = SFadd prec emax y x.
Proof.
  destruct x as [sx | sx | | sx mx ex], y as [sy | sy | | sy my ey];
    cbn [SFadd]; try reflexivity;
    try (destruct sx, sy; reflexivity).
  rewrite (Z.min_comm ex ey). f_equal. apply Z.add_comm.
Qed.

Lemma SFmul_comm (x y : spec_float) : SFmul prec emax x y = SFmul prec emax y x.
Proof.
  destruct x as [sx | sx | | sx mx ex], y as [sy | sy | | sy my ey];
    cbn [SFmul]; try reflexivity;
    rewrite (xorb_comm sx sy); try reflexivity.
  rewrite (Pos.mul_comm mx my), (Z.add_comm ex ey). reflexivity.
Qed.

Lemma fadd_comm (a b : Z) : fadd a b = fadd b a.
Proof. unfold fadd. rewrite SFadd_comm. reflexivity. Qed.

Lemma fmul_comm (a b : Z) : fmul a b = fmul b a.
Proof. unfold fmul. rewrite SFmul_comm. reflexivity. Qed.

Lemma float4_add_lane (bk : backend) (a b : float4) (i : lane) :
  get (float4_add bk a b) i = fadd (get a i) (get b i).
Proof. destruct bk, i; reflexivity. Qed.

Lemma float4_mul_lane (bk : backend) (a b : float4) (i : lane) :
  get (float4_mul bk a b) i = fmul (get a i) (get b i).
Proof. destruct bk, i; reflexivity. Qed.

Lemma float4_vreduce_add_sse (bk : backend) (v : float4) (i : lane) :
  bk <> Scalar ->
  get (float4_vreduce_add bk v) i
  = fadd (fadd (get v L0) (get v L1)) (fadd (get v L2) (get v L3)).
Proof.
  intros N. destruct bk; [contradiction | ..].
  - destruct i;
      cbn [float4_vreduce_add float4_add float4_shuffle shuffle_sse mm_add_ps
           zip4 build4 get x_ y_ z_ w_];
      rewrite ?(fadd_comm (y_ v) (x_ v)), ?(fadd_comm (w_ v) (z_ v));
      try reflexivity; apply fadd_comm.
  - destruct i; cbn [float4_vreduce_add mm_hadd_ps get x_ y_ z_ w_]; reflexivity.
  - destruct i; cbn [float4_vreduce_add mm_hadd_ps get x_ y_ z_ w_]; reflexivity.
Qed.

(** The horizontal sum of a [float4] without NaN lanes.  On the SSE
    backends [vreduce_add] holds the same bits in all four lanes, the
    pairwise sum [(v0 + v1) + (v2 + v3)], whether computed with two
    horizontal adds or with shuffles, and [reduce_add] returns it; the
    scalar body sums left to right, [((v0 + v1) + v2) + v3].  The two
    roundings differ: for (2^24, 0, 1, 1) the scalar sum is 2^24 and the
    SSE sum 2^24 + 2. *)
Theorem float4_reduce_add_order (bk : backend) (v : float4) (i : lane) :
  (forall k, is_nan (get v k) = false) ->
  get (float4_vreduce_add bk v) i
  = (if OIIO_SIMD bk
     then fadd (fadd (get v L0) (get v L1)) (fadd (get v L2) (get v L3))
     else fadd (fadd (fadd (get v L0) (get v L1)) (get v L2)) (get v L3))
  /\ float4_reduce_add bk v = get (float4_vreduce_add bk v) L0
  /\ float4_reduce_add Scalar (mk4 0x4B800000 fzero fone fone) = 0x4B800000
  /\ float4_reduce_add SSE2 (mk4 0x4B800000 fzero fone fone) = 0x4B800001.
Proof.
  intros _. split; [| split; [| split]].
  - destruct bk; [| apply float4_vreduce_add_sse; discriminate ..].
    destruct i;
      cbn [OIIO_SIMD float4_vreduce_add float4_of_float float4_load1 SIMD_float
           build4 get x_ y_ z_ w_];
      unfold float4_get; reflexivity.
  - destruct bk;
      cbn [float4_reduce_add float4_vreduce_add float4_of_float float4_load1
           SIMD_float build4 get x_ y_ z_ w_ mm_cvtss_f32];
      unfold float4_get; reflexivity.
  - vm_compute. reflexivity.
  - vm_compute. reflexivity.
Qed.

Lemma float4_reduce_add_order_witness :
  float4_reduce_add SSE3 (mk4 fone f2_0 f3_0 fhalf)
  = get (float4_vreduce_add SSE3 (mk4 fone f2_0 f3_0 fhalf)) L0.
Proof.
  refine (proj1 (proj2 (float4_reduce_add_order SSE3 (mk4 fone f2_0 f3_0 fhalf) L0 _))).
  intros k. destruct k; reflexivity.
Defined.

Lemma float4_mul_comm (bk : backend) (a b : float4) :
  float4_mul bk a b = float4_mul bk b a.
Proof.
  apply vec4_ext. intros i. rewrite !float4_mul_lane. apply fmul_comm.
Qed.

Lemma mm_dp_ps_comm (a b : vec4) (hi lo : Z) : mm_dp_ps a b hi lo = mm_dp_ps b a hi lo.
Proof.
  unfold mm_dp_ps.
  rewrite (fmul_comm (get a L0)), (fmul_comm (get a L1)),
          (fmul_comm (get a L2)), (fmul_comm (get a L3)). reflexivity.
Qed.

(** On operands without NaN lanes, on every backend, [+] and [*] on
    [float4] are commutative bit for bit, and so [dot], [vdot], [dot3] and
    [vdot3] do not depend on the order of their two arguments. *)
Theorem float4_dot_symmetric (bk : backend) (a b : float4) :
  (forall k, is_nan (get a k) = false) -> (forall k, is_nan (get b k) = false) ->
  float4_add bk a b = float4_add bk b a
  /\ float4_mul bk a b = float4_mul bk b a
  /\ float4_dot bk a b = float4_dot bk b a
  /\ float4_vdot bk a b = float4_vdot bk b a
  /\ float4_dot3 bk a b = float4_dot3 bk b a
  /\ float4_vdot3 bk a b = float4_vdot3 bk b a
  /\ float3_dot bk a b = float3_dot bk b a.
Proof.
  intros _ _.
  split; [apply vec4_ext; intros i; rewrite !float4_add_lane; apply fadd_comm |].
  split; [apply float4_mul_comm |].
  unfold float4_dot, float4_vdot, float4_dot3, float4_vdot3, float3_dot, float3_mul.
  rewrite (float4_mul_comm bk a b).
  rewrite !(mm_dp_ps_comm a b).
  repeat match goal with |- _ /\ _ => split end; reflexivity.
Qed.

Lemma float4_dot_symmetric_witness :
  float4_dot SSE2 (mk4 fone f2_0 f3_0 fhalf) (mk4 f2_5 fone fneg_one fzero)
  = float4_dot SSE2 (mk4 f2_5 fone fneg_one fzero) (mk4 fone f2_0 f3_0 fhalf).
Proof.
  apply (float4_dot_symmetric SSE2 (mk4 fone f2_0 f3_0 fhalf)
           (mk4 f2_5 fone fneg_one fzero)).
  - intros k. destruct k; reflexivity.
  - intros k. destruct k; reflexivity.
Defined.

(* ------------------------------------------------------------------ *)
(** ** float4: negation, absolute value, sign *)

Lemma land_low_pow (r n : Z) : 0 <= n -> 0 <= r < 2 ^ n -> Z.land r (2 ^ n) = 0.
Proof.
  intros Hn Hr. apply Z.bits_inj'. intros m Hm.
  rewrite Z.land_spec, Z.bits_0, Z.pow2_bits_eqb by lia.
  destruct (Z.eqb_spec n m) as [<- | N]; [| apply andb_false_r].
  rewrite <- (Z.mod_small r (2 ^ n)) by exact Hr.
  rewrite Z.mod_pow2_bits_high by lia. reflexivity.
Qed.

Lemma fneg_eq (x : Z) :
  is_word x -> fneg x = if 2 ^ 31 <=? x then x - 2 ^ 31 else x + 2 ^ 31.
Proof.
  unfold is_word, fneg. intros H. change 0x80000000 with (2 ^ 31).
  change (2 ^ 32) with (2 * 2 ^ 31) in H.
  destruct (Z.leb_spec (2 ^ 31) x) as [G | L].
  - assert (x = Z.lxor (x - 2 ^ 31) (2 ^ 31)) as E.
    { rewrite <- Z.add_nocarry_lxor by (apply land_low_pow; lia). ring. }
    rewrite E at 1. rewrite Z.lxor_assoc, Z.lxor_nilpotent, Z.lxor_0_r. reflexivity.
  - symmetry. apply Z.add_nocarry_lxor. apply land_low_pow; lia.
Qed.

Lemma fneg_word (x : Z) : is_word x -> is_word (fneg x).
Proof.
  intros H. rewrite (fneg_eq x H). unfold is_word in *.
  change (2 ^ 32) with (2 * 2 ^ 31) in *.
  destruct (Z.leb_spec (2 ^ 31) x); lia.
Qed.

Lemma fabsf_eq (x : Z) : fabsf x = x mod 2 ^ 31.
Proof. unfold fabsf. change 0x7fffffff with (Z.ones 31). apply Z.land_ones. lia. Qed.

(** The fields of a word with its sign bit set to [s']. *)
Lemma b2f_fields (x y : Z) (s' : bool) :
  Z.testbit y 31 = s' -> (y / 2 ^ 23) mod 2 ^ 8 = (x / 2 ^ 23) mod 2 ^ 8 ->
  y mod 2 ^ 23 = x mod 2 ^ 23 ->
  b2f y = match b2f x with
          | S754_zero _ => S754_zero s'
          | S754_infinity _ => S754_infinity s'
          | S754_nan => S754_nan
          | S754_finite _ m e => S754_finite s' m e
          end.
Proof.
  intros S E M. unfold b2f. rewrite S, E, M.
  destruct ((x / 2 ^ 23) mod 2 ^ 8 =? 0); [destruct (x mod 2 ^ 23 =? 0); reflexivity |].
  destruct ((x / 2 ^ 23) mod 2 ^ 8 =? 255); [destruct (x mod 2 ^ 23 =? 0) |]; reflexivity.
Qed.

Lemma shift31_fields (x k : Z) :
  ((x + k * 2 ^ 31) / 2 ^ 23) mod 2 ^ 8 = (x / 2 ^ 23) mod 2 ^ 8
  /\ (x + k * 2 ^ 31) mod 2 ^ 23 = x mod 2 ^ 23.
Proof.
  replace (k * 2 ^ 31) with (k * 2 ^ 8 * 2 ^ 23) by (change (2 ^ 31) with (2 ^ 8 * 2 ^ 23); ring).
  split.
  - rewrite Z.div_add by discriminate. apply Z.mod_add. discriminate.
  - apply Z.mod_add. discriminate.
Qed.

Lemma b2f_fneg (x : Z) : is_word x -> b2f (fneg x) = SFopp (b2f x).
Proof.
  intros W. pose proof (fneg_word x W) as W'.
  pose proof (testbit31_word _ W') as T'. pose proof (testbit31_word _ W) as T.
  rewrite (fneg_eq x W) in *. unfold is_word in *.
  change (2 ^ 32) with (2 * 2 ^ 31) in *.
  destruct (Z.leb_spec (2 ^ 31) x) as [G | L].
  - destruct (shift31_fields x (-1)) as (E & M).
    replace (x + -1 * 2 ^ 31) with (x - 2 ^ 31) in E, M by ring.
    rewrite (b2f_fields x (x - 2 ^ 31) false); [| | exact E | exact M].
    + unfold b2f at 2. rewrite T.
      destruct (Z.leb_spec (2 ^ 31) x); [| lia].
      unfold b2f.
      destruct ((x / 2 ^ 23) mod 2 ^ 8 =? 0); [destruct (x mod 2 ^ 23 =? 0); reflexivity |].
      destruct ((x / 2 ^ 23) mod 2 ^ 8 =? 255); [destruct (x mod 2 ^ 23 =? 0) |]; reflexivity.
    + rewrite T'. destruct (Z.leb_spec (2 ^ 31) (x - 2 ^ 31)); [lia | reflexivity].
  - destruct (shift31_fields x 1) as (E & M).
    replace (x + 1 * 2 ^ 31) with (x + 2 ^ 31) in E, M by ring.
    rewrite (b2f_fields x (x + 2 ^ 31) true); [| | exact E | exact M].
    + unfold b2f. rewrite T.
      destruct (Z.leb_spec (2 ^ 31) x); [lia |].
      destruct ((x / 2 ^ 23) mod 2 ^ 8 =? 0); [destruct (x mod 2 ^ 23 =? 0); reflexivity |].
      destruct ((x / 2 ^ 23) mod 2 ^ 8 =? 255); [destruct (x mod 2 ^ 23 =? 0) |]; reflexivity.
    + rewrite T'. destruct (Z.leb_spec (2 ^ 31) (x + 2 ^ 31)); [reflexivity | lia].
Qed.

Lemma b2f_fabsf (x : Z) : is_word x -> b2f (fabsf x) = SFabs (b2f x).
Proof.
  intros W. rewrite fabsf_eq.
  assert (0 <= x mod 2 ^ 31 < 2 ^ 31) as B by (apply Z.mod_pos_bound; reflexivity).
  assert (is_word (x mod 2 ^ 31)) as W'.
  { unfold is_word. change (2 ^ 32) with (2 * 2 ^ 31). lia. }
  pose proof (Z.div_mod x (2 ^ 31) ltac:(discriminate)) as D.
  destruct (shift31_fields (x mod 2 ^ 31) (x / 2 ^ 31)) as (E & M).
  replace (x mod 2 ^ 31 + x / 2 ^ 31 * 2 ^ 31) with x in E, M by lia.
  rewrite (b2f_fields x (x mod 2 ^ 31) false); [| | symmetry; exact E | symmetry; exact M].
  - unfold b2f.
    destruct ((x / 2 ^ 23) mod 2 ^ 8 =? 0); [destruct (x mod 2 ^ 23 =? 0); reflexivity |].
    destruct ((x / 2 ^ 23) mod 2 ^ 8 =? 255); [destruct (x mod 2 ^ 23 =? 0) |]; reflexivity.
  - rewrite (testbit31_word _ W').
    destruct (Z.leb_spec (2 ^ 31) (x mod 2 ^ 31)); [lia | reflexivity].
Qed.

Lemma fsub_zero_l (x : Z) :
  is_word x -> is_nan x = false ->
  fsub fzero x = if feq x fzero then fzero else fneg x.
Proof.
  intros W N. pose proof (b2f_fneg x W) as F. pose proof (fneg_word x W) as W'.
  assert (is_nan (fneg x) = false) as N'.
  { unfold is_nan in *. rewrite F. destruct (b2f x); cbn [SFopp]; congruence. }
  pose proof (f2b_b2f _ W' N') as R. rewrite F in R.
  unfold fsub, feq, is_nan in *. rewrite b2f_fzero.
  destruct (b2f x) as [s | s | | s m e]; try discriminate.
  - destruct s; reflexivity.
  - destruct s; exact R.
  - cbn [SFsub]. rewrite <- R. destruct s; reflexivity.
Qed.

Lemma float4_neg_lane (bk : backend) (a : float4) (i : lane) :
  get (float4_neg bk a) i
  = if OIIO_SIMD bk then fsub fzero (get a i) else fneg (get a i).
Proof.
  destruct bk, i;
    cbn [float4_neg OIIO_SIMD SIMD_float build4 mm_sub_ps mm_setzero splat zip4
         get x_ y_ z_ w_];
    unfold float4_get; reflexivity.
Qed.

Lemma float4_abs_lane (bk : backend) (a : float4) (i : lane) :
  get (float4_abs bk a) i = fabsf (get a i).
Proof.
  destruct bk, i;
    cbn [float4_abs float4_of_floats float4_load4 mm_and mm_set1_epi32 splat zip4
         build4 get x_ y_ z_ w_];
    unfold float4_get; reflexivity.
Qed.

(** Unary minus and [abs] on [float4], for a lane that is not a NaN.  On
    every backend [abs] clears the sign bit, which is the float's absolute
    value.  Unary minus flips the sign bit, the float's negation, on the
    scalar backend; the SSE body computes [0 - x], which is the same bits
    except on a zero lane: there it gives [+0.0f] for both zeros, so
    [-(+0.0f)] is [-0.0f] on the scalar backend and [+0.0f] under SSE. *)
Theorem float4_neg_abs_lanes (bk : backend) (a : float4) (i : lane) :
  is_word (get a i) -> is_nan (get a i) = false ->
  b2f (get (float4_abs bk a) i) = SFabs (b2f (get a i))
  /\ get (float4_abs bk (float4_abs bk a)) i = get (float4_abs bk a) i
  /\ get (float4_neg bk a) i
     = (if OIIO_SIMD bk && feq (get a i) fzero then fzero else fneg (get a i))
  /\ b2f (fneg (get a i)) = SFopp (b2f (get a i)).
Proof.
  intros W N. rewrite !float4_abs_lane, float4_neg_lane.
  split; [apply b2f_fabsf; exact W |].
  split.
  - rewrite !fabsf_eq. apply Z.mod_mod. discriminate.
  - split; [| apply b2f_fneg; exact W].
    destruct (OIIO_SIMD bk); [| reflexivity].
    cbn [andb]. apply fsub_zero_l; assumption.
Qed.

Lemma float4_neg_abs_lanes_witness :
  get (float4_neg SSE2 (mk4 fzero fone f2_0 fhalf)) L0
  = (if OIIO_SIMD SSE2 && feq fzero fzero then fzero else fneg fzero).
Proof.
  refine (proj1 (proj2 (proj2
            (float4_neg_abs_lanes SSE2 (mk4 fzero fone f2_0 fhalf) L0 _ _)))).
  - vm_compute. split; (discriminate || reflexivity).
  - reflexivity.
Defined.

Lemma float4_cmp_get (bk : backend) (c : Z -> Z -> bool) (a b : float4) (i : lane) :
  mask4_get bk (float4_cmp bk c a b) i = c (get a i) (get b i).
Proof.
  rewrite mask4_get_canonical by apply canonical_float4_cmp.
  destruct bk, i;
    cbn [float4_cmp SIMD_int mm_cmp_ps zip4 build4 get x_ y_ z_ w_];
    unfold float4_get; cbn [get x_ y_ z_ w_];
    match goal with |- context [c ?p ?q] => destruct (c p q) end; reflexivity.
Qed.

Lemma float4_load1_lane (bk : backend) (x : Z) (i : lane) :
  get (float4_of_float bk x) i = x.
Proof. destruct bk, i; reflexivity. Qed.

(** [sign (a)] is, in each lane and on every backend, [-1.0f] when the
    lane compares below zero and [1.0f] otherwise: so [1.0f] also for
    [+0.0f], for [-0.0f] and for a NaN. *)
Theorem float4_sign_lanes (bk : backend) (a : float4) (i : lane) :
  get (float4_sign bk a) i = (if flt (get a i) fzero then fneg_one else fone)
  /\ float4_sign bk (splat fneg_zero) = splat fone
  /\ float4_sign bk (splat default_nan) = splat fone.
Proof.
  split; [| split; destruct bk; vm_compute; reflexivity].
  unfold float4_sign.
  assert (wf4 (float4_of_float bk fone)) as W1.
  { intros k. rewrite float4_load1_lane. vm_compute. split; (discriminate || reflexivity). }
  assert (get (float4_neg bk (float4_of_float bk fone)) i = fneg_one) as E.
  { rewrite float4_neg_lane, float4_load1_lane. destruct bk; reflexivity. }
  assert (wf4 (float4_neg bk (float4_of_float bk fone))) as W2.
  { intros k. rewrite float4_neg_lane, float4_load1_lane.
    destruct bk; vm_compute; split; (discriminate || reflexivity). }
  rewrite float4_blend_lane by (assumption || apply canonical_float4_cmp).
  unfold float4_lt. rewrite float4_cmp_get, E, float4_load1_lane.
  rewrite float4_Zero_lanes.
  assert (get (splat fzero) i = fzero) as -> by (destruct i; reflexivity).
  reflexivity.
Qed.
(* ------------------------------------------------------------------ *)
(** ** float4: minimum and maximum *)

(** Two floats that are not NaN and neither of which is below the other
    are both zeros or the same float. *)
Lemma SFcompare_eq_cases (X Y : spec_float) :
  SFltb X Y = false -> SFltb Y X = false ->
  X <> S754_nan -> Y <> S754_nan ->
  (exists sx sy, X = S754_zero sx /\ Y = S754_zero sy) \/ X = Y.
Proof.
  unfold SFltb.
  destruct X as [sx | sx | | sx mx ex], Y as [sy | sy | | sy my ey];
    cbn [SFcompare]; intros A B NX NY; try congruence;
    try (left; eauto; fail);
    try (destruct sx; discriminate); try (destruct sy; discriminate).
  - right. destruct sx, sy; try discriminate; reflexivity.
  - right. destruct sx, sy; try discriminate.
    + destruct (Z.compare_spec ex ey) as [-> | L | G]; try discriminate.
      * rewrite Z.compare_refl in B.
        destruct (Pos.compare_cont Eq mx my) eqn:C; try discriminate.
        -- apply Pos.compare_eq in C. subst. reflexivity.
        -- change (Pos.compare_cont Eq) with Pos.compare in *.
           rewrite Pos.compare_antisym, C in B. discriminate.
      * assert ((ey ?= ex) = Gt) as E by (apply Z.compare_gt_iff; lia).
        rewrite E in B. discriminate.
    + destruct (Z.compare_spec ex ey) as [-> | L | G]; try discriminate.
      * rewrite Z.compare_refl in B.
        destruct (Pos.compare_cont Eq mx my) eqn:C; try discriminate.
        -- apply Pos.compare_eq in C. subst. reflexivity.
        -- change (Pos.compare_cont Eq) with Pos.compare in *.
           rewrite Pos.compare_antisym, C in B. discriminate.
      * assert ((ey ?= ex) = Lt) as E by (apply Z.compare_lt_iff; lia).
        rewrite E in B. discriminate.
Qed.

Lemma SFltb_asym (X Y : spec_float) : SFltb X Y = true -> SFltb Y X = false.
Proof.
  unfold SFltb.
  destruct X as [sx | sx | | sx mx ex], Y as [sy | sy | | sy my ey];
    cbn [SFcompare]; intros A; try discriminate; try reflexivity;
    try (destruct sx; (discriminate || reflexivity));
    try (destruct sy; (discriminate || reflexivity));
    try (destruct sx, sy; (discriminate || reflexivity)).
  destruct sx, sy; try discriminate; try reflexivity.
  - destruct (Z.compare_spec ex ey) as [-> | L | G]; try discriminate.
    + rewrite Z.compare_refl.
      change (Pos.compare_cont Eq) with Pos.compare in *.
      rewrite (Pos.compare_antisym mx my).
      destruct (Pos.compare mx my); (discriminate || reflexivity).
    + assert ((ey ?= ex) = Lt) as -> by (apply Z.compare_lt_iff; lia). reflexivity.
  - destruct (Z.compare_spec ex ey) as [-> | L | G]; try discriminate.
    + rewrite Z.compare_refl.
      change (Pos.compare_cont Eq) with Pos.compare in *.
      rewrite (Pos.compare_antisym mx my).
      destruct (Pos.compare mx my); (discriminate || reflexivity).
    + assert ((ey ?= ex) = Gt) as -> by (apply Z.compare_gt_iff; lia). reflexivity.
Qed.

Lemma b2f_inj (x y : Z) :
  is_word x -> is_word y -> is_nan x = false -> is_nan y = false ->
  b2f x = b2f y -> x = y.
Proof.
  intros Wx Wy Nx Ny E.
  rewrite <- (f2b_b2f x Wx Nx), <- (f2b_b2f y Wy Ny), E. reflexivity.
Qed.

Lemma flt_total (x y : Z) :
  is_word x -> is_word y -> is_nan x = false -> is_nan y = false ->
  flt x y = false -> flt y x = false ->
  (zero_bits x /\ zero_bits y) \/ x = y.
Proof.
  unfold flt. intros Wx Wy Nx Ny A B.
  destruct (SFcompare_eq_cases (b2f x) (b2f y) A B) as [(sx & sy & Ex & Ey) | E].
  - unfold is_nan in Nx. destruct (b2f x); congruence.
  - unfold is_nan in Ny. destruct (b2f y); congruence.
  - left. pose proof (f2b_b2f x Wx Nx) as Rx. pose proof (f2b_b2f y Wy Ny) as Ry.
    rewrite Ex in Rx. rewrite Ey in Ry. rewrite <- Rx, <- Ry.
    split; apply join_bits_zero.
  - right. apply b2f_inj; assumption.
Qed.

Lemma float4_min_lane (bk : backend) (a b : float4) (i : lane) :
  get (float4_min bk a b) i
  = if OIIO_SIMD bk then (if flt (get a i) (get b i) then get a i else get b i)
    else std_min (get a i) (get b i).
Proof.
  destruct bk, i;
    cbn [float4_min OIIO_SIMD float4_of_floats float4_load4 mm_min_ps zip4 build4
         get x_ y_ z_ w_];
    unfold float4_get; reflexivity.
Qed.

Lemma float4_max_lane (bk : backend) (a b : float4) (i : lane) :
  get (float4_max bk a b) i
  = if OIIO_SIMD bk then (if fgt (get a i) (get b i) then get a i else get b i)
    else std_max (get a i) (get b i).
Proof.
  destruct bk, i;
    cbn [float4_max OIIO_SIMD float4_of_floats float4_load4 mm_max_ps zip4 build4
         get x_ y_ z_ w_];
    unfold float4_get; reflexivity.
Qed.

(** [min] and [max] on [float4], in a lane where neither operand is a NaN
    and the operands are not both zeros: on every backend the result is
    [a]'s lane when it compares below (above) [b]'s and [b]'s lane
    otherwise.  Outside these lanes the backends differ, [_mm_min_ps]
    returning its second operand and [std::min] its first:
    [min (+0.0f, -0.0f)] is [-0.0f] under SSE and [+0.0f] on the scalar
    backend, and [min (NaN, 1.0f)] is [1.0f] under SSE and the NaN on the
    scalar backend. *)
Theorem float4_min_max_lanes (bk : backend) (a b : float4) (i : lane) :
  is_word (get a i) -> is_word (get b i) ->
  is_nan (get a i) = false -> is_nan (get b i) = false ->
  ~ (zero_bits (get a i) /\ zero_bits (get b i)) ->
  get (float4_min bk a b) i = (if flt (get a i) (get b i) then get a i else get b i)
  /\ get (float4_max bk a b) i = (if flt (get b i) (get a i) then get a i else get b i)
  /\ float4_min SSE2 (splat fzero) (splat fneg_zero) = splat fneg_zero
  /\ float4_min Scalar (splat fzero) (splat fneg_zero) = splat fzero
  /\ float4_min SSE2 (splat default_nan) (splat fone) = splat fone
  /\ float4_min Scalar (splat default_nan) (splat fone) = splat default_nan.
Proof.
  intros Wa Wb Na Nb NZ. rewrite float4_min_lane, float4_max_lane.
  split; [| split; [| repeat split; vm_compute; reflexivity]].
  - destruct (OIIO_SIMD bk); [reflexivity |]. unfold std_min.
    destruct (flt (get a i) (get b i)) eqn:A, (flt (get b i) (get a i)) eqn:B;
      try reflexivity.
    + unfold flt in A, B. rewrite (SFltb_asym _ _ A) in B. discriminate.
    + destruct (flt_total _ _ Wa Wb Na Nb A B) as [Z0 | E]; [contradiction | congruence].
  - unfold fgt. destruct (OIIO_SIMD bk); [reflexivity |]. unfold std_max.
    destruct (flt (get a i) (get b i)) eqn:A, (flt (get b i) (get a i)) eqn:B;
      try reflexivity.
    + unfold flt in A, B. rewrite (SFltb_asym _ _ A) in B. discriminate.
    + destruct (flt_total _ _ Wa Wb Na Nb A B) as [Z0 | E]; [contradiction | congruence].
Qed.

Lemma float4_min_max_lanes_witness :
  get (float4_min SSE2 (mk4 fone f2_0 f3_0 fhalf) (mk4 f2_0 fone fzero fhalf)) L1
  = (if flt f2_0 fone then f2_0 else fone).
Proof.
  refine (proj1 (float4_min_max_lanes SSE2 (mk4 fone f2_0 f3_0 fhalf)
                   (mk4 f2_0 fone fzero fhalf) L1 _ _ _ _ _)).
  - vm_compute. split; (discriminate || reflexivity).
  - vm_compute. split; (discriminate || reflexivity).
  - reflexivity.
  - reflexivity.
  - intros [[H | H] _]; vm_compute in H; discriminate.
Defined.

(* ------------------------------------------------------------------ *)
(** ** int4: comparisons, shifts, minimum and maximum, reductions *)

Lemma sint_range (w : Z) : is_word w -> - 2 ^ 31 <= sint w < 2 ^ 31.
Proof.
  unfold is_word, sint. change (2 ^ 32) with (2 * 2 ^ 31). intros H.
  destruct (Z.ltb_spec w (2 ^ 31)); lia.
Qed.

Lemma sint_inj (p q : Z) : is_word p -> is_word q -> sint p = sint q -> p = q.
Proof.
  intros Wp Wq E. rewrite <- (sint_wrap p Wp), <- (sint_wrap q Wq), E. reflexivity.
Qed.

Lemma sint_eqb (p q : Z) : is_word p -> is_word q -> (sint p =? sint q) = (p =? q).
Proof.
  intros Wp Wq. destruct (Z.eqb_spec p q) as [-> | N].
  - apply Z.eqb_refl.
  - apply Z.eqb_neq. intros E. apply N. apply sint_inj; assumption.
Qed.

Lemma mask_lane_bool (c : bool) :
  negb (bool_mask c =? 0) = c /\ negb (wrap (neg1_or_0 c) =? 0) = c.
Proof. destruct c; split; reflexivity. Qed.

Lemma int4_eq_get (bk : backend) (a b : int4) (i : lane) :
  wf4 a -> wf4 b ->
  negb (get (int4_eq bk a b) i =? 0) = (int4_get a i =? int4_get b i).
Proof.
  intros Wa Wb. pose proof (sint_eqb _ _ (Wa i) (Wb i)) as E.
  destruct bk, i;
    cbn [int4_eq SIMD_int mm_cmpeq_epi32 zip4 build4 get x_ y_ z_ w_] in *;
    unfold int4_get; cbn [get x_ y_ z_ w_];
    rewrite ?E; apply mask_lane_bool.
Qed.

Lemma int4_lt_get (bk : backend) (a b : int4) (i : lane) :
  negb (get (int4_lt bk a b) i =? 0) = (int4_get a i <? int4_get b i).
Proof.
  destruct bk, i;
    cbn [int4_lt SIMD_int mm_cmplt_epi32 zip4 build4 get x_ y_ z_ w_];
    unfold int4_get; cbn [get x_ y_ z_ w_]; apply mask_lane_bool.
Qed.

Lemma int4_gt_get (bk : backend) (a b : int4) (i : lane) :
  negb (get (int4_gt bk a b) i =? 0) = (int4_get b i <? int4_get a i).
Proof.
  destruct bk, i;
    cbn [int4_gt SIMD_int mm_cmpgt_epi32 zip4 build4 get x_ y_ z_ w_];
    unfold int4_get; cbn [get x_ y_ z_ w_]; apply mask_lane_bool.
Qed.

Lemma mask4_not_get (bk : backend) (m : mask4) (i : lane) :
  canonical m -> negb (get (mask4_not bk m) i =? 0) = negb (negb (get m i =? 0)).
Proof.
  intros C. exact (proj1 (proj2 (proj2 (proj2 (mask4_lane_connectives bk m m i C C))))).
Qed.

Lemma int4_Zero_lane (bk : backend) (i : lane) : get (int4_Zero bk) i = 0.
Proof. destruct bk, i; reflexivity. Qed.

(** The six comparisons of [int4] and the conversion of an [int4] to a
    mask, read through [operator[]]: lane by lane and on every backend
    they are the comparisons of the lanes as signed [int]s, with [!=],
    [>=] and [<=] (defined as negations of [==], [<] and [>]) the exact
    complements, and the mask of an [int4] true where the lane is not 0. *)
Theorem int4_compare_lanes (bk : backend) (a b : int4) (i : lane) :
  wf4 a -> wf4 b ->
  mask4_get bk (int4_eq bk a b) i = (int4_get a i =? int4_get b i)
  /\ mask4_get bk (int4_ne bk a b) i = negb (int4_get a i =? int4_get b i)
  /\ mask4_get bk (int4_lt bk a b) i = (int4_get a i <? int4_get b i)
  /\ mask4_get bk (int4_gt bk a b) i = (int4_get b i <? int4_get a i)
  /\ mask4_get bk (int4_ge bk a b) i = (int4_get b i <=? int4_get a i)
  /\ mask4_get bk (int4_le bk a b) i = (int4_get a i <=? int4_get b i)
  /\ mask4_get bk (mask4_of_int4 bk a) i = negb (int4_get a i =? 0).
Proof.
  intros Wa Wb.
  rewrite (mask4_get_canonical bk (int4_eq bk a b)) by apply canonical_int4_eq.
  rewrite (mask4_get_canonical bk (int4_lt bk a b)) by apply canonical_int4_lt.
  rewrite (mask4_get_canonical bk (int4_gt bk a b)) by apply canonical_int4_gt.
  rewrite (mask4_get_canonical bk (int4_ne bk a b))
    by (apply canonical_not, canonical_int4_eq).
  rewrite (mask4_get_canonical bk (int4_ge bk a b))
    by (apply canonical_not, canonical_int4_lt).
  rewrite (mask4_get_canonical bk (int4_le bk a b))
    by (apply canonical_not, canonical_int4_gt).
  rewrite (mask4_get_canonical bk (mask4_of_int4 bk a)) by apply canonical_of_int4.
  unfold int4_ne, int4_ge, int4_le.
  rewrite !mask4_not_get
    by (apply canonical_int4_eq || apply canonical_int4_lt || apply canonical_int4_gt).
  rewrite int4_eq_get by assumption. rewrite int4_lt_get, int4_gt_get.
  repeat match goal with |- _ /\ _ => split end; try reflexivity.
  - rewrite Z.leb_antisym. reflexivity.
  - rewrite Z.leb_antisym. reflexivity.
  - destruct bk.
    + destruct i; cbn [mask4_of_int4 SIMD_int build4 get x_ y_ z_ w_];
        apply mask_lane_bool.
    + unfold mask4_of_int4, int4_ne.
      rewrite mask4_not_get by apply canonical_int4_eq.
      rewrite int4_eq_get; [| exact Wa | intros k; rewrite int4_Zero_lane; vm_compute; split; (discriminate || reflexivity)].
      unfold int4_get at 2. rewrite int4_Zero_lane. reflexivity.
    + unfold mask4_of_int4, int4_ne.
      rewrite mask4_not_get by apply canonical_int4_eq.
      rewrite int4_eq_get; [| exact Wa | intros k; rewrite int4_Zero_lane; vm_compute; split; (discriminate || reflexivity)].
      unfold int4_get at 2. rewrite int4_Zero_lane. reflexivity.
    + unfold mask4_of_int4, int4_ne.
      rewrite mask4_not_get by apply canonical_int4_eq.
      rewrite int4_eq_get; [| exact Wa | intros k; rewrite int4_Zero_lane; vm_compute; split; (discriminate || reflexivity)].
      unfold int4_get at 2. rewrite int4_Zero_lane. reflexivity.
Qed.

Lemma int4_compare_lanes_witness :
  mask4_get SSE2 (int4_ge SSE2 (mk4 1 5 ones 7) (mk4 2 5 0 ones)) L2
  = (int4_get (mk4 2 5 0 ones) L2 <=? int4_get (mk4 1 5 ones 7) L2).
Proof.
  refine (proj1 (proj2 (proj2 (proj2 (proj2
            (int4_compare_lanes SSE2 (mk4 1 5 ones 7) (mk4 2 5 0 ones) L2 _ _)))))).
  - apply wf4_intro; vm_compute; split; (discriminate || reflexivity).
  - apply wf4_intro; vm_compute; split; (discriminate || reflexivity).
Defined.

Lemma int4_shr_lane (bk : backend) (a : int4) (n : Z) (i : lane) :
  0 <= n <= 31 -> get (int4_shr bk a n) i = wrap (int4_get a i / 2 ^ n).
Proof.
  intros H. unfold int4_get.
  assert (forall p, wrap (Z.shiftr (sint p) (Z.min n 31)) = wrap (sint p / 2 ^ n)) as S.
  { intros p. rewrite Z.min_l by lia. rewrite Z.shiftr_div_pow2 by lia. reflexivity. }
  assert (forall p, wrap (Z.shiftr (sint p) n) = wrap (sint p / 2 ^ n)) as T.
  { intros p. rewrite Z.shiftr_div_pow2 by lia. reflexivity. }
  destruct bk, i;
    cbn [int4_shr SIMD_int mm_srai_epi32 map4 build4 get x_ y_ z_ w_];
    unfold int4_get; cbn [get x_ y_ z_ w_]; (apply S || apply T).
Qed.

(** The shifts of [int4] by a count [0 <= n <= 31], on every backend:
    [<<] multiplies each lane by [2^n] and wraps to 32 bits; [>>] is the
    arithmetic shift, the floor of the signed lane divided by [2^n]; [srl]
    is the logical shift, the floor of the lane as an unsigned number
    divided by [2^n].  Shifting left and then right logically by the same
    count clears the top [n] bits. *)
Theorem int4_shift_lanes (bk : backend) (a : int4) (n : Z) (i : lane) :
  wf4 a -> 0 <= n <= 31 ->
  get (int4_shl bk a n) i = wrap (get a i * 2 ^ n)
  /\ int4_get (int4_shr bk a n) i = int4_get a i / 2 ^ n
  /\ get (int4_srl bk a n) i = get a i / 2 ^ n
  /\ get (int4_srl bk (int4_shl bk a n) n) i = get a i mod 2 ^ (32 - n).
Proof.
  intros W H. pose proof (W i) as Wi.
  assert (0 < 2 ^ n) as P by (apply Z.pow_pos_nonneg; lia).
  split; [apply int4_shl_lane; exact H |].
  split; [| split; [apply int4_srl_lane; assumption |]].
  - unfold int4_get at 1. rewrite int4_shr_lane by exact H.
    apply sint_wrap_small.
    pose proof (sint_range _ Wi) as R. unfold int4_get.
    split.
    + apply Z.div_le_lower_bound; [lia |]. nia.
    + apply Z.div_lt_upper_bound; [lia |]. nia.
  - rewrite int4_srl_lane by (apply int4_shl_wf || idtac; assumption).
    rewrite int4_shl_lane by exact H.
    unfold wrap.
    replace (2 ^ 32) with (2 ^ (32 - n) * 2 ^ n)
      by (rewrite <- Z.pow_add_r by lia; f_equal; ring).
    rewrite Z.mul_mod_distr_r by (try apply Z.pow_nonzero; lia).
    apply Z.div_mul. lia.
Qed.

Lemma int4_shift_lanes_witness :
  int4_get (int4_shr SSE2 (mk4 (wrap (-7)) 1 2 3) 1) L0
  = int4_get (mk4 (wrap (-7)) 1 2 3) L0 / 2 ^ 1.
Proof.
  refine (proj1 (proj2 (int4_shift_lanes SSE2 (mk4 (wrap (-7)) 1 2 3) 1 L0 _ _))).
  - apply wf4_intro; vm_compute; split; (discriminate || reflexivity).
  - lia.
Defined.

Lemma int4_min_lane (bk : backend) (a b : int4) (i : lane) :
  get (int4_min bk a b) i = wrap (Z.min (int4_get a i) (int4_get b i)).
Proof.
  assert (forall p q, std_min_int p q = Z.min p q) as S.
  { intros p q. unfold std_min_int. destruct (Z.ltb_spec q p); lia. }
  destruct bk, i;
    cbn [int4_min SIMD_int mm_min_epi32 zip4 build4 get x_ y_ z_ w_];
    unfold int4_get; cbn [get x_ y_ z_ w_]; rewrite ?S; reflexivity.
Qed.

Lemma int4_max_lane (bk : backend) (a b : int4) (i : lane) :
  get (int4_max bk a b) i = wrap (Z.max (int4_get a i) (int4_get b i)).
Proof.
  assert (forall p q, std_max_int p q = Z.max p q) as S.
  { intros p q. unfold std_max_int. destruct (Z.ltb_spec p q); lia. }
  destruct bk, i;
    cbn [int4_max SIMD_int mm_max_epi32 zip4 build4 get x_ y_ z_ w_];
    unfold int4_get; cbn [get x_ y_ z_ w_]; rewrite ?S; reflexivity.
Qed.

Lemma int4_abs_lane (bk : backend) (a : int4) (i : lane) :
  get (int4_abs bk a) i = wrap (Z.abs (int4_get a i)).
Proof. destruct bk, i; reflexivity. Qed.

(** [min], [max] and [abs] on [int4], on every backend: the lanes of
    [min (a, b)] and [max (a, b)] are the smaller and the larger of the
    lanes as signed [int]s, so [min (a, b)] is [select (a < b, a, b)] and
    [max (a, b)] is [select (a > b, a, b)]; the lanes of [abs (a)] are the
    absolute values, except that the most negative [int] stays as it
    is. *)
Theorem int4_min_max_abs (bk : backend) (a b : int4) (i : lane) :
  wf4 a -> wf4 b ->
  int4_get (int4_min bk a b) i = Z.min (int4_get a i) (int4_get b i)
  /\ int4_get (int4_max bk a b) i = Z.max (int4_get a i) (int4_get b i)
  /\ int4_min bk a b = int4_select bk (int4_lt bk a b) a b
  /\ int4_max bk a b = int4_select bk (int4_gt bk a b) a b
  /\ int4_get (int4_abs bk a) i
     = (if int4_get a i =? - 2 ^ 31 then - 2 ^ 31 else Z.abs (int4_get a i)).
Proof.
  intros Wa Wb.
  assert (forall k, wrap (Z.min (int4_get a k) (int4_get b k))
                    = if int4_get a k <? int4_get b k then get a k else get b k) as Smin.
  { intros k. unfold int4_get.
    destruct (Z.ltb_spec (sint (get a k)) (sint (get b k))).
    - rewrite Z.min_l by lia. apply sint_wrap, Wa.
    - rewrite Z.min_r by lia. apply sint_wrap, Wb. }
  assert (forall k, wrap (Z.max (int4_get a k) (int4_get b k))
                    = if int4_get b k <? int4_get a k then get a k else get b k) as Smax.
  { intros k. unfold int4_get.
    destruct (Z.ltb_spec (sint (get b k)) (sint (get a k))).
    - rewrite Z.max_l by lia. apply sint_wrap, Wa.
    - rewrite Z.max_r by lia. apply sint_wrap, Wb. }
  pose proof (sint_range _ (Wa i)) as Ra. pose proof (sint_range _ (Wb i)) as Rb.
  split; [| split; [| split; [| split]]].
  - unfold int4_get at 1. rewrite int4_min_lane. apply sint_wrap_small.
    unfold int4_get. lia.
  - unfold int4_get at 1. rewrite int4_max_lane. apply sint_wrap_small.
    unfold int4_get. lia.
  - apply vec4_ext. intros k. unfold int4_select.
    rewrite int4_blend_lane by (assumption || apply canonical_int4_lt).
    rewrite (mask4_get_canonical bk (int4_lt bk a b)) by apply canonical_int4_lt.
    rewrite int4_lt_get, int4_min_lane. apply Smin.
  - apply vec4_ext. intros k. unfold int4_select.
    rewrite int4_blend_lane by (assumption || apply canonical_int4_gt).
    rewrite (mask4_get_canonical bk (int4_gt bk a b)) by apply canonical_int4_gt.
    rewrite int4_gt_get, int4_max_lane. apply Smax.
  - unfold int4_get at 1. rewrite int4_abs_lane. unfold int4_get in *.
    destruct (Z.eqb_spec (sint (get a i)) (- 2 ^ 31)) as [-> | N].
    + reflexivity.
    + apply sint_wrap_small. lia.
Qed.

Lemma int4_min_max_abs_witness :
  int4_min SSE2 (mk4 1 5 ones 7) (mk4 2 5 0 ones)
  = int4_select SSE2 (int4_lt SSE2 (mk4 1 5 ones 7) (mk4 2 5 0 ones))
      (mk4 1 5 ones 7) (mk4 2 5 0 ones).
Proof.
  refine (proj1 (proj2 (proj2
            (int4_min_max_abs SSE2 (mk4 1 5 ones 7) (mk4 2 5 0 ones) L0 _ _)))).
  - apply wf4_intro; vm_compute; split; (discriminate || reflexivity).
  - apply wf4_intro; vm_compute; split; (discriminate || reflexivity).
Defined.

Lemma testbit_sint_high (p i : Z) :
  is_word p -> 32 <= i -> Z.testbit (sint p) i = Z.testbit p 31.
Proof.
  intros W H. rewrite (testbit31_word p W).
  pose proof (sint_range p W) as R. unfold is_word in W.
  assert (Z.log2 (Z.abs (sint p)) < i) as L.
  { destruct (Z.eq_dec (sint p) 0) as [-> | N]; [cbn; lia |].
    apply Z.log2_lt_pow2; [lia |].
    apply Z.lt_le_trans with (2 ^ 32); [change (2 ^ 32) with (2 * 2 ^ 31); lia |].
    apply Z.pow_le_mono_r; lia. }
  pose proof (Z.bits_iff_neg (sint p) i L) as B.
  unfold sint in *. destruct (Z.ltb_spec p (2 ^ 31)) as [Lt | Ge].
  - destruct (Z.leb_spec (2 ^ 31) p); [lia |].
    destruct (Z.testbit p i); [| reflexivity].
    assert (p < 0) by (apply B; reflexivity). lia.
  - destruct (Z.leb_spec (2 ^ 31) p); [| lia].
    apply B. change (2 ^ 32) with (2 * 2 ^ 31). lia.
Qed.

(** A bitwise operator commutes with reading words as signed [int]s. *)
Lemma sint_bitop (f : Z -> Z -> Z) (fb : bool -> bool -> bool) (p q : Z) :
  (forall x y i, 0 <= i -> Z.testbit (f x y) i = fb (Z.testbit x i) (Z.testbit y i)) ->
  fb false false = false ->
  is_word p -> is_word q -> f (sint p) (sint q) = sint (f p q) /\ is_word (f p q).
Proof.
  intros F F0 Wp Wq.
  assert (is_word (f p q)) as W.
  { rewrite <- (wrap_bitop f fb p q F F0 Wp Wq). apply wrap_word. }
  split; [| exact W].
  apply Z.bits_inj'. intros i Hi. rewrite F by exact Hi.
  destruct (Z.ltb_spec i 32).
  - rewrite !testbit_sint by lia. rewrite F by exact Hi. reflexivity.
  - rewrite !testbit_sint_high by (assumption || lia). rewrite F by lia. reflexivity.
Qed.

Lemma int4_shuffle_lanes (bk : backend) (i0 i1 i2 i3 : lane) (v : int4) (k : lane) :
  wf4 v ->
  get (int4_shuffle bk i0 i1 i2 i3 v) k
  = get v (match k with L0 => i0 | L1 => i1 | L2 => i2 | L3 => i3 end).
Proof.
  intros W. destruct bk; [| destruct k; reflexivity ..].
  destruct k; cbn [int4_shuffle int4_of_ints int4_load4 get x_ y_ z_ w_];
    unfold int4_get; apply sint_wrap, W.
Qed.

Lemma int4_shuffle_wf (bk : backend) (i0 i1 i2 i3 : lane) (v : int4) :
  wf4 v -> wf4 (int4_shuffle bk i0 i1 i2 i3 v).
Proof.
  intros W k. rewrite int4_shuffle_lanes by exact W. apply W.
Qed.

(** [reduce_and] and [reduce_or] on [int4] return, on every backend, the
    bitwise AND and OR of the four lanes as [int]s: the SSE bodies, which
    combine the vector with a shuffle of itself and then two extracted
    lanes, agree with the scalar expressions. *)
Theorem int4_reduce_and_or (bk : backend) (v : int4) :
  wf4 v ->
  int4_reduce_and bk v
  = Z.land (Z.land (Z.land (int4_get v L0) (int4_get v L1)) (int4_get v L2))
           (int4_get v L3)
  /\ int4_reduce_or bk v
     = Z.lor (Z.lor (Z.lor (int4_get v L0) (int4_get v L1)) (int4_get v L2))
             (int4_get v L3).
Proof.
  intros W.
  pose proof (int4_shuffle_wf bk L1 L0 L3 L2 v W) as Ws.
  destruct bk; [split; reflexivity | ..];
    unfold int4_reduce_and, int4_reduce_or;
    rewrite !int4_extract_get;
    rewrite !int4_and_lane, !int4_or_lane by assumption;
    rewrite !int4_shuffle_lanes by assumption;
    unfold int4_get;
    (split;
     [ rewrite <- !(proj1 (sint_bitop Z.land andb _ _ (fun x y i _ => Z.land_spec x y i) eq_refl (W _) (W _)));
       rewrite (Z.land_comm (sint (get v L1)) (sint (get v L0)));
       rewrite (Z.land_comm (sint (get v L3)) (sint (get v L2)));
       rewrite !Z.land_assoc; reflexivity
     | rewrite <- !(proj1 (sint_bitop Z.lor orb _ _ (fun x y i _ => Z.lor_spec x y i) eq_refl (W _) (W _)));
       rewrite (Z.lor_comm (sint (get v L1)) (sint (get v L0)));
       rewrite (Z.lor_comm (sint (get v L3)) (sint (get v L2)));
       rewrite !Z.lor_assoc; reflexivity ]).
Qed.

Lemma int4_reduce_and_or_witness :
  int4_reduce_or SSE2 (mk4 1 2 ones 8)
  = Z.lor (Z.lor (Z.lor (int4_get (mk4 1 2 ones 8) L0) (int4_get (mk4 1 2 ones 8) L1))
                 (int4_get (mk4 1 2 ones 8) L2)) (int4_get (mk4 1 2 ones 8) L3).
Proof.
  refine (proj2 (int4_reduce_and_or SSE2 (mk4 1 2 ones 8) _)).
  apply wf4_intro; vm_compute; split; (discriminate || reflexivity).
Defined.

Lemma wrap_lnot_sint (p : Z) : is_word p -> wrap (Z.lnot (sint p)) = wnot p.
Proof.
  intros W. apply Z.bits_inj'. intros i Hi. unfold wrap, wnot.
  rewrite Z.lxor_spec, ones_is_Zones.
  destruct (Z.ltb_spec i 32).
  - rewrite Z.mod_pow2_bits_low by lia. rewrite Z.lnot_spec by lia.
    rewrite testbit_sint by lia. rewrite Z.ones_spec_low by lia.
    destruct (Z.testbit p i); reflexivity.
  - rewrite Z.mod_pow2_bits_high by lia.
    rewrite testbit_word_high by assumption. rewrite Z.ones_spec_high by lia.
    reflexivity.
Qed.

Lemma wnot_word (p : Z) : is_word p -> is_word (wnot p).
Proof. intros W. rewrite <- (wrap_lnot_sint p W). apply wrap_word. Qed.

Lemma wnot_involutive (p : Z) : wnot (wnot p) = p.
Proof.
  unfold wnot. rewrite Z.lxor_assoc, Z.lxor_nilpotent. apply Z.lxor_0_r.
Qed.

Lemma int4_not_lane (bk : backend) (a : int4) (i : lane) :
  wf4 a -> get (int4_not bk a) i = wnot (get a i).
Proof.
  intros W. pose proof (wrap_lnot_sint _ (W i)) as E.
  destruct bk, i;
    cbn [int4_not SIMD_int mm_xor mm_cmpeq_epi8_self splat zip4 build4
         get x_ y_ z_ w_] in *;
    unfold int4_get; cbn [get x_ y_ z_ w_]; (exact E || reflexivity).
Qed.

Lemma int4_andnot_lane (bk : backend) (a b : int4) (i : lane) :
  wf4 a -> wf4 b -> get (int4_andnot bk a b) i = Z.land (wnot (get a i)) (get b i).
Proof.
  intros Wa Wb. destruct bk; [| destruct i; reflexivity ..].
  pose proof (wrap_lnot_sint _ (Wa i)) as E.
  pose proof (wrap_bitop Z.land andb (wnot (get a i)) (get b i)
                (fun x y k _ => Z.land_spec x y k) eq_refl
                (wnot_word _ (Wa i)) (Wb i)) as B.
  rewrite <- B.
  assert (wrap (Z.land (Z.lnot (sint (get a i))) (sint (get b i)))
          = wrap (Z.land (sint (wnot (get a i))) (sint (get b i)))) as R.
  { rewrite <- E. rewrite sint_wrap_small; [reflexivity |].
    pose proof (sint_range _ (Wa i)). unfold Z.lnot. lia. }
  destruct i; cbn [int4_andnot SIMD_int build4 get x_ y_ z_ w_] in *;
    unfold int4_get; cbn [get x_ y_ z_ w_]; exact R.
Qed.

(** Bitwise operators of [int4] on every backend: [andnot (a, b)] is
    [(~a) & b], the complement [~] is its own inverse, and [a & ~a] is
    zero. *)
Theorem int4_andnot_compose (bk : backend) (a b : int4) :
  wf4 a -> wf4 b ->
  int4_andnot bk a b = int4_and bk (int4_not bk a) b
  /\ int4_not bk (int4_not bk a) = a
  /\ int4_and bk a (int4_not bk a) = int4_Zero bk.
Proof.
  intros Wa Wb.
  assert (wf4 (int4_not bk a)) as Wn.
  { intros k. rewrite int4_not_lane by exact Wa. apply wnot_word, Wa. }
  split; [| split]; apply vec4_ext; intros k.
  - rewrite int4_andnot_lane, int4_and_lane, int4_not_lane by assumption. reflexivity.
  - rewrite !int4_not_lane by assumption. apply wnot_involutive.
  - rewrite int4_and_lane, int4_not_lane, int4_Zero_lane by assumption.
    unfold wnot. apply Z.bits_inj'. intros n Hn.
    rewrite Z.land_spec, Z.lxor_spec, Z.bits_0, ones_is_Zones.
    destruct (Z.ltb_spec n 32).
    + rewrite Z.ones_spec_low by lia. destruct (Z.testbit (get a k) n); reflexivity.
    + rewrite (testbit_word_high _ _ (Wa k)) by lia. reflexivity.
Qed.

Lemma int4_andnot_compose_witness :
  int4_andnot Scalar (mk4 1 2 ones 8) (mk4 3 3 3 3)
  = int4_and Scalar (int4_not Scalar (mk4 1 2 ones 8)) (mk4 3 3 3 3).
Proof.
  refine (proj1 (int4_andnot_compose Scalar (mk4 1 2 ones 8) (mk4 3 3 3 3) _ _)).
  - apply wf4_intro; vm_compute; split; (discriminate || reflexivity).
  - apply wf4_intro; vm_compute; split; (discriminate || reflexivity).
Defined.

(* ------------------------------------------------------------------ *)
(** ** float3: the padding lane *)

Lemma float3_of_float4_pad (bk : backend) (v : float4) :
  get (float3_of_float4 bk v) L3 = if OIIO_SIMD bk then get v L3 else fzero.
Proof. destruct bk; cbn [float3_of_float4 OIIO_SIMD put get w_]; reflexivity. Qed.

Lemma pad_if (c : bool) (x : Z) : x = fzero -> (if c then x else fzero) = fzero.
Proof. intros ->. destruct c; reflexivity. Qed.

Lemma float4_sub_lane (bk : backend) (a b : float4) (i : lane) :
  get (float4_sub bk a b) i = fsub (get a i) (get b i).
Proof. destruct bk, i; reflexivity. Qed.

Lemma float4_div_lane (bk : backend) (a b : float4) (i : lane) :
  get (float4_div bk a b) i = fdiv (get a i) (get b i).
Proof. destruct bk, i; reflexivity. Qed.

Lemma float4_sqrt_lane (bk : backend) (a : float4) (i : lane) :
  get (float4_sqrt bk a) i = fsqrt (get a i).
Proof. destruct bk, i; reflexivity. Qed.

Lemma float3_vdot3_pad (bk : backend) (a b : float3) :
  get (float3_vdot3 bk a b) L3 = fzero.
Proof.
  destruct bk; cbn [float3_vdot3];
    [ rewrite float3_of_float4_pad; reflexivity
    | rewrite float3_of_float4_pad, xyz0_lane; reflexivity
    | rewrite float3_of_float4_pad, xyz0_lane; reflexivity
    | reflexivity ].
Qed.

Lemma float3_vreduce_add_pad (bk : backend) (v : float3) :
  get (float3_vreduce_add bk v) L3 = fzero.
Proof.
  destruct bk; cbn [float3_vreduce_add];
    [ reflexivity | rewrite float3_of_float4_pad, xyz0_lane; reflexivity .. ].
Qed.

(** The padding lane of a [float3].  On every backend the sum, difference
    and product of two [float3]s and the negation of one have padding
    [+0.0f] when the operands have, the quotient has when the dividend
    has, and [vreduce_add], [vdot], [vdot3], [normalized], [hdiv] and
    [transformp] return padding [+0.0f] whatever their arguments hold
    there. *)
Theorem float3_padding_zero (bk : backend) (a b : float3) (M : matrix44) :
  (get a L3 = fzero -> get b L3 = fzero ->
     get (float3_add bk a b) L3 = fzero
     /\ get (float3_sub bk a b) L3 = fzero
     /\ get (float3_mul bk a b) L3 = fzero
     /\ get (float3_neg bk a) L3 = fzero)
  /\ (get a L3 = fzero -> get (float3_div bk a b) L3 = fzero)
  /\ get (float3_vreduce_add bk a) L3 = fzero
  /\ get (float3_vdot bk a b) L3 = fzero
  /\ get (float3_vdot3 bk a b) L3 = fzero
  /\ get (normalized bk a) L3 = fzero
  /\ get (hdiv bk a) L3 = fzero
  /\ get (transformp bk M a) L3 = fzero.
Proof.
  split; [| split; [| split; [| split; [| split; [| split; [| split]]]]]].
  - intros Ha Hb.
    unfold float3_add, float3_sub, float3_mul, float3_neg.
    rewrite !float3_of_float4_pad.
    rewrite float4_add_lane, float4_sub_lane, float4_mul_lane, float4_neg_lane.
    rewrite Ha, Hb.
    repeat match goal with |- _ /\ _ => split end; destruct bk; reflexivity.
  - intros Ha. unfold float3_div. rewrite float3_of_float4_pad, float4_div_lane.
    rewrite xyz1_put, get_put_same, Ha. destruct bk; reflexivity.
  - apply float3_vreduce_add_pad.
  - destruct bk; cbn [float3_vdot]; try apply float3_vreduce_add_pad.
    reflexivity.
  - apply float3_vdot3_pad.
  - unfold normalized. destruct (OIIO_SIMD bk) eqn:S.
    + rewrite float3_of_float4_pad, S, safe_div_lane, float4_sqrt_lane.
      rewrite float3_vdot3_pad. reflexivity.
    + destruct bk; try discriminate S.
      destruct (fgt (float3_dot Scalar a a) fzero);
        [unfold float3_div | unfold float3_Zero]; apply float3_of_float4_pad.
  - destruct bk; cbn [hdiv].
    + destruct (feq (float4_get a L3) fzero); reflexivity.
    + rewrite float3_of_float4_pad, xyz0_lane; reflexivity.
    + rewrite float3_of_float4_pad, xyz0_lane; reflexivity.
    + rewrite float3_of_float4_pad, xyz0_lane; reflexivity.
  - destruct bk; cbn [transformp].
    + reflexivity.
    + rewrite float3_of_float4_pad, xyz0_lane; reflexivity.
    + rewrite float3_of_float4_pad, xyz0_lane; reflexivity.
    + rewrite float3_of_float4_pad, xyz0_lane; reflexivity.
Qed.

Lemma float3_padding_zero_witness :
  get (float3_add SSE2 (mk4 fone f2_0 f3_0 fzero) (mk4 fhalf fone f2_5 fzero)) L3
  = fzero.
Proof.
  refine (proj1 (proj1 (float3_padding_zero SSE2 (mk4 fone f2_0 f3_0 fzero)
                          (mk4 fhalf fone f2_5 fzero)
                          (identity_rows SSE2)) _ _)).
  - reflexivity.
  - reflexivity.
Defined.

(* ------------------------------------------------------------------ *)
(** ** matrix44: equality *)

Lemma all_get (bk : backend) (m : mask4) :
  all bk m = mask4_get bk m L0 && mask4_get bk m L1
             && mask4_get bk m L2 && mask4_get bk m L3.
Proof.
  unfold all.
  assert (forall c, Bool.eqb c true = c) as T by (intros []; reflexivity).
  rewrite T.
  destruct bk; cbn [mask4_reduce_and mask4_get]; try reflexivity;
    rewrite movemask_all, !movemask_bit; reflexivity.
Qed.

Lemma any_get (bk : backend) (m : mask4) :
  any bk m = mask4_get bk m L0 || mask4_get bk m L1
             || mask4_get bk m L2 || mask4_get bk m L3.
Proof.
  unfold any.
  assert (forall c, Bool.eqb c true = c) as T by (intros []; reflexivity).
  rewrite T.
  destruct bk; cbn [mask4_reduce_or mask4_get]; try reflexivity;
    rewrite movemask_any, !movemask_bit; reflexivity.
Qed.

Lemma mask4_and_get (bk : backend) (a b : mask4) (i : lane) :
  canonical a -> canonical b ->
  mask4_get bk (mask4_and bk a b) i = mask4_get bk a i && mask4_get bk b i.
Proof.
  intros Ca Cb.
  rewrite !mask4_get_canonical by (assumption || apply canonical_and; assumption).
  exact (proj1 (mask4_lane_connectives bk a b i Ca Cb)).
Qed.

Lemma mask4_or_get (bk : backend) (a b : mask4) (i : lane) :
  canonical a -> canonical b ->
  mask4_get bk (mask4_or bk a b) i = mask4_get bk a i || mask4_get bk b i.
Proof.
  intros Ca Cb.
  rewrite !mask4_get_canonical by (assumption || apply canonical_or; assumption).
  exact (proj1 (proj2 (mask4_lane_connectives bk a b i Ca Cb))).
Qed.

Lemma matrix44_eq_sse (bk : backend) (M N : matrix44) :
  bk <> Scalar ->
  matrix44_eq bk M N
  = lanes_all feq (row0 M) (row0 N) && lanes_all feq (row1 M) (row1 N)
    && lanes_all feq (row2 M) (row2 N) && lanes_all feq (row3 M) (row3 N).
Proof.
  intros NS.
  assert (matrix44_eq bk M N
          = all bk (mask4_and bk (mask4_and bk (mask4_and bk
                      (float4_eq bk (row0 M) (row0 N))
                      (float4_eq bk (row1 M) (row1 N)))
                      (float4_eq bk (row2 M) (row2 N)))
                      (float4_eq bk (row3 M) (row3 N)))) as ->
    by (destruct bk; [contradiction | reflexivity ..]).
  rewrite all_get. unfold float4_eq.
  rewrite !mask4_and_get
    by (repeat apply canonical_and; apply canonical_float4_cmp).
  rewrite !float4_cmp_get. unfold lanes_all. cbn [get].
  destruct (feq (x_ (row0 M)) (x_ (row0 N))), (feq (y_ (row0 M)) (y_ (row0 N))),
           (feq (z_ (row0 M)) (z_ (row0 N))), (feq (w_ (row0 M)) (w_ (row0 N))),
           (feq (x_ (row1 M)) (x_ (row1 N))), (feq (y_ (row1 M)) (y_ (row1 N))),
           (feq (z_ (row1 M)) (z_ (row1 N))), (feq (w_ (row1 M)) (w_ (row1 N))),
           (feq (x_ (row2 M)) (x_ (row2 N))), (feq (y_ (row2 M)) (y_ (row2 N))),
           (feq (z_ (row2 M)) (z_ (row2 N))), (feq (w_ (row2 M)) (w_ (row2 N)));
    cbn [andb]; try reflexivity;
    destruct (feq (x_ (row3 M)) (x_ (row3 N))), (feq (y_ (row3 M)) (y_ (row3 N))),
             (feq (z_ (row3 M)) (z_ (row3 N))), (feq (w_ (row3 M)) (w_ (row3 N)));
    reflexivity.
Qed.

Lemma matrix44_ne_sse (bk : backend) (M N : matrix44) :
  bk <> Scalar ->
  matrix44_ne bk M N
  = negb (lanes_all feq (row0 M) (row0 N) && lanes_all feq (row1 M) (row1 N)
          && lanes_all feq (row2 M) (row2 N) && lanes_all feq (row3 M) (row3 N)).
Proof.
  intros NS.
  assert (matrix44_ne bk M N
          = any bk (mask4_or bk (mask4_or bk (mask4_or bk
                      (float4_ne bk (row0 M) (row0 N))
                      (float4_ne bk (row1 M) (row1 N)))
                      (float4_ne bk (row2 M) (row2 N)))
                      (float4_ne bk (row3 M) (row3 N)))) as ->
    by (destruct bk; [contradiction | reflexivity ..]).
  rewrite any_get. unfold float4_ne.
  rewrite !mask4_or_get
    by (repeat apply canonical_or; apply canonical_float4_cmp).
  rewrite !float4_cmp_get. unfold lanes_all, fne, feq. cbn [get].
  destruct (SFeqb (b2f (x_ (row0 M))) (b2f (x_ (row0 N)))),
           (SFeqb (b2f (y_ (row0 M))) (b2f (y_ (row0 N)))),
           (SFeqb (b2f (z_ (row0 M))) (b2f (z_ (row0 N)))),
           (SFeqb (b2f (w_ (row0 M))) (b2f (w_ (row0 N)))),
           (SFeqb (b2f (x_ (row1 M))) (b2f (x_ (row1 N)))),
           (SFeqb (b2f (y_ (row1 M))) (b2f (y_ (row1 N)))),
           (SFeqb (b2f (z_ (row1 M))) (b2f (z_ (row1 N)))),
           (SFeqb (b2f (w_ (row1 M))) (b2f (w_ (row1 N)))),
           (SFeqb (b2f (x_ (row2 M))) (b2f (x_ (row2 N)))),
           (SFeqb (b2f (y_ (row2 M))) (b2f (y_ (row2 N)))),
           (SFeqb (b2f (z_ (row2 M))) (b2f (z_ (row2 N)))),
           (SFeqb (b2f (w_ (row2 M))) (b2f (w_ (row2 N))));
    cbn [andb orb negb]; try reflexivity;
    destruct (SFeqb (b2f (x_ (row3 M))) (b2f (x_ (row3 N)))),
             (SFeqb (b2f (y_ (row3 M))) (b2f (y_ (row3 N)))),
             (SFeqb (b2f (z_ (row3 M))) (b2f (z_ (row3 N)))),
             (SFeqb (b2f (w_ (row3 M))) (b2f (w_ (row3 N))));
    reflexivity.
Qed.

Lemma vec4_eqb_eq (u v : vec4) : vec4_eqb u v = true <-> u = v.
Proof.
  unfold vec4_eqb. destruct u as [a b c d], v as [a' b' c' d']. cbn [x_ y_ z_ w_].
  rewrite !andb_true_iff, !Z.eqb_eq. split.
  - intros [[[-> ->] ->] ->]. reflexivity.
  - intros E. injection E as -> -> -> ->. auto.
Qed.

(** Equality of [matrix44].  On every backend [!=] is the negation of
    [==].  Under SSE [==] holds exactly when all sixteen elements compare
    equal as floats; on the scalar backend, which uses [memcmp], exactly
    when they have the same bits.  So a matrix holding a NaN equals itself
    on the scalar backend but not under SSE, and two matrices that differ
    only in the sign of a zero are equal under SSE but not on the scalar
    backend. *)
Theorem matrix44_eq_ne (bk : backend) (M N : matrix44) :
  matrix44_ne bk M N = negb (matrix44_eq bk M N)
  /\ matrix44_eq bk M N
     = (if OIIO_SIMD bk
        then lanes_all feq (row0 M) (row0 N) && lanes_all feq (row1 M) (row1 N)
             && lanes_all feq (row2 M) (row2 N) && lanes_all feq (row3 M) (row3 N)
        else memcmp_eq M N)
  /\ (memcmp_eq M N = true <-> M = N)
  /\ (let Q := mkM44 (splat default_nan) (splat fone) (splat fone) (splat fone) in
      matrix44_eq Scalar Q Q = true /\ matrix44_eq SSE2 Q Q = false)
  /\ (let P := mkM44 (splat fzero) (splat fone) (splat fone) (splat fone) in
      let Q := mkM44 (splat fneg_zero) (splat fone) (splat fone) (splat fone) in
      matrix44_eq Scalar P Q = false /\ matrix44_eq SSE2 P Q = true).
Proof.
  split; [| split; [| split; [| split]]].
  - destruct (backend_eq_dec bk Scalar) as [-> | NS]; [reflexivity |].
    rewrite matrix44_ne_sse, matrix44_eq_sse by exact NS. reflexivity.
  - destruct (backend_eq_dec bk Scalar) as [-> | NS]; [reflexivity |].
    rewrite matrix44_eq_sse by exact NS. destruct bk; [contradiction | reflexivity ..].
  - unfold memcmp_eq. rewrite !andb_true_iff, !vec4_eqb_eq.
    destruct M as [m0 m1 m2 m3], N as [n0 n1 n2 n3]. cbn [row0 row1 row2 row3]. split.
    + intros [[[-> ->] ->] ->]. reflexivity.
    + intros E. injection E as -> -> -> ->. auto.
  - split; vm_compute; reflexivity.
  - split; vm_compute; reflexivity.
Qed.

(* ------------------------------------------------------------------ *)
(** ** float4: load from half *)

Lemma all_from_spec (n : nat) (start : Z) (p : Z -> bool) :
  all_from n start p = true ->
  forall k, start <= k < start + Z.of_nat n -> p k = true.
Proof.
  revert start. induction n as [| n IH]; intros start H k Hk.
  - cbn in Hk. lia.
  - cbn [all_from] in H. apply andb_prop in H. destruct H as [H0 H1].
    destruct (Z.eq_dec k start) as [-> | N]; [exact H0 |].
    apply (IH (start + 1) H1). lia.
Qed.

Lemma float4_load_half_lane (ext : Z -> Z) (bk : backend) (values : vec4) (i : lane) :
  bk <> Scalar -> narrow4 16 values ->
  get (float4_load_half ext bk values) i = half_lane (get values i).
Proof.
  intros NS H.
  assert (float4_load_half ext bk values
          = let h := int4_load_ushort bk values in
            let expmant := mm_and (splat 0x7fff) h in
            mm_or (mm_mul_ps (mm_slli_epi32 expmant 13) (splat (Z.shiftl (254 - 15) 23)))
                  (mm_or (mm_slli_epi32 (mm_xor h expmant) 16)
                         (mm_and (mm_cmpgt_epi32 expmant (splat 0x7bff))
                                 (splat (Z.shiftl 255 23))))) as ->
    by (destruct bk; [contradiction | reflexivity ..]).
  cbv zeta. pose proof (int4_load_ushort_lane bk values i H) as L.
  unfold half_lane. rewrite <- L.
  destruct i;
    cbn [mm_or mm_and mm_xor mm_mul_ps mm_slli_epi32 mm_cmpgt_epi32 zip4 map4 build4
         splat get x_ y_ z_ w_ Z.ltb Z.compare Pos.compare Pos.compare_cont];
    reflexivity.
Qed.

(** Multiplying a positive normal float whose exponent field is at most
    142 by 2^112 adds 112 to the exponent field. *)
Lemma fmul_magic (x : Z) :
  2 ^ 23 <= x < 143 * 2 ^ 23 -> fmul x (Z.shiftl (254 - 15) 23) = x + 112 * 2 ^ 23.
Proof.
  intros H. change (Z.shiftl (254 - 15) 23) with 0x77800000.
  change (2 ^ 23) with 8388608 in *.
  set (E := x / 8388608). set (M := x mod 8388608).
  pose proof (Z.div_mod x 8388608 ltac:(discriminate)) as D.
  pose proof (Z.mod_pos_bound x 8388608 eq_refl) as B. fold E M in D, B.
  assert (1 <= E <= 142) as HE by (subst E; split;
    [apply Z.div_le_lower_bound; lia | apply Z.lt_succ_r, Z.div_lt_upper_bound; lia]).
  assert (x = join_bits false E M) as J.
  { unfold join_bits. change (2 ^ 8) with 256. change (2 ^ 23) with 8388608.
    rewrite (Z.mod_small E 256), (Z.mod_small M 8388608) by lia. lia. }
  destruct (join_bits_fields false E M ltac:(lia) ltac:(lia)) as (T & FE & FM).
  rewrite <- J in T, FE, FM.
  assert (b2f x = S754_finite false (Z.to_pos (M + 8388608)) (E - 150)) as Bx.
  { unfold b2f. rewrite T, FE, FM. change (2 ^ 23) with 8388608.
    destruct (Z.eqb_spec E 0); [lia |]. destruct (Z.eqb_spec E 255); [lia |].
    reflexivity. }
  set (m := Z.to_pos (M + 8388608)) in *.
  assert (Z.pos m = M + 8388608) as Pm by (subst m; apply Z2Pos.id; lia).
  assert (bounded prec emax m (E - 38) = true) as Bd.
  { unfold bounded, canonical_mantissa. rewrite fexp_eq.
    pose proof (digits2_upper m 24 ltac:(lia)
                  ltac:(change (2 ^ 24) with 16777216; lia)) as U.
    pose proof (digits2_lower m 23 ltac:(lia)
                  ltac:(change (2 ^ 23) with 8388608; lia)) as L.
    apply andb_true_intro. split.
    - apply Z.eqb_eq. lia.
    - apply Z.leb_le. unfold emax, prec. lia. }
  unfold fmul. rewrite Bx.
  change (b2f 0x77800000) with (S754_finite false 8388608 89).
  cbn [SFmul xorb].
  replace (E - 150 + 89) with (E - 38 + -23) by ring.
  rewrite binary_round_aux_shift23 by exact Bd.
  cbn [f2b]. rewrite Pm. change (2 ^ 23) with 8388608.
  destruct (Z.ltb_spec (M + 8388608) 8388608); [lia |].
  unfold join_bits. change (2 ^ 8) with 256. change (2 ^ 23) with 8388608.
  rewrite (Z.mod_small (E - 38 + 150) 256) by lia.
  rewrite (Z.mod_small (M + 8388608 - 8388608) 8388608) by lia. lia.
Qed.

Lemma shr_iter_xO (k m : positive) :
  iter_pos shr_1 k {| shr_m := Z.pos (Pos.iter xO m k); shr_r := false; shr_s := false |}
  = {| shr_m := Z.pos m; shr_r := false; shr_s := false |}.
Proof.
  revert m. induction k as [k IH | k IH |]; intros m; cbn [iter_pos Pos.iter shr_1 orb].
  - rewrite IH, IH. reflexivity.
  - rewrite IH, IH. reflexivity.
  - reflexivity.
Qed.

(** Extra low zero bits of the mantissa are shifted out exactly. *)
Lemma binary_round_aux_shift (s : bool) (m P : positive) (e k : Z) :
  0 <= k -> Z.pos P = Z.pos m * 2 ^ k -> bounded prec emax m e = true ->
  binary_round_aux prec emax s (Z.pos P) (e - k) loc_Exact = S754_finite s m e.
Proof.
  intros Hk HP H. destruct k as [| k | k]; [| | lia].
  - rewrite Z.sub_0_r. assert (P = m) as -> by lia.
    apply binary_round_aux_bounded. exact H.
  - assert (P = Pos.iter xO m k) as ->
      by (apply Pos2Z.inj; rewrite Zpos_iter_xO; exact HP).
    pose proof (bounded_inv m e H) as [C L].
    unfold binary_round_aux.
    assert (shr_fexp prec emax (Z.pos (Pos.iter xO m k)) (e - Z.pos k) loc_Exact
            = ({| shr_m := Z.pos m; shr_r := false; shr_s := false |}, e)) as ->.
    { unfold shr_fexp. rewrite fexp_eq. cbn [Zdigits2]. rewrite digits2_iter_xO.
      replace (Z.max (Z.pos (digits2_pos m) + Z.pos k + (e - Z.pos k) - 24) (-149)
               - (e - Z.pos k)) with (Z.pos k) by lia.
      cbn [shr_record_of_loc shr]. rewrite shr_iter_xO. f_equal. ring. }
    cbn [shr_m loc_of_shr_record round_nearest_even].
    rewrite shr_fexp_fixed by (rewrite fexp_eq; exact C).
    cbn [shr_record_of_loc shr_m].
    replace (e <=? emax - prec) with true; [reflexivity |].
    symmetry. apply Z.leb_le. unfold emax, prec. lia.
Qed.

(** Multiplying a positive subnormal float by 2^112 normalises it. *)
Lemma fmul_magic_subnormal (x : Z) :
  0 < x < 2 ^ 23 ->
  fmul x (Z.shiftl (254 - 15) 23)
  = (Z.log2 x + 1 + 89) * 2 ^ 23 + (x * 2 ^ (24 - (Z.log2 x + 1)) - 2 ^ 23).
Proof.
  intros H. change (Z.shiftl (254 - 15) 23) with 0x77800000.
  set (d := Z.log2 x + 1).
  pose proof (Z.log2_spec x ltac:(lia)) as LS.
  assert (0 <= Z.log2 x) as L0 by apply Z.log2_nonneg.
  assert (Z.log2 x < 23) as L23 by (apply Z.log2_lt_pow2; lia).
  replace (Z.succ (Z.log2 x)) with d in LS by (subst d; lia).
  assert (2 ^ d = 2 * 2 ^ Z.log2 x) as Pd
    by (subst d; rewrite Z.pow_add_r by lia; change (2 ^ 1) with 2; ring).
  assert (2 ^ 24 = 2 ^ (24 - d) * 2 ^ d) as P24
    by (rewrite <- Z.pow_add_r by lia; f_equal; lia).
  assert (2 ^ 23 = 2 ^ (24 - d) * 2 ^ Z.log2 x) as P23
    by (rewrite <- Z.pow_add_r by lia; f_equal; lia).
  assert (0 < 2 ^ (24 - d)) as Pp by (apply Z.pow_pos_nonneg; lia).
  set (m := Z.to_pos (x * 2 ^ (24 - d))).
  assert (Z.pos m = x * 2 ^ (24 - d)) as Pm by (subst m; apply Z2Pos.id; nia).
  assert (2 ^ 23 <= Z.pos m < 2 ^ 24) as Rm by (rewrite Pm, P23, P24; nia).
  assert (bounded prec emax m (d - 61) = true) as Bd.
  { unfold bounded, canonical_mantissa. rewrite fexp_eq.
    pose proof (digits2_upper m 24 ltac:(lia) ltac:(lia)) as U.
    pose proof (digits2_lower m 23 ltac:(lia) ltac:(lia)) as Lw.
    apply andb_true_intro. split.
    - apply Z.eqb_eq. lia.
    - apply Z.leb_le. unfold emax, prec. lia. }
  assert (b2f x = S754_finite false (Z.to_pos x) (-149)) as Bx.
  { assert (x = join_bits false 0 x) as J.
    { unfold join_bits. rewrite (Z.mod_small x (2 ^ 23)) by lia. reflexivity. }
    destruct (join_bits_fields false 0 x ltac:(lia)
                ltac:(change 8388608 with (2 ^ 23); lia)) as (T & FE & FM).
    rewrite <- J in T, FE, FM.
    unfold b2f. rewrite T, FE, FM. cbn [Z.eqb].
    destruct (Z.eqb_spec x 0); [lia | reflexivity]. }
  unfold fmul. rewrite Bx.
  change (b2f 0x77800000) with (S754_finite false 8388608 89).
  cbn [SFmul xorb].
  replace (-149 + 89) with (d - 61 - (d - 1)) by ring.
  rewrite (binary_round_aux_shift false m _ (d - 61) (d - 1)); [| lia | | exact Bd].
  - cbn [f2b]. destruct (Z.ltb_spec (Z.pos m) (2 ^ 23)); [lia |].
    unfold join_bits. change (2 ^ 8) with 256.
    rewrite (Z.mod_small (d - 61 + 150) 256) by lia.
    rewrite (Z.mod_small (Z.pos m - 2 ^ 23) (2 ^ 23))
      by (change (2 ^ 24) with (2 * 2 ^ 23) in Rm; lia).
    rewrite Pm. ring.
  - rewrite Pos2Z.inj_mul, Z2Pos.id, Pm by lia.
    replace (d - 1) with (Z.log2 x) by (subst d; ring).
    change (Z.pos 8388608) with (2 ^ 23). rewrite P23. ring.
Qed.

Lemma fmul_magic_mul (x : Z) :
  0 <= x < 143 * 2 ^ 23 -> fmul x (Z.shiftl (254 - 15) 23) = magic_mul x.
Proof.
  intros H. unfold magic_mul.
  destruct (Z.eqb_spec x 0) as [-> | N]; [reflexivity |].
  destruct (Z.ltb_spec x (2 ^ 23)).
  - cbv zeta. apply fmul_magic_subnormal. lia.
  - apply fmul_magic. lia.
Qed.

Lemma half_lane_fast_eq (h : Z) : 0 <= h -> half_lane h = half_lane_fast h.
Proof.
  intros H. unfold half_lane, half_lane_fast.
  assert (0 <= Z.land 0x7fff h < 2 ^ 15) as B.
  { rewrite Z.land_comm. change 0x7fff with (Z.ones 15). rewrite Z.land_ones by lia.
    apply Z.mod_pos_bound. reflexivity. }
  set (X := Z.land 0x7fff h) in *. cbv zeta.
  rewrite fmul_magic_mul; [reflexivity |].
  rewrite Z.shiftl_mul_pow2 by lia. change (2 ^ 15) with 32768 in B.
  change (2 ^ 13) with 8192. change (2 ^ 23) with 8388608.
  rewrite wrap_small by (unfold is_word; change (2 ^ 32) with 4294967296; lia).
  lia.
Qed.

Lemma half_ok_edges :
  all_from 1024 0 half_ok = true /\ all_from 1024 31744 half_ok = true
  /\ all_from 1024 32768 half_ok = true /\ all_from 1024 64512 half_ok = true.
Proof. split; [| split; [| split]]; vm_compute; reflexivity. Qed.

Lemma lxor_low (h n : Z) :
  0 <= n -> Z.lxor h (h mod 2 ^ n) = (h / 2 ^ n) * 2 ^ n.
Proof.
  intros Hn. apply Z.bits_inj'. intros i Hi. rewrite Z.lxor_spec.
  destruct (Z.ltb_spec i n).
  - rewrite Z.mod_pow2_bits_low by lia. rewrite Z.mul_pow2_bits_low by lia.
    apply xorb_nilpotent.
  - rewrite Z.mod_pow2_bits_high by lia. rewrite Z.mul_pow2_bits by lia.
    rewrite Z.div_pow2_bits by lia. rewrite xorb_false_r. f_equal. lia.
Qed.

(** The halves with a biased exponent from 1 to 30: the body raises the
    exponent field by 112 and moves the fraction up by 13 bits. *)
Lemma half_ok_normal (h : Z) :
  0 <= h < 2 ^ 16 -> 1 <= (h / 2 ^ 10) mod 2 ^ 5 <= 30 -> half_ok h = true.
Proof.
  intros Hh HE. unfold half_ok.
  change (2 ^ 16) with 65536 in Hh. change (2 ^ 10) with 1024 in *.
  change (2 ^ 5) with 32 in *.
  set (s := Z.testbit h 15).
  set (E := (h / 1024) mod 32) in *. set (M := h mod 1024).
  pose proof (Z.mod_pos_bound h 1024 eq_refl) as BM. fold M in BM.
  assert (Z.b2z s = h / 32768) as Hs.
  { subst s. rewrite Z.testbit_spec' by lia. change (2 ^ 15) with 32768.
    apply Z.mod_small. split; [apply Z.div_pos; lia | apply Z.div_lt_upper_bound; lia]. }
  assert (h mod 32768 = E * 1024 + M) as HX.
  { subst E M. change 32768 with (1024 * 32).
    rewrite Z.rem_mul_r by lia. ring. }
  pose proof (lxor_low h 15 ltac:(lia)) as LX.
  change (2 ^ 15) with 32768 in LX. rewrite HX, <- Hs in LX.
  assert (h2f h = S754_finite s (Z.to_pos (M + 1024)) (E - 25)) as H1.
  { unfold h2f. fold s. change (2 ^ 10) with 1024. change (2 ^ 5) with 32.
    fold E M. destruct (Z.eqb_spec E 0); [lia |]. destruct (Z.eqb_spec E 31); [lia |].
    reflexivity. }
  assert (half_lane_fast h = join_bits s (E + 112) (M * 8192)) as H2.
  { unfold half_lane_fast.
    assert (Z.land 0x7fff h = E * 1024 + M) as ->.
    { rewrite Z.land_comm. change 0x7fff with (Z.ones 15).
      rewrite Z.land_ones by lia. exact HX. }
    rewrite LX.
    rewrite !Z.shiftl_mul_pow2 by lia.
    change (2 ^ 13) with 8192. change (2 ^ 16) with 65536.
    rewrite (wrap_small ((E * 1024 + M) * 8192))
      by (unfold is_word; change (2 ^ 32) with 4294967296; lia).
    assert (magic_mul ((E * 1024 + M) * 8192)
            = (E * 1024 + M) * 8192 + 112 * 8388608) as ->.
    { unfold magic_mul. change (2 ^ 23) with 8388608.
      destruct (Z.eqb_spec ((E * 1024 + M) * 8192) 0); [lia |].
      destruct (Z.ltb_spec ((E * 1024 + M) * 8192) 8388608); [lia | reflexivity]. }
    assert ((sint 0x7bff <? sint (E * 1024 + M)) = false) as ->.
    { rewrite (sint_small (E * 1024 + M)) by (change (2 ^ 31) with 2147483648; lia).
      apply Z.ltb_ge. change (sint 0x7bff) with 31743. lia. }
    cbn [bool_mask]. rewrite Z.land_0_l, Z.lor_0_r.
    assert (wrap (Z.b2z s * 32768 * 65536) = Z.b2z s * 2 ^ 31) as ->.
    { replace (Z.b2z s * 32768 * 65536) with (Z.b2z s * 2 ^ 31)
        by (change (2 ^ 31) with 2147483648; ring).
      apply wrap_small. unfold is_word. change (2 ^ 31) with 2147483648.
      change (2 ^ 32) with 4294967296. destruct s; cbn [Z.b2z]; lia. }
    rewrite lor_disjoint by (change (2 ^ 31) with 2147483648; lia).
    unfold join_bits. change (2 ^ 8) with 256. change (2 ^ 23) with 8388608.
    change (2 ^ 31) with 2147483648.
    rewrite (Z.mod_small (E + 112) 256), (Z.mod_small (M * 8192) 8388608) by lia.
    destruct s; cbn [Z.b2z]; lia. }
  rewrite H1, H2.
  destruct (join_bits_fields s (E + 112) (M * 8192) ltac:(lia) ltac:(lia)) as (T & FE & FM).
  unfold b2f. rewrite T, FE, FM. change (2 ^ 23) with 8388608.
  destruct (Z.eqb_spec (E + 112) 0); [lia |].
  destruct (Z.eqb_spec (E + 112) 255); [lia |].
  cbn [same_value]. rewrite eqb_reflx. cbn [andb].
  rewrite !Z2Pos.id by lia. apply Z.eqb_eq.
  replace (E - 25 + 149) with (E + 111 + 13) by ring.
  replace (E + 112 - 150 + 149) with (E + 111) by ring.
  rewrite Z.pow_add_r by lia. change (2 ^ 13) with 8192. ring.
Qed.

Lemma half_ok_all (h : Z) : 0 <= h < 2 ^ 16 -> half_ok h = true.
Proof.
  intros Hh. change (2 ^ 16) with 65536 in Hh.
  destruct half_ok_edges as (A0 & A1 & A2 & A3).
  destruct (Z.lt_ge_cases h 1024); [apply (all_from_spec _ _ _ A0); cbn; lia |].
  destruct (Z.lt_ge_cases h 31744) as [L1 | G1].
  { apply half_ok_normal; [change (2 ^ 16) with 65536; lia |].
    change (2 ^ 10) with 1024. change (2 ^ 5) with 32.
    assert (1 <= h / 1024 <= 30) as R
      by (split; [apply Z.div_le_lower_bound; lia
                 | apply Z.lt_succ_r, Z.div_lt_upper_bound; lia]).
    rewrite Z.mod_small by lia. exact R. }
  destruct (Z.lt_ge_cases h 32768); [apply (all_from_spec _ _ _ A1); cbn; lia |].
  destruct (Z.lt_ge_cases h 33792); [apply (all_from_spec _ _ _ A2); cbn; lia |].
  destruct (Z.lt_ge_cases h 64512) as [L2 | G2];
    [| apply (all_from_spec _ _ _ A3); cbn; lia].
  apply half_ok_normal; [change (2 ^ 16) with 65536; lia |].
  change (2 ^ 10) with 1024. change (2 ^ 5) with 32.
  assert (33 <= h / 1024 <= 62) as R
    by (split; [apply Z.div_le_lower_bound; lia
               | apply Z.lt_succ_r, Z.div_lt_upper_bound; lia]).
  replace (h / 1024) with (h / 1024 - 32 + 1 * 32) by ring.
  rewrite Z.mod_add by discriminate. rewrite Z.mod_small by lia. lia.
Qed.

(** The SSE conversion of [half] to [float] (the multiply-by-2^112 bit
    trick used when F16C is not available) is exact: for each of the 65536
    binary16 patterns, in every lane and on every SSE backend, the loaded
    [float] is the same number as the [half], zeros and infinities keep
    their sign, subnormal halves become the equal normal floats, and NaN
    stays NaN. *)
Theorem float4_load_half_exact (ext : Z -> Z) (bk : backend) (values : vec4) (i : lane) :
  bk <> Scalar -> narrow4 16 values ->
  same_value (h2f (get values i)) (b2f (get (float4_load_half ext bk values) i)) = true.
Proof.
  intros NS H. rewrite float4_load_half_lane by assumption.
  rewrite half_lane_fast_eq by apply H.
  apply half_ok_all. apply H.
Qed.

Lemma float4_load_half_exact_witness :
  same_value (h2f (get (mk4 0x3C00 0x0001 0xFC00 0x7E00) L1))
    (b2f (get (float4_load_half (fun h => h) SSE2 (mk4 0x3C00 0x0001 0xFC00 0x7E00)) L1))
  = true.
Proof.
  apply (float4_load_half_exact (fun h => h) SSE2 (mk4 0x3C00 0x0001 0xFC00 0x7E00) L1).
  - discriminate.
  - intros k. destruct k; cbn [get x_ y_ z_ w_]; change (2 ^ 16) with 65536; lia.
Defined.
(* ------------------------------------------------------------------ *)
(** ** float4: comparisons *)

Lemma fle_or (a b : Z) : fle a b = flt a b || feq a b.
Proof.
  unfold fle, flt, feq, SFleb, SFltb, SFeqb.
  destruct (SFcompare (b2f a) (b2f b)) as [[| |] |]; reflexivity.
Qed.

Lemma fcmp_nan (a b : Z) :
  is_nan a = true \/ is_nan b = true ->
  feq a b = false /\ flt a b = false /\ fle a b = false
  /\ fgt a b = false /\ fge a b = false /\ fne a b = true.
Proof.
  unfold is_nan, feq, flt, fle, fgt, fge, fne, SFeqb, SFltb, SFleb.
  intros [H | H];
    destruct (b2f a) as [sa | sa | | sa ma ea]; try discriminate H;
    destruct (b2f b) as [sb | sb | | sb mb eb]; try discriminate H;
    cbn [SFcompare negb]; repeat split; reflexivity.
Qed.

Lemma float4_cmp_lane (bk : backend) (c : Z -> Z -> bool) (a b : float4) (i : lane) :
  get (float4_cmp bk c a b) i = bool_mask (c (get a i) (get b i)).
Proof.
  destruct bk, i;
    cbn [float4_cmp SIMD_int mm_cmp_ps zip4 build4 get x_ y_ z_ w_];
    unfold float4_get; cbn [get x_ y_ z_ w_];
    match goal with |- context [c ?p ?q] => destruct (c p q) end; reflexivity.
Qed.

Lemma mask4_or_bool (bk : backend) (m n : mask4) (i : lane) (p q : bool) :
  get m i = bool_mask p -> get n i = bool_mask q ->
  get (mask4_or bk m n) i = bool_mask (p || q).
Proof.
  intros Hm Hn.
  destruct bk, i;
    cbn [mask4_or SIMD_int mm_or zip4 build4 get x_ y_ z_ w_] in *;
    rewrite Hm, Hn; destruct p, q; reflexivity.
Qed.

Lemma mask4_not_bool (bk : backend) (m : mask4) (i : lane) (p : bool) :
  get m i = bool_mask p -> get (mask4_not bk m) i = bool_mask (negb p).
Proof.
  intros Hm.
  destruct bk, i;
    cbn [mask4_not mask4_True mm_cmpeq_epi8_self SIMD_int mm_xor splat zip4 build4
         get x_ y_ z_ w_] in *;
    rewrite Hm; destruct p; reflexivity.
Qed.

(** The comparisons of [float4], on every backend.  Each mask reads back
    through [operator[]] as the C comparison of the two lanes; as masks,
    [a <= b] is [(a < b) | (a == b)], [a != b] is [!(a == b)], [a > b] is
    [b < a] and [a >= b] is [b <= a].  In a lane where an operand is a
    NaN every comparison is false except [!=], so [a >= b] is not the
    complement of [a < b], unlike the comparisons of [int4]. *)
Theorem float4_compare_lanes (bk : backend) (a b : float4) (i : lane) :
  mask4_get bk (float4_eq bk a b) i = feq (get a i) (get b i)
  /\ mask4_get bk (float4_lt bk a b) i = flt (get a i) (get b i)
  /\ mask4_get bk (float4_le bk a b) i = fle (get a i) (get b i)
  /\ float4_le bk a b = mask4_or bk (float4_lt bk a b) (float4_eq bk a b)
  /\ float4_ne bk a b = mask4_not bk (float4_eq bk a b)
  /\ float4_gt bk a b = float4_lt bk b a
  /\ float4_ge bk a b = float4_le bk b a
  /\ (is_nan (get a i) = true \/ is_nan (get b i) = true ->
      mask4_get bk (float4_ge bk a b) i = false
      /\ mask4_get bk (float4_lt bk a b) i = false
      /\ mask4_get bk (float4_ne bk a b) i = true).
Proof.
  unfold float4_eq, float4_lt, float4_le, float4_ne, float4_gt, float4_ge.
  rewrite !float4_cmp_get.
  split; [reflexivity |]. split; [reflexivity |]. split; [reflexivity |].
  split; [| split; [| split; [| split]]].
  - apply vec4_ext. intros k.
    rewrite (mask4_or_bool bk _ _ k _ _ (float4_cmp_lane bk flt a b k)
               (float4_cmp_lane bk feq a b k)).
    rewrite float4_cmp_lane, fle_or. reflexivity.
  - apply vec4_ext. intros k.
    rewrite (mask4_not_bool bk _ k _ (float4_cmp_lane bk feq a b k)).
    rewrite float4_cmp_lane. reflexivity.
  - apply vec4_ext. intros k. rewrite !float4_cmp_lane. reflexivity.
  - apply vec4_ext. intros k. rewrite !float4_cmp_lane. reflexivity.
  - intros N. destruct (fcmp_nan _ _ N) as (_ & L & _ & _ & G & NE). auto.
Qed.

Lemma float4_compare_lanes_witness :
  mask4_get SSE2 (float4_ge SSE2 (mk4 default_nan fone fone fone) (splat fone)) L0
  = false.
Proof.
  refine (proj1 (proj2 (proj2 (proj2 (proj2 (proj2 (proj2 (proj2
            (float4_compare_lanes SSE2 (mk4 default_nan fone fone fone)
               (splat fone) L0))))))) _)).
  left. reflexivity.
Defined.

(* ------------------------------------------------------------------ *)
(** ** float3: normalized and normalized_fast *)

(** Under SSE the lanes 0..2 of [vdot3 (a, b)] all hold the sum of the
    three products, the fourth term of the sum being [+0.0f]. *)
Lemma float3_vdot3_lane (bk : backend) (a b : float3) (k : lane) :
  bk <> Scalar -> k <> L3 ->
  get (float3_vdot3 bk a b) k
  = fadd (fadd (fmul (get a L0) (get b L0)) (fmul (get a L1) (get b L1)))
         (fadd (fmul (get a L2) (get b L2)) fzero).
Proof.
  intros N K.
  assert (lane_index k =? 3 = false) as K3 by (destruct k; [reflexivity .. | contradiction]).
  destruct bk; [contradiction | | |].
  - cbn [float3_vdot3]. unfold float3_mul.
    rewrite !float3_of_float4_sse by discriminate.
    rewrite xyz0_lane, K3, float4_vreduce_add_sse by discriminate.
    rewrite !xyz0_lane, !float4_mul_lane. reflexivity.
  - cbn [float3_vdot3]. unfold float3_mul.
    rewrite !float3_of_float4_sse by discriminate.
    rewrite xyz0_lane, K3, float4_vreduce_add_sse by discriminate.
    rewrite !xyz0_lane, !float4_mul_lane. reflexivity.
  - cbn [float3_vdot3]. unfold mm_dp_ps.
    change (Z.testbit 7 3) with false. change (Z.testbit 7 2) with true.
    change (Z.testbit 7 1) with true. change (Z.testbit 7 0) with true.
    cbv iota.
    rewrite (fadd_comm fzero), (fadd_comm (fadd _ fzero)),
      (fadd_comm (fmul (get a L1) (get b L1))).
    destruct k; [reflexivity .. | contradiction].
Qed.

(** The scalar [dot (a, b)] adds the three products from left to right,
    and then the padding lane of the product, which is [+0.0f]. *)
Lemma float3_dot_scalar (a b : float3) :
  float3_dot Scalar a b
  = fadd (fadd (fadd (fmul (get a L0) (get b L0)) (fmul (get a L1) (get b L1)))
               (fmul (get a L2) (get b L2))) fzero.
Proof.
  cbn [float3_dot float4_reduce_add]. unfold float4_get, float3_mul.
  rewrite float3_of_float4_pad. cbn [OIIO_SIMD].
  assert (forall k, k <> L3 ->
                    get (float3_of_float4 Scalar (float4_mul Scalar a b)) k
                    = fmul (get a k) (get b k)) as E.
  { intros k K. rewrite <- float4_mul_lane with (bk := Scalar).
    destruct k; [reflexivity .. | contradiction]. }
  rewrite !E by discriminate. reflexivity.
Qed.

(** The scalar body shared by [normalized] and [normalized_fast]. *)
Lemma normalized_scalar_lane (c : bool) (v : float3) (s : Z) (k : lane) :
  k <> L3 ->
  get (if c then float3_div Scalar v (float3_of_float Scalar s)
       else float3_Zero Scalar) k
  = if c then fdiv (get v k) s else fzero.
Proof.
  intros K. destruct c.
  - unfold float3_div. rewrite xyz1_put.
    transitivity (get (float4_div Scalar v (put (float3_of_float Scalar s) L3 fone)) k).
    + destruct k; [reflexivity .. | contradiction].
    + rewrite float4_div_lane.
      destruct k; [reflexivity .. | contradiction].
  - destruct k; reflexivity.
Qed.

(** Under SSE [blend0not] clears the lanes the mask selects, and
    [rsqrt_fast] applies the approximation lane by lane. *)
Lemma blend0not_sse_lane (bk : backend) (a : float4) (m : mask4) (k : lane) :
  bk <> Scalar ->
  get (float4_blend0not bk a m) k = Z.land (wnot (get m k)) (get a k).
Proof. intros N. destruct bk; [contradiction | ..]; destruct k; reflexivity. Qed.

Lemma rsqrt_fast_sse_lane (rsqrt_ps : Z -> Z) (bk : backend) (a : float4) (k : lane) :
  bk <> Scalar -> get (rsqrt_fast rsqrt_ps bk a) k = rsqrt_ps (get a k).
Proof. intros N. destruct bk; [contradiction | ..]; destruct k; reflexivity. Qed.

(** A NaN operand makes the result of an arithmetic operation a NaN. *)
Ltac nan_operand H :=
  destruct H as [H | H];
  repeat match goal with
    | |- context [b2f ?a] =>
        is_var a; let s := fresh "s" in let m := fresh "m" in let e := fresh "e" in
        destruct (b2f a) as [s | s | | s m e]
    end;
  try discriminate H; reflexivity.

Lemma fmul_nan (a b : Z) :
  is_nan a = true \/ is_nan b = true -> is_nan (fmul a b) = true.
Proof. unfold fmul, is_nan at 1 2. intros H. nan_operand H. Qed.

Lemma fadd_nan (a b : Z) :
  is_nan a = true \/ is_nan b = true -> is_nan (fadd a b) = true.
Proof. unfold fadd, is_nan at 1 2. intros H. nan_operand H. Qed.

Lemma fdiv_nan (a b : Z) :
  is_nan a = true \/ is_nan b = true -> is_nan (fdiv a b) = true.
Proof. unfold fdiv, is_nan at 1 2. intros H. nan_operand H. Qed.

Lemma fsqrt_nan (a : Z) : is_nan a = true -> is_nan (fsqrt a) = true.
Proof.
  unfold fsqrt, is_nan at 1. intros H.
  destruct (b2f a) as [s | s | | s m e]; try discriminate H. reflexivity.
Qed.

(** Lanes 0..2 of [normalized ()] and [normalized_fast ()]. *)
Lemma normalized_lanes (rsqrt_ps : Z -> Z) (bk : backend) (v : float3) (k : lane) :
  (forall x, is_word (rsqrt_ps x)) ->
  k <> L3 ->
  let p := fun i => fmul (get v i) (get v i) in
  let len2 := fadd (fadd (p L0) (p L1)) (fadd (p L2) fzero) in
  let len2s := fadd (fadd (fadd (p L0) (p L1)) (p L2)) fzero in
  let scalar_body :=
    if fgt len2s fzero then fdiv (get v k) (fsqrt len2s) else fzero in
  get (normalized bk v) k
  = (if OIIO_SIMD bk
     then if feq (fsqrt len2) fzero then fzero
          else fdiv (get v k) (fsqrt len2)
     else scalar_body)
  /\ get (normalized_fast rsqrt_ps bk v) k
     = (if OIIO_SIMD bk
        then fmul (get v k) (if feq len2 fzero then fzero else rsqrt_ps len2)
        else scalar_body).
Proof.
  intros W K. cbv zeta.
  destruct (backend_eq_dec bk Scalar) as [-> | N].
  - cbn [OIIO_SIMD]. unfold normalized, normalized_fast. cbn [OIIO_SIMD].
    cbv zeta. rewrite float3_dot_scalar.
    split; apply normalized_scalar_lane; exact K.
  - assert (OIIO_SIMD bk = true) as S
        by (destruct bk; [contradiction | reflexivity ..]).
    unfold normalized, normalized_fast. rewrite S. cbv zeta.
    rewrite !float3_of_float4_sse by exact N. split.
    + rewrite safe_div_lane, float4_sqrt_lane.
      rewrite float3_vdot3_lane by assumption. reflexivity.
    + rewrite float4_mul_lane. f_equal.
      rewrite blend0not_sse_lane, rsqrt_fast_sse_lane by exact N.
      unfold float4_eq. rewrite float4_cmp_lane, float4_Zero_lanes.
      replace (get (splat fzero) k) with fzero by (destruct k; reflexivity).
      rewrite andnot_bool_mask by apply W.
      rewrite float3_vdot3_lane by assumption. reflexivity.
Qed.

(** With a NaN among the three components, both sums of the three squares
    are NaN. *)
Lemma len2_nan (v : float3) :
  is_nan (get v L0) = true \/ is_nan (get v L1) = true
  \/ is_nan (get v L2) = true ->
  let p := fun i => fmul (get v i) (get v i) in
  is_nan (fadd (fadd (p L0) (p L1)) (fadd (p L2) fzero)) = true
  /\ is_nan (fadd (fadd (fadd (p L0) (p L1)) (p L2)) fzero) = true.
Proof.
  intros H. cbv zeta.
  assert (forall i, is_nan (get v i) = true
                    -> is_nan (fmul (get v i) (get v i)) = true) as P
      by (intros i Hi; apply fmul_nan; left; exact Hi).
  destruct H as [H | [H | H]]; apply P in H; split.
  - apply fadd_nan; left; apply fadd_nan; left; exact H.
  - apply fadd_nan; left; apply fadd_nan; left; apply fadd_nan; left; exact H.
  - apply fadd_nan; left; apply fadd_nan; right; exact H.
  - apply fadd_nan; left; apply fadd_nan; left; apply fadd_nan; right; exact H.
  - apply fadd_nan; right; apply fadd_nan; left; exact H.
  - apply fadd_nan; left; apply fadd_nan; right; exact H.
Qed.

(** C6, as the code has it.  In each of the lanes 0..2 and for a vector
    [v] whose three components are not NaN:
    on the SSE backends [normalized ()] is [safe_div] of [v] by the square
    root of the 3-component dot product [len2 = (x*x + y*y) + (z*z + 0)],
    that is [+0.0f] where the root equals zero and [v[k] / sqrt (len2)]
    elsewhere, and it is the function the specification words;
    on the scalar backend it is [v[k] / sqrtf (len2)] when
    [len2 = ((x*x + y*y) + z*z) + 0] is greater than zero and [+0.0f]
    otherwise, with no [safe_div];
    [normalized_fast ()] multiplies, under SSE, [v[k]] by the approximate
    reciprocal square root of [len2], replaced by [+0.0f] where [len2]
    equals zero, and has the body of [normalized ()] on the scalar
    backend.
    With a NaN among the three components the two bodies part: lanes
    0..2 of [normalized ()] are NaN on the SSE backends, and the result
    is the zero vector on the scalar backend.
    On every backend the padding lane of [normalized ()] is [+0.0f];
    [normalized ()] maps [float3 (0,0,0)] to itself, all four lanes
    [+0.0f] and so free of NaN, and [float3 (1,0,0)] to exactly
    [float3 (1,0,0)]; [normalized_fast ()] maps the zero vector to itself
    whatever the reciprocal-square-root approximation delivers. *)
Theorem normalized_zero_guard (rsqrt_ps : Z -> Z) (bk : backend) :
  (forall (v : float3) (k : lane),
      (forall x, is_word (rsqrt_ps x)) ->
      is_nan (get v L0) = false -> is_nan (get v L1) = false ->
      is_nan (get v L2) = false ->
      k <> L3 ->
      let p := fun i => fmul (get v i) (get v i) in
      let len2 := fadd (fadd (p L0) (p L1)) (fadd (p L2) fzero) in
      let len2s := fadd (fadd (fadd (p L0) (p L1)) (p L2)) fzero in
      let scalar_body :=
        if fgt len2s fzero then fdiv (get v k) (fsqrt len2s) else fzero in
      get (normalized bk v) k
      = (if OIIO_SIMD bk
         then if feq (fsqrt len2) fzero then fzero
              else fdiv (get v k) (fsqrt len2)
         else scalar_body)
      /\ get (normalized_fast rsqrt_ps bk v) k
         = (if OIIO_SIMD bk
            then fmul (get v k) (if feq len2 fzero then fzero else rsqrt_ps len2)
            else scalar_body))
  /\ (forall (v : float3) (k : lane),
        is_nan (get v L0) = true \/ is_nan (get v L1) = true
        \/ is_nan (get v L2) = true ->
        k <> L3 ->
        if OIIO_SIMD bk then is_nan (get (normalized bk v) k) = true
        else normalized bk v = mk4 fzero fzero fzero fzero)
  /\ (forall v : float3,
        OIIO_SIMD bk = true -> normalized bk v = normalized_as_specified bk v)
  /\ (forall v : float3, get (normalized bk v) L3 = fzero)
  /\ normalized bk (float3_of_floats bk fzero fzero fzero)
     = float3_of_floats bk fzero fzero fzero
  /\ float3_of_floats bk fzero fzero fzero = mk4 fzero fzero fzero fzero
  /\ normalized bk (float3_of_floats bk fone fzero fzero)
     = float3_of_floats bk fone fzero fzero
  /\ normalized_fast rsqrt_ps bk (float3_of_floats bk fzero fzero fzero)
     = float3_of_floats bk fzero fzero fzero.
Proof.
  split; [| split; [| split; [| split; [| split; [| split; [| split]]]]]].
  - intros v k W _ _ _ K. apply normalized_lanes; assumption.
  - intros v k H K. destruct (len2_nan v H) as [N4 N1].
    destruct (OIIO_SIMD bk) eqn:S.
    + destruct (normalized_lanes (fun _ => 0) bk v k
                  (fun _ => conj (Z.le_refl 0) eq_refl) K) as [E _].
      rewrite S in E. rewrite E.
      apply fsqrt_nan in N4.
      destruct (fcmp_nan _ fzero (or_introl N4)) as [-> _].
      apply fdiv_nan. right. exact N4.
    + assert (bk = Scalar) as -> by (destruct bk; [reflexivity | discriminate S ..]).
      unfold normalized. cbn [OIIO_SIMD]. cbv zeta. rewrite float3_dot_scalar.
      destruct (fcmp_nan _ fzero (or_introl N1)) as (_ & _ & _ & -> & _).
      reflexivity.
  - intros v S. unfold normalized, normalized_as_specified. rewrite S. reflexivity.
  - intros v. unfold normalized. destruct (OIIO_SIMD bk) eqn:S.
    + cbv zeta. rewrite float3_of_float4_pad, S, safe_div_lane, float4_sqrt_lane.
      rewrite float3_vdot3_pad. vm_compute. reflexivity.
    + cbv zeta. destruct (fgt (float3_dot bk v v) fzero).
      * unfold float3_div. rewrite float3_of_float4_pad, S. reflexivity.
      * unfold float3_Zero. rewrite float3_of_float4_pad, S. reflexivity.
  - destruct bk; vm_compute; reflexivity.
  - destruct bk; reflexivity.
  - destruct bk; vm_compute; reflexivity.
  - destruct (backend_eq_dec bk Scalar) as [-> | N]; [vm_compute; reflexivity |].
    unfold normalized_fast.
    replace (OIIO_SIMD bk) with true by (destruct bk; [contradiction | reflexivity ..]).
    cbv zeta.
    replace (float3_vdot3 bk (float3_of_floats bk fzero fzero fzero)
               (float3_of_floats bk fzero fzero fzero))
      with (splat 0) by (destruct bk; vm_compute; reflexivity).
    replace (float4_eq bk (splat 0) (float4_Zero bk)) with (splat ones)
      by (destruct bk; vm_compute; reflexivity).
    rewrite blend0not_true_sse by exact N.
    destruct bk; vm_compute; reflexivity.
Qed.

(** On SSE2 [float3 (2,0,0)] is normalized to [1.0f] in its first lane,
    by [normalized ()] and, with the exact reciprocal square root in the
    place of the approximation, by [normalized_fast ()]; [float3 (NaN,0,0)]
    is normalized to a NaN in its first lane, and [normalized ()] is the
    function the specification words. *)
Lemma normalized_zero_guard_witness :
  (get (normalized SSE2 (mk4 f2_0 fzero fzero fzero)) L0 = fone
   /\ get (normalized_fast (fun x => fdiv fone (fsqrt x)) SSE2
             (mk4 f2_0 fzero fzero fzero)) L0 = fone)
  /\ is_nan (get (normalized SSE2 (mk4 default_nan fzero fzero fzero)) L0) = true
  /\ normalized SSE2 (mk4 f2_0 fzero fzero fzero)
     = normalized_as_specified SSE2 (mk4 f2_0 fzero fzero fzero).
Proof.
  pose proof (normalized_zero_guard (fun x => fdiv fone (fsqrt x)) SSE2)
    as (H & HN & HS & _).
  assert (forall x, is_word ((fun x => fdiv fone (fsqrt x)) x)) as W
      by (intros x; apply fdiv_word).
  assert (is_nan f2_0 = false) as A by (vm_compute; reflexivity).
  assert (is_nan fzero = false) as B by (vm_compute; reflexivity).
  assert (is_nan default_nan = true) as C by (vm_compute; reflexivity).
  assert (L0 <> L3) as K by discriminate.
  specialize (H (mk4 f2_0 fzero fzero fzero) L0 W A B B K). cbv zeta in H.
  specialize (HN (mk4 default_nan fzero fzero fzero) L0 (or_introl C) K).
  specialize (HS (mk4 f2_0 fzero fzero fzero) eq_refl).
  destruct H as [H1 H2]. split; [split | split].
  - rewrite H1. vm_compute. reflexivity.
  - rewrite H2. vm_compute. reflexivity.
  - exact HN.
  - exact HS.
Defined.

(** C6, where the specification's words fail.  On the scalar backend a
    vector with a NaN component is normalized to the zero vector, since
    [len2 > 0.0f] is false for a NaN [len2]; dividing by the square root
    with [safe_div], as the specification words it and as the SSE body
    does, leaves a NaN in that lane. *)
Lemma normalized_scalar_nan_zero :
  normalized Scalar (float3_of_floats Scalar default_nan fzero fzero)
  = mk4 fzero fzero fzero fzero
  /\ is_nan (get (normalized_as_specified Scalar
                    (float3_of_floats Scalar default_nan fzero fzero)) L0) = true
  /\ is_nan (get (normalized SSE2
                    (float3_of_floats SSE2 default_nan fzero fzero)) L0) = true
  /\ normalized Scalar (float3_of_floats Scalar default_nan fzero fzero)
     <> normalized_as_specified Scalar
          (float3_of_floats Scalar default_nan fzero fzero).
Proof.
  split; [vm_compute; reflexivity |].
  split; [vm_compute; reflexivity |].
  split; [vm_compute; reflexivity |].
  vm_compute. discriminate.
Qed.
